(** * Symbiote agent: task scheduling, device directory and security envelope

    A shallow embedding of the scheduling and migration core of the agent
    ([agent/core/task_manager.py]), of the device directory and the inbound
    path of the communication layer
    ([agent/communication/communication_layer.py]), of the local admission
    check of the desktop adapter ([agent/device/desktop_adapter.py]) and of
    the token scheme of the security manager ([utils/security.py]).

    Conventions.  A Python [str] is held as the bytes of its UTF-8 encoding
    (a Rocq [string]); a Python [bytes] value is a list of integers in
    [0, 256).  The floats of the resource check are IEEE 754 binary64 numbers
    with their rounding ([SpecFloat]); clock readings are rationals, and a
    clock reading that is formatted into text is carried as the text Python
    prints for it.  A Python dict whose iteration order matters
    is an association list in insertion order; a dict used only as a map is
    a [gmap].  Calls into collaborators (the operating system, transports,
    the execution backend) are explicit inputs or state-passing functions. *)

From Stdlib Require Import ZArith QArith String Ascii List Lia Bool.
From Stdlib Require Import Floats.SpecFloat.
From stdpp Require Import gmap strings list.
Import ListNotations.

Local Open Scope Z_scope.
Local Open Scope list_scope.

(** ** hashlib.sha256 and hmac (standard library, FIPS 180-4 and RFC 2104) *)

Module Hashlib.

Definition word (x : Z) : Z := x mod 4294967296.

Definition plus32 (x y : Z) : Z := word (x + y).

Definition rotr (n x : Z) : Z :=
  Z.lor (Z.shiftr x n) (word (Z.shiftl x (32 - n))).

Definition xor3 (x y z : Z) : Z := Z.lxor (Z.lxor x y) z.

Definition choose (e f g : Z) : Z :=
  Z.lxor (Z.land e f) (Z.land (Z.lxor e 4294967295) g).

Definition majority (a b c : Z) : Z :=
  xor3 (Z.land a b) (Z.land a c) (Z.land b c).

Definition big_sigma0 (x : Z) : Z := xor3 (rotr 2 x) (rotr 13 x) (rotr 22 x).
Definition big_sigma1 (x : Z) : Z := xor3 (rotr 6 x) (rotr 11 x) (rotr 25 x).
Definition small_sigma0 (x : Z) : Z := xor3 (rotr 7 x) (rotr 18 x) (Z.shiftr x 3).
Definition small_sigma1 (x : Z) : Z := xor3 (rotr 17 x) (rotr 19 x) (Z.shiftr x 10).

Definition round_constants : list Z :=
  [ 1116352408; 1899447441; 3049323471; 3921009573; 961987163; 1508970993;
    2453635748; 2870763221; 3624381080; 310598401; 607225278; 1426881987;
    1925078388; 2162078206; 2614888103; 3248222580; 3835390401; 4022224774;
    264347078; 604807628; 770255983; 1249150122; 1555081692; 1996064986;
    2554220882; 2821834349; 2952996808; 3210313671; 3336571891; 3584528711;
    113926993; 338241895; 666307205; 773529912; 1294757372; 1396182291;
    1695183700; 1986661051; 2177026350; 2456956037; 2730485921; 2820302411;
    3259730800; 3345764771; 3516065817; 3600352804; 4094571909; 275423344;
    430227734; 506948616; 659060556; 883997877; 958139571; 1322822218;
    1537002063; 1747873779; 1955562222; 2024104815; 2227730452; 2361852424;
    2428436474; 2756734187; 3204031479; 3329325298 ].

Definition initial_hash : list Z :=
  [ 1779033703; 3144134277; 1013904242; 2773480762;
    1359893119; 2600822924; 528734635; 1541459225 ].

(** The eight working variables and the sliding window of the sixteen most
    recent schedule words. *)
Record Working := {
  regs : list Z;
  window : list Z
}.

Definition at_ (l : list Z) (i : nat) : Z := nth i l 0.

Definition round (st : Working) (k : Z) : Working :=
  let r := regs st in
  let w := window st in
  let a := at_ r 0 in let b := at_ r 1 in let c := at_ r 2 in let d := at_ r 3 in
  let e := at_ r 4 in let f := at_ r 5 in let g := at_ r 6 in let h := at_ r 7 in
  let t1 := plus32 (plus32 (plus32 (plus32 h (big_sigma1 e)) (choose e f g)) k) (at_ w 0) in
  let t2 := plus32 (big_sigma0 a) (majority a b c) in
  let next := plus32 (plus32 (plus32 (small_sigma1 (at_ w 14)) (at_ w 9))
                             (small_sigma0 (at_ w 1))) (at_ w 0) in
  {| regs := [plus32 t1 t2; a; b; c; plus32 d t1; e; f; g];
     window := tl w ++ [next] |}.

Fixpoint zip_plus32 (xs ys : list Z) : list Z :=
  match xs, ys with
  | x :: xs', y :: ys' => plus32 x y :: zip_plus32 xs' ys'
  | _, _ => []
  end.

Definition compress (h : list Z) (block : list Z) : list Z :=
  zip_plus32 h (regs (fold_left round round_constants {| regs := h; window := block |})).

Definition be32 (b0 b1 b2 b3 : Z) : Z :=
  ((b0 * 256 + b1) * 256 + b2) * 256 + b3.

(** Big-endian words of a byte string whose length is a multiple of four. *)
Fixpoint words_of_bytes (bs : list Z) : list Z :=
  match bs with
  | b0 :: b1 :: b2 :: b3 :: rest => be32 b0 b1 b2 b3 :: words_of_bytes rest
  | _ => []
  end.

Definition bytes_of_word (w : Z) : list Z :=
  [ Z.shiftr w 24 mod 256; Z.shiftr w 16 mod 256; Z.shiftr w 8 mod 256; w mod 256 ].

Definition pad (msg : list Z) : list Z :=
  let n := Z.of_nat (length msg) in
  let zeros := Z.to_nat ((55 - n) mod 64) in
  let bits := 8 * n in
  msg ++ [128] ++ repeat 0 zeros
      ++ bytes_of_word (Z.shiftr bits 32 mod 4294967296) ++ bytes_of_word (bits mod 4294967296).

(** Consumes the schedule sixteen words (one block) at a time. *)
Fixpoint absorb (fuel : nat) (h : list Z) (ws : list Z) : list Z :=
  match fuel with
  | O => h
  | S fuel' =>
      match ws with
      | [] => h
      | _ => absorb fuel' (compress h (firstn 16 ws)) (skipn 16 ws)
      end
  end.

Definition sha256 (msg : list Z) : list Z :=
  let ws := words_of_bytes (pad msg) in
  flat_map bytes_of_word (absorb (length ws) initial_hash ws).

Definition block_size : nat := 64.

(** [hmac.new(key, msg, hashlib.sha256).digest()] *)
Definition hmac_sha256 (key msg : list Z) : list Z :=
  let k0 := if (block_size <? length key)%nat then sha256 key else key in
  let k := k0 ++ repeat 0 (block_size - length k0)%nat in
  let ipad := map (fun b => Z.lxor b 54) k in
  let opad := map (fun b => Z.lxor b 92) k in
  sha256 (opad ++ sha256 (ipad ++ msg)).

Definition hex_digit (n : Z) : ascii :=
  ascii_of_nat (Z.to_nat (if n <? 10 then 48 + n else 87 + n)).

(** [.hexdigest()]: two lower-case hexadecimal digits per byte. *)
Fixpoint hexlify (bs : list Z) : string :=
  match bs with
  | [] => EmptyString
  | b :: rest => String (hex_digit (b / 16)) (String (hex_digit (b mod 16)) (hexlify rest))
  end.

(** [str.encode()] on text already held as its UTF-8 bytes. *)
Fixpoint encode (s : string) : list Z :=
  match s with
  | EmptyString => []
  | String c rest => Z.of_nat (nat_of_ascii c) :: encode rest
  end.

(** [hmac.compare_digest(a, b)] on two [str] arguments: a [TypeError]
    ([None]) unless both are ASCII-only, otherwise whether they are equal.
    (That the comparison takes time independent of the contents is not a
    property of the value computed.) *)
Definition is_ascii (s : string) : bool :=
  forallb (fun b => b <? 128) (encode s).

Definition compare_digest (a b : string) : option bool :=
  if is_ascii a && is_ascii b then Some (bool_decide (a = b)) else None.

End Hashlib.

(** ** Shared data model *)

(** A capability value: the adapters report booleans and descriptive text
    (['type': 'desktop'], ['has_camera': True]). *)
Inductive CapValue :=
| CapBool (b : bool)
| CapText (s : string).

(** Python truthiness of a capability value. *)
Definition cap_truthy (v : CapValue) : bool :=
  match v with
  | CapBool b => b
  | CapText s => negb (bool_decide (s = EmptyString))
  end.

(** A task dictionary with its documented keys; an absent key is [None]. *)
Record Task := {
  task_id : option string;
  description : option string;
  required_capabilities : option (list string);
  required_resources : option (list (string * Q));
  parameters : option string
}.

Definition present {X : Type} (o : option X) : bool :=
  match o with Some _ => true | None => false end.

(** [bool(task)]: a dict is falsy exactly when it has no key. *)
Definition task_truthy (t : Task) : bool :=
  present (task_id t) || present (description t) || present (required_capabilities t)
  || present (required_resources t) || present (parameters t).

(** The task offer [{'type': 'task', 'task': task, 'priority': priority}]. *)
Record Message := {
  msg_type : string;
  msg_task : Task;
  msg_priority : nat
}.

(** A device record of the directory: the keys the core reads or writes. *)
Record DeviceInfo := {
  capabilities : option (list (string * CapValue));
  protocol : option string;
  last_seen : option Q
}.

(** Association lists as insertion-ordered dicts. *)
Section Dict.
Context {V : Type}.

Fixpoint dict_get (k : string) (d : list (string * V)) : option V :=
  match d with
  | [] => None
  | (k', v) :: rest => if bool_decide (k' = k) then Some v else dict_get k rest
  end.

(** [k in d] *)
Definition dict_has (k : string) (d : list (string * V)) : bool := present (dict_get k d).

(** [d[k] = v]: an existing key keeps its position, a new key goes last. *)
Fixpoint dict_set (k : string) (v : V) (d : list (string * V)) : list (string * V) :=
  match d with
  | [] => [(k, v)]
  | (k', v') :: rest =>
      if bool_decide (k' = k) then (k, v) :: rest else (k', v') :: dict_set k v rest
  end.

Definition dict_keys (d : list (string * V)) : list string := map fst d.
End Dict.

(** ** utils/security.py *)

Module SecurityManager.

(** The manager holds the url-safe base64 text of the key, as bytes. *)
Record t := { encryption_key : list Z }.

(** What [generate_token] reads of its argument: the text of
    [data.get('id', '')] as the f-string prints it, when the key exists. *)
Class HasId (D : Type) := id_text : D -> option string.

(** [generate_token(data)], where [now] is the text printed for the
    reading [time.time()] returns inside this call. *)
Definition generate_token {D} `{HasId D} (self : t) (now : string) (data : D) : string :=
  let message := (default EmptyString (id_text data) +:+ ":" +:+ now)%string in
  Hashlib.hexlify (Hashlib.hmac_sha256 (encryption_key self) (Hashlib.encode message)).

(** [verify_token(token, data)], where [now] is the text printed for the
    reading [time.time()] returns inside the nested [generate_token].
    [None] is the [TypeError] of [compare_digest]. *)
Definition verify_token {D} `{HasId D} (self : t) (now : string)
           (token : string) (data : D) : option bool :=
  let expected_token := generate_token self now data in
  Hashlib.compare_digest token expected_token.

(** The names an instance answers to: those set in [__init__] and the
    methods of the class. *)
Definition attributes : list string :=
  [ "encryption_key"; "cipher_suite"; "generate_token"; "verify_token";
    "encrypt"; "decrypt"; "hash_password"; "verify_password" ]%string.

Definition has_attribute (name : string) : bool := bool_decide (name ∈ attributes).

(** [hash_password(password)]: the hexadecimal SHA-256 digest. *)
Definition hash_password (password : string) : string :=
  Hashlib.hexlify (Hashlib.sha256 (Hashlib.encode password)).

(** [verify_password(password, hashed)]; [None] is the [TypeError] of
    [compare_digest]. *)
Definition verify_password (password hashed : string) : option bool :=
  Hashlib.compare_digest (hash_password password) hashed.

End SecurityManager.

#[export] Instance task_has_id : SecurityManager.HasId Task := task_id.

(** ** agent/core/agent_core.py: the interface the core calls back into *)

Module AgentCore.

(** The methods an orchestrator object offers. *)
Record t := { methods : list string }.

Definition has_method (core : t) (name : string) : bool := bool_decide (name ∈ methods core).

(** The class [AgentCore] of the repository. *)
Definition repository : t :=
  {| methods := [ "_create_device_adapter"; "start"; "stop"; "handle_received_data" ]%string |}.

End AgentCore.

(** ** agent/communication/communication_layer.py *)

Definition Qlt_bool (x y : Q) : bool := negb (Qle_bool y x).

Module CommunicationLayer.

(** The status strings the layer writes. *)
Inductive Status := new | reconnected | disconnected.

(** A transport handler as the layer finds it during one operation:
    what [send_data] reports for a target, and what [discover_devices]
    returns ([None] when the call raises, as it does for a handler that
    defines no such method). *)
Record Handler := {
  handler_send_data : string -> Message -> bool;
  discover_devices : option (list (string * DeviceInfo))
}.

Record t := {
  agent_core : AgentCore.t;
  security : SecurityManager.t;
  protocol_handlers : list (string * Handler);
  discovery_interval : Q;
  available_devices : list (string * DeviceInfo);
  device_status : gmap string Status
}.

(** [send_data(target_id, data, protocol)]; an empty protocol name is
    falsy, like [None]. *)
Definition send_data (self : t) (target_id : string) (data : Message)
           (protocol : option string) : bool :=
  match protocol with
  | Some name =>
      if bool_decide (name = EmptyString)
      then existsb (fun h => handler_send_data (snd h) target_id data) (protocol_handlers self)
      else match dict_get name (protocol_handlers self) with
           | None => false
           | Some handler => handler_send_data handler target_id data
           end
  | None => existsb (fun h => handler_send_data (snd h) target_id data) (protocol_handlers self)
  end.

Definition get_available_devices (self : t) : list (string * DeviceInfo) :=
  available_devices self.

(** *** One pass of the body of [_discovery_loop] *)

(** What the pass has built so far: the fresh [discovered_devices], the
    status table, the status changes reported to the agent core, and how
    many times the clock has been read. *)
Record Scan := {
  discovered : list (string * DeviceInfo);
  statuses : gmap string Status;
  notified : list (string * Status);
  clock_reads : nat
}.

Definition observe_status (st : gmap string Status) (device_id : string)
  : gmap string Status :=
  match st !! device_id with
  | None => <[device_id := new]> st
  | Some disconnected => <[device_id := reconnected]> st
  | Some _ => st
  end.

(** The loop over the devices one handler returned.  [clock n] is the
    reading of the [n]-th call of [time.time()] in this pass.  The call of
    [agent_core.handle_device_status_change] raises [AttributeError] when
    the core has no such method, which leaves this loop. *)
Fixpoint process_devices (core : AgentCore.t) (name : string) (clock : nat -> Q)
         (devices : list (string * DeviceInfo)) (sc : Scan) : Scan :=
  match devices with
  | [] => sc
  | (device_id, device_info) :: rest =>
      let stamped := {| capabilities := capabilities device_info;
                        protocol := Some name;
                        last_seen := Some (clock (clock_reads sc)) |} in
      let st := observe_status (statuses sc) device_id in
      let sc' := {| discovered := dict_set device_id stamped (discovered sc);
                    statuses := st;
                    notified := notified sc;
                    clock_reads := S (clock_reads sc) |} in
      if AgentCore.has_method core "handle_device_status_change"
      then process_devices core name clock rest
             {| discovered := discovered sc';
                statuses := st;
                notified := notified sc ++ [(device_id, default new (st !! device_id))];
                clock_reads := clock_reads sc' |}
      else sc'
  end.

Definition scan_protocol (core : AgentCore.t) (clock : nat -> Q)
           (sc : Scan) (entry : string * Handler) : Scan :=
  match discover_devices (snd entry) with
  | None => sc
  | Some devices => process_devices core (fst entry) clock devices sc
  end.

(** The sweep over the directory after it has been replaced.  A record
    without [last_seen] raises [KeyError], and a missing callback raises
    [AttributeError]; both are caught by the outer handler and end the
    sweep. *)
Fixpoint sweep (core : AgentCore.t) (interval current_time : Q)
         (devices : list (string * DeviceInfo))
         (st : gmap string Status) (notes : list (string * Status))
  : gmap string Status * list (string * Status) :=
  match devices with
  | [] => (st, notes)
  | (device_id, device_info) :: rest =>
      match last_seen device_info with
      | None => (st, notes)
      | Some seen =>
          if Qlt_bool (interval * 2) (current_time - seen)
          then
            let st' := <[device_id := disconnected]> st in
            if AgentCore.has_method core "handle_device_status_change"
            then sweep core interval current_time rest st' (notes ++ [(device_id, disconnected)])
            else (st', notes)
          else sweep core interval current_time rest st notes
      end
  end.

(** One discovery cycle: the layer afterwards and the status changes
    reported to the agent core. *)
Definition discovery_cycle (self : t) (clock : nat -> Q) : t * list (string * Status) :=
  let start := {| discovered := []; statuses := device_status self;
                  notified := []; clock_reads := O |} in
  let sc := fold_left (scan_protocol (agent_core self) clock) (protocol_handlers self) start in
  let current_time := clock (clock_reads sc) in
  let '(st, notes) := sweep (agent_core self) (discovery_interval self) current_time
                            (discovered sc) (statuses sc) (notified sc) in
  ({| agent_core := agent_core self;
      security := security self;
      protocol_handlers := protocol_handlers self;
      discovery_interval := discovery_interval self;
      available_devices := discovered sc;
      device_status := st |}, notes).

(** *** [receive_data] *)

(** The envelope dict [{signature, data}], with an optional [id]. *)
Record Envelope := {
  signature : option string;
  data : option (list Z);
  envelope_id : option string
}.

#[global] Instance envelope_has_id : SecurityManager.HasId Envelope := envelope_id.

(** The calls [receive_data] makes, in order. *)
Inductive Inbound :=
| Verified (result : option bool)
| Decrypted (ciphertext : list Z)
| Handled (sender_id : string) (plaintext : list Z).

(** [receive_data(sender_id, data)].  [now] is the text of the clock
    reading inside [verify_token]; [decrypt] and [handle] are what the
    cipher ([None]: it raises) and [agent_core.handle_received_data]
    answer.  Every exception is caught and yields [False]. *)
Definition receive_data (self : t) (now : string)
           (decrypt : list Z -> option (list Z)) (handle : string -> list Z -> bool)
           (sender_id : string) (envelope : Envelope) : bool * list Inbound :=
  match signature envelope with
  | None => (false, [])
  | Some token =>
      let verdict := SecurityManager.verify_token (security self) now token envelope in
      match verdict with
      | Some true =>
          if SecurityManager.has_attribute "decrypt_data"
          then match data envelope with
               | None => (false, [Verified verdict])
               | Some ciphertext =>
                   match decrypt ciphertext with
                   | None => (false, [Verified verdict; Decrypted ciphertext])
                   | Some plaintext =>
                       (handle sender_id plaintext,
                        [Verified verdict; Decrypted ciphertext; Handled sender_id plaintext])
                   end
               end
          else (false, [Verified verdict])
      | _ => (false, [Verified verdict])
      end
  end.

(** *** The rest of the layer *)

(** [is_device_available(device_id)] *)
Definition is_device_available (self : t) (device_id : string) : bool :=
  dict_has device_id (available_devices self).

Definition with_status (self : t) (st : gmap string Status) : t :=
  {| agent_core := agent_core self;
     security := security self;
     protocol_handlers := protocol_handlers self;
     discovery_interval := discovery_interval self;
     available_devices := available_devices self;
     device_status := st |}.

(** [handle_device_disconnection(device_id)]: whether the call returns
    ([false]: it raises, the agent core having no
    [handle_device_status_change]), the layer afterwards, and the status
    changes reported. *)
Definition handle_device_disconnection (self : t) (device_id : string)
  : bool * t * list (string * Status) :=
  if dict_has device_id (available_devices self)
  then
    let self' := with_status self (<[device_id := disconnected]> (device_status self)) in
    if AgentCore.has_method (agent_core self) "handle_device_status_change"
    then (true, self', [(device_id, disconnected)])
    else (false, self', [])
  else (true, self, []).

(** The handlers [send_data] calls, in order, with what each reports: with
    no protocol named, every handler up to the first that reports
    success. *)
Fixpoint send_attempts (handlers : list (string * Handler)) (target_id : string)
         (data : Message) : list (string * bool) :=
  match handlers with
  | [] => []
  | (name, handler) :: rest =>
      if handler_send_data handler target_id data
      then [(name, true)]
      else (name, false) :: send_attempts rest target_id data
  end.

(** [broadcast_data(data, protocol)], where [reports name] is what the
    [broadcast_data] of the handler registered as [name] answers: the result
    and the handlers asked, in order.  Without a protocol every handler is
    asked, whatever the others answered. *)
Definition broadcast_data (self : t) (reports : string -> bool) (protocol : option string)
  : bool * list string :=
  let all := dict_keys (protocol_handlers self) in
  match protocol with
  | Some name =>
      if bool_decide (name = EmptyString)
      then (existsb reports all, all)
      else if dict_has name (protocol_handlers self)
           then (reports name, [name])
           else (false, [])
  | None => (existsb reports all, all)
  end.

(** [announce_presence()]: the announcement is broadcast on every
    transport. *)
Definition announce_presence (self : t) (reports : string -> bool) : bool * list string :=
  broadcast_data self reports None.

(** What [start()] and [stop()] do to the transports and to the flag of
    the discovery loop. *)
Inductive Lifecycle :=
| HandlerStarted (name : string) (ok : bool)
| HandlerStopped (name : string) (ok : bool)
| DiscoveryThreadStarted
| PresenceAnnounced.

(** The loop [for protocol, handler in ...: if not handler.start(): return
    False]. *)
Fixpoint start_handlers (starts : string -> bool) (names : list string)
  : bool * list Lifecycle :=
  match names with
  | [] => (true, [])
  | name :: rest =>
      if starts name
      then let '(ok, calls) := start_handlers starts rest in
           (ok, HandlerStarted name true :: calls)
      else (false, [HandlerStarted name false])
  end.

(** [start()]: the result, the [running] flag afterwards, and the calls
    made.  [starts name] is what [handler.start()] answers. *)
Definition start (self : t) (starts : string -> bool) (running : bool)
  : bool * bool * list Lifecycle :=
  let '(ok, calls) := start_handlers starts (dict_keys (protocol_handlers self)) in
  if ok
  then (true, true, calls ++ [DiscoveryThreadStarted; PresenceAnnounced])
  else (false, running, calls).

Fixpoint stop_handlers (stops : string -> bool) (names : list string)
  : bool * list Lifecycle :=
  match names with
  | [] => (true, [])
  | name :: rest =>
      if stops name
      then let '(ok, calls) := stop_handlers stops rest in
           (ok, HandlerStopped name true :: calls)
      else (false, [HandlerStopped name false])
  end.

(** [stop()]: the handlers are stopped; the flag of the discovery loop is
    not written. *)
Definition stop (self : t) (stops : string -> bool) (running : bool)
  : bool * bool * list Lifecycle :=
  let '(ok, calls) := stop_handlers stops (dict_keys (protocol_handlers self)) in
  (ok, running, calls).

End CommunicationLayer.

(** ** agent/device/device_adapter.py and desktop_adapter.py *)

(** The part of the abstract [DeviceAdapter] the scheduler calls.  The
    adapter value carries whatever the answers depend on (the state of the
    operating system included), so every call returns the adapter as it is
    afterwards. *)
Class DeviceAdapter (A : Type) := {
  can_execute_task : A -> Task -> bool * A;
  execute_task : A -> Task -> bool * A;
  adapter_stop_task : A -> string -> bool * A
}.

Module DesktopAdapter.

(** Python's [float]: an IEEE 754 binary64 number. *)
Definition float : Type := spec_float.
Definition prec : Z := 53.
Definition emax : Z := 1024.

(** The float of an int, as in [100 - x] with a float [x]. *)
Definition float_of_int (n : Z) : float := binary_normalize prec emax n 0 false.

(** [n - x] for an int [n] and a float [x]: the difference of the two
    floats, rounded to the nearest float. *)
Definition int_sub_float (n : Z) (x : float) : float := SFsub prec emax (float_of_int n) x.

(** The number a finite float stands for. *)
Definition float_Q (negative : bool) (m : positive) (e : Z) : Q :=
  (inject_Z (if negative then Z.neg m else Z.pos m) * 2 ^ e)%Q.

(** [x < amount] for a float [x] and an int or float [amount]: Python
    compares the two numbers exactly, and nothing is above a NaN. *)
Definition float_lt (x : float) (amount : Q) : bool :=
  match x with
  | S754_nan => false
  | S754_infinity negative => negative
  | S754_zero _ => Qlt_bool 0 amount
  | S754_finite negative m e => Qlt_bool (float_Q negative m e) amount
  end.

(** One reading of [psutil]: the percentages in use, which are floats. *)
Record Usage := {
  cpu_percent : float;
  memory_percent : float;
  disk_percent : float
}.

(** The adapter: the capabilities detected at construction, and the
    operating system as a sequence of readings, of which [reads] have been
    taken. *)
Record t := {
  capabilities : gmap string CapValue;
  usage : nat -> Usage;
  reads : nat
}.

Definition available_of (u : Usage) : list (string * float) :=
  [ ("cpu_percent"%string, int_sub_float 100 (cpu_percent u));
    ("memory_percent"%string, int_sub_float 100 (memory_percent u));
    ("disk_percent"%string, int_sub_float 100 (disk_percent u)) ].

(** [get_available_resources()] *)
Definition get_available_resources (self : t) : list (string * float) * t :=
  (available_of (usage self (reads self)),
   {| capabilities := capabilities self; usage := usage self; reads := S (reads self) |}).

(** The capability loop: [self.capabilities.get(capability, False)] must
    be truthy for every required name. *)
Definition has_capabilities (caps : gmap string CapValue) (task_requirements : Task) : bool :=
  forallb (fun capability => cap_truthy (default (CapBool false) (caps !! capability)))
          (default [] (required_capabilities task_requirements)).

(** The resource loop: no [available.get(resource, 0) < amount]; the
    default is the int [0]. *)
Definition has_resources (available : list (string * float)) (task_requirements : Task)
  : bool :=
  forallb (fun entry => negb (match dict_get (fst entry) available with
                              | Some x => float_lt x (snd entry)
                              | None => Qlt_bool 0 (snd entry)
                              end))
          (default [] (required_resources task_requirements)).

(** [can_execute_task(task_requirements)]: the resources are read only
    once the capability loop has passed. *)
Definition can_execute_task (self : t) (task_requirements : Task) : bool * t :=
  if has_capabilities (capabilities self) task_requirements
  then let '(available, self') := get_available_resources self in
       (has_resources available task_requirements, self')
  else (false, self).

(** The placeholders of the repository. *)
Definition execute_task (self : t) (task : Task) : bool * t := (true, self).
Definition stop_task (self : t) (task_id : string) : bool * t := (true, self).

End DesktopAdapter.

#[export] Instance desktop_adapter : DeviceAdapter DesktopAdapter.t := {
  can_execute_task := DesktopAdapter.can_execute_task;
  execute_task := DesktopAdapter.execute_task;
  adapter_stop_task := DesktopAdapter.stop_task
}.

(** ** agent/core/task_manager.py *)

Module TaskManager.

Record Config := {
  config_max_concurrent : option Z;
  config_priority_levels : option Z
}.

(** [settings.MAX_CONCURRENT_TASKS] and [settings.PRIORITY_LEVELS]. *)
Definition MAX_CONCURRENT_TASKS : Z := 5.
Definition PRIORITY_LEVELS : Z := 5.

Record t := {
  max_concurrent : Z;
  priority_levels : Z;
  task_queues : list (list Task);
  active_tasks : gmap string Task;
  running : bool
}.

(** [__init__]: one empty queue per priority level, nothing active. *)
Definition init (config : Config) : t :=
  let levels := default PRIORITY_LEVELS (config_priority_levels config) in
  {| max_concurrent := default MAX_CONCURRENT_TASKS (config_max_concurrent config);
     priority_levels := levels;
     task_queues := replicate (Z.to_nat levels) [];
     active_tasks := ∅;
     running := false |}.

Definition with_queues (self : t) (queues : list (list Task)) : t :=
  {| max_concurrent := max_concurrent self; priority_levels := priority_levels self;
     task_queues := queues; active_tasks := active_tasks self; running := running self |}.

Definition with_active (self : t) (active : gmap string Task) : t :=
  {| max_concurrent := max_concurrent self; priority_levels := priority_levels self;
     task_queues := task_queues self; active_tasks := active; running := running self |}.

Definition with_running (self : t) (flag : bool) : t :=
  {| max_concurrent := max_concurrent self; priority_levels := priority_levels self;
     task_queues := task_queues self; active_tasks := active_tasks self; running := flag |}.

(** What the manager does to its queues and to its collaborators. *)
Inductive Event :=
| Appended (priority : nat) (task : Task)
| Popped (priority : nat) (task : Task)
| AskedCanExecute (task : Task) (answer : bool)
| Executed (task : Task) (ok : bool)
| MigrationTried (task : Task) (priority : nat)
| Sent (device_id : string) (message : Message) (ok : bool)
| AskedStop (task_id : string) (ok : bool).

(** [add_task(task, priority)], the lock being free.  An index outside
    the queue list would raise [IndexError], which the handler turns into
    [False]. *)
Definition add_task (self : t) (task : Task) (priority : Z) : bool * t * list Event :=
  if (priority <? 0) || (priority >=? priority_levels self)
  then (false, self, [])
  else
    let p := Z.to_nat priority in
    match task_queues self !! p with
    | Some queue => (true, with_queues self (<[p := queue ++ [task]]> (task_queues self)),
                     [Appended p task])
    | None => (false, self, [])
    end.

(** [stop_task(task_id)], the lock being free. *)
Definition stop_task {A} `{DeviceAdapter A} (self : t) (adapter : A) (task_id : string)
  : bool * t * A * list Event :=
  match active_tasks self !! task_id with
  | Some _ =>
      let '(ok, adapter') := adapter_stop_task adapter task_id in
      if ok
      then (true, with_active self (delete task_id (active_tasks self)), adapter',
            [AskedStop task_id true])
      else (false, self, adapter', [AskedStop task_id false])
  | None => (false, self, adapter, [])
  end.

(** [task_queues[priority].pop(0)]; [None] is the [IndexError]. *)
Definition pop_head (priority : nat) (queues : list (list Task))
  : option (Task * list (list Task)) :=
  match queues !! priority with
  | Some (task :: queue) => Some (task, <[priority := queue]> queues)
  | _ => None
  end.

(** [all(cap in capabilities for cap in task.get('required_capabilities', []))] *)
Definition eligible (device_info : DeviceInfo) (task : Task) : bool :=
  let capabilities := default [] (capabilities device_info) in
  forallb (fun cap => dict_has cap capabilities) (default [] (required_capabilities task)).

Definition task_offer (task : Task) (priority : nat) : Message :=
  {| msg_type := "task"; msg_task := task; msg_priority := priority |}.

(** The loop of [_try_migrate_task] over the remaining devices: the
    queues afterwards ([None] when the pop raises) and the events. *)
Fixpoint migrate_loop (comm : CommunicationLayer.t) (task : Task) (priority : nat)
         (queues : list (list Task)) (devices : list (string * DeviceInfo))
  : option (list (list Task)) * list Event :=
  match devices with
  | [] => (Some queues, [])
  | (device_id, device_info) :: rest =>
      if eligible device_info task
      then
        let message := task_offer task priority in
        if CommunicationLayer.send_data comm device_id message None
        then match pop_head priority queues with
             | Some (head, queues') =>
                 (Some queues', [Sent device_id message true; Popped priority head])
             | None => (None, [Sent device_id message true])
             end
        else
          let '(result, events) := migrate_loop comm task priority queues rest in
          (result, Sent device_id message false :: events)
      else migrate_loop comm task priority queues rest
  end.

(** [_try_migrate_task(task, priority)] *)
Definition _try_migrate_task (self : t) (comm : CommunicationLayer.t)
           (task : Task) (priority : nat) : option t * list Event :=
  let devices := CommunicationLayer.get_available_devices comm in
  let '(result, events) := migrate_loop comm task priority (task_queues self) devices in
  (with_queues self <$> result, MigrationTried task priority :: events).

(** The [for p, queue in enumerate(self.task_queues)] scan: the head of
    the first non-empty queue, with its index. *)
Fixpoint select_from (p : nat) (queues : list (list Task)) : option (nat * Task) :=
  match queues with
  | [] => None
  | [] :: rest => select_from (S p) rest
  | (task :: _) :: _ => Some (p, task)
  end.

Definition select_task (self : t) : option (nat * Task) := select_from O (task_queues self).

(** How one pass through the body of the inner [while] ends. *)
Inductive Flow := Continue | Break.

(** One pass through the body of
    [while len(self.active_tasks) < self.max_concurrent], the loop
    condition included.  An exception ([KeyError] on [task['id']], or one
    out of the migration) is caught outside the loop and ends it. *)
Definition loop_pass {A} `{DeviceAdapter A} (comm : CommunicationLayer.t)
           (self : t) (adapter : A) : Flow * t * A * list Event :=
  if Z.of_nat (size (active_tasks self)) <? max_concurrent self
  then
    match select_task self with
    | None => (Break, self, adapter, [])
    | Some (priority, task) =>
        if task_truthy task
        then
          let '(can, adapter1) := can_execute_task adapter task in
          if can
          then
            match pop_head priority (task_queues self) with
            | None => (Break, self, adapter1, [AskedCanExecute task true])
            | Some (head, queues) =>
                let popped := with_queues self queues in
                let '(ok, adapter2) := execute_task adapter1 task in
                let events := [AskedCanExecute task true; Popped priority head;
                               Executed task ok] in
                if ok
                then match task_id task with
                     | Some key =>
                         (Continue, with_active popped (<[key := task]> (active_tasks popped)),
                          adapter2, events)
                     | None => (Break, popped, adapter2, events)
                     end
                else (Continue, popped, adapter2, events)
            end
          else
            let '(result, events) := _try_migrate_task self comm task priority in
            (Break, default self result, adapter1, AskedCanExecute task false :: events)
        else (Break, self, adapter, [])
    end
  else (Break, self, adapter, []).

(** The inner [while] loop, bounded by [fuel] passes; [None] when the
    bound is reached before the loop ends. *)
Fixpoint inner_loop {A} `{DeviceAdapter A} (fuel : nat) (comm : CommunicationLayer.t)
         (self : t) (adapter : A) : option (t * A * list Event) :=
  match fuel with
  | O => None
  | S fuel' =>
      match loop_pass comm self adapter with
      | (Break, self', adapter', events) => Some (self', adapter', events)
      | (Continue, self', adapter', events) =>
          match inner_loop fuel' comm self' adapter' with
          | Some (self'', adapter'', events') => Some (self'', adapter'', events ++ events')
          | None => None
          end
      end
  end.

(** The number of queued tasks: every pass that continues removes one. *)
Definition queued (self : t) : nat := length (concat (task_queues self)).

(** The body of one iteration of [_scheduler_loop], under the lock. *)
Definition scheduler_body {A} `{DeviceAdapter A} (comm : CommunicationLayer.t)
           (self : t) (adapter : A) : t * A * list Event :=
  default (self, adapter, []) (inner_loop (S (queued self)) comm self adapter).

(** *** The manager with its lock *)

(** [lock_held] records that a thread holds [self.lock] and will never
    release it. *)
Record System (A : Type) := {
  manager : t;
  adapter : A;
  lock_held : bool
}.
Arguments manager {A} _.
Arguments adapter {A} _.
Arguments lock_held {A} _.

Inductive Op :=
| Start
| Stop
| AddTask (task : Task) (priority : Z)
| StopTask (task_id : string)
| SchedulerIteration (comm : CommunicationLayer.t).

(** One operation.  [threading.Lock] is not re-entrant: [stop()] takes
    the lock and calls [stop_task], which takes it again, so with an
    active task the call blocks for ever with the lock held; every later
    operation that needs the lock then waits for ever, and changes
    nothing.  An iteration of the scheduler loop runs its body while
    [running] holds. *)
Definition step {A} `{DeviceAdapter A} (sys : System A) (op : Op) : System A * list Event :=
  match op with
  | Start =>
      ({| manager := with_running (manager sys) true;
          adapter := adapter sys; lock_held := lock_held sys |}, [])
  | Stop =>
      ({| manager := with_running (manager sys) false;
          adapter := adapter sys;
          lock_held := lock_held sys
                       || negb (bool_decide (active_tasks (manager sys) = ∅)) |}, [])
  | AddTask task priority =>
      if lock_held sys then (sys, [])
      else let '(_, self, events) := add_task (manager sys) task priority in
           ({| manager := self; adapter := adapter sys; lock_held := false |}, events)
  | StopTask task_id =>
      if lock_held sys then (sys, [])
      else let '(_, self, adapter', events) := stop_task (manager sys) (adapter sys) task_id in
           ({| manager := self; adapter := adapter'; lock_held := false |}, events)
  | SchedulerIteration comm =>
      if lock_held sys || negb (running (manager sys)) then (sys, [])
      else let '(self, adapter', events) := scheduler_body comm (manager sys) (adapter sys) in
           ({| manager := self; adapter := adapter'; lock_held := false |}, events)
  end.

Fixpoint run {A} `{DeviceAdapter A} (sys : System A) (ops : list Op)
  : System A * list Event :=
  match ops with
  | [] => (sys, [])
  | op :: rest =>
      let '(sys', events) := step sys op in
      let '(sys'', events') := run sys' rest in
      (sys'', events ++ events')
  end.

Definition boot {A} (config : Config) (adapter : A) : System A :=
  {| manager := init config; adapter := adapter; lock_held := false |}.

(** *** The methods as a caller meets them *)

(** [add_task(task, priority)] called on the manager of [sys]: what the
    call returns ([None] when it never returns, waiting at
    [with self.lock] for a lock that is held for ever), the system
    afterwards and the events.  The priority is validated before the lock is
    taken, so an invalid priority is answered even then. *)
Definition call_add_task {A} (sys : System A) (task : Task) (priority : Z)
  : option bool * System A * list Event :=
  if (priority <? 0) || (priority >=? priority_levels (manager sys))
  then (Some false, sys, [])
  else if lock_held sys
       then (None, sys, [])
       else let '(result, self, events) := add_task (manager sys) task priority in
            (Some result,
             {| manager := self; adapter := adapter sys; lock_held := false |}, events).

(** [stop_task(task_id)] called on the manager of [sys]: the lock is taken
    first. *)
Definition call_stop_task {A} `{DeviceAdapter A} (sys : System A) (task_id : string)
  : option bool * System A * list Event :=
  if lock_held sys
  then (None, sys, [])
  else let '(result, self, adapter', events) :=
         stop_task (manager sys) (adapter sys) task_id in
       (Some result, {| manager := self; adapter := adapter'; lock_held := false |}, events).

(** *** Starting and stopping *)

(** [start()]: raises the flag and starts the scheduler thread. *)
Definition start (self : t) : bool * t := (true, with_running self true).

(** Entering [with self.lock:] in a thread, [held] telling whether that
    same thread holds the lock already: [threading.Lock] is not re-entrant,
    so the thread then waits for ever ([None]). *)
Definition acquire (held : bool) : option unit := if held then None else Some tt.

(** The loop [for task_id in list(self.active_tasks.keys()):
    self.stop_task(task_id)], run by a thread for which [held] holds. *)
Fixpoint stop_each {A} `{DeviceAdapter A} (held : bool) (ids : list string)
         (self : t) (adapter : A) : option (t * A * list Event) :=
  match ids with
  | [] => Some (self, adapter, [])
  | task_id :: rest =>
      match acquire held with
      | None => None
      | Some _ =>
          let '(_, self', adapter', events) := stop_task self adapter task_id in
          match stop_each held rest self' adapter' with
          | Some (self'', adapter'', events') => Some (self'', adapter'', events ++ events')
          | None => None
          end
      end
  end.

(** [stop()], the lock being free when it is called: the result ([None]
    when the call never returns), and the manager, adapter and events as
    they are when it returns or is stuck.  The loop runs inside
    [with self.lock:]. *)
Definition stop {A} `{DeviceAdapter A} (self : t) (adapter : A)
  : option bool * t * A * list Event :=
  let lowered := with_running self false in
  match stop_each true (map fst (map_to_list (active_tasks self))) lowered adapter with
  | Some (self', adapter', events) => (Some true, self', adapter', events)
  | None => (None, lowered, adapter, [])
  end.

End TaskManager.

(** ** agent/core/memory_system.py *)

Module MemorySystem.

(** A long-term entry: the memory with its metadata. *)
Record Entry (Mem : Type) := {
  entry_data : Mem;
  entry_timestamp : Q;
  entry_importance : Z
}.
Arguments entry_data {Mem} _.
Arguments entry_timestamp {Mem} _.
Arguments entry_importance {Mem} _.

Record t (Mem : Type) := {
  short_term_capacity : Z;
  short_term : list Mem;
  long_term : list (string * Entry Mem)
}.
Arguments short_term_capacity {Mem} _.
Arguments short_term {Mem} _.
Arguments long_term {Mem} _.

(** [settings.SHORT_TERM_CAPACITY] *)
Definition SHORT_TERM_CAPACITY : Z := 1000.

(** [__init__] *)
Definition init {Mem} (capacity : option Z) : t Mem :=
  {| short_term_capacity := default SHORT_TERM_CAPACITY capacity;
     short_term := [];
     long_term := [] |}.

(** [_store_long_term(memory, importance)]: [memory_id] stands for
    [str(hash(str(memory)))] and [now] for the clock reading. *)
Definition _store_long_term {Mem} (memory_id : Mem -> string)
           (long : list (string * Entry Mem)) (memory : Mem) (importance : Z) (now : Q)
  : list (string * Entry Mem) :=
  dict_set (memory_id memory)
           {| entry_data := memory; entry_timestamp := now; entry_importance := importance |}
           long.

(** The loop [while len(self.short_term) > self.short_term_capacity]:
    whether it ends without [pop(0)] raising on an empty list, and the two
    stores afterwards.  [clock n] is the reading at the [n]-th eviction. *)
Fixpoint trim {Mem} (memory_id : Mem -> string) (capacity importance : Z) (clock : nat -> Q)
         (n : nat) (short : list Mem) (long : list (string * Entry Mem))
  : bool * list Mem * list (string * Entry Mem) :=
  match short with
  | [] => if 0 >? capacity then (false, [], long) else (true, [], long)
  | oldest :: rest =>
      if Z.of_nat (length short) >? capacity
      then trim memory_id capacity importance clock (S n) rest
                (_store_long_term memory_id long oldest importance (clock n))
      else (true, short, long)
  end.

(** [store_memory(memory, importance)] *)
Definition store_memory {Mem} (memory_id : Mem -> string) (clock : nat -> Q)
           (self : t Mem) (memory : Mem) (importance : Z) : bool * t Mem :=
  let '(ok, short, long) :=
    trim memory_id (short_term_capacity self) importance clock O
         (short_term self ++ [memory]) (long_term self) in
  (ok, {| short_term_capacity := short_term_capacity self;
          short_term := short; long_term := long |}).

(** [_matches_query(memory, query)] on dict memories; [equal] is the [==]
    of the values. *)
Definition _matches_query {V} (equal : V -> V -> bool)
           (memory query : list (string * V)) : bool :=
  forallb (fun item => match dict_get item.1 memory with
                       | Some value => equal value item.2
                       | None => false
                       end) query.

(** [retrieve_memory(query)]: the short-term list first, in list order,
    then the long-term entries. *)
Definition retrieve_memory {V} (equal : V -> V -> bool) (self : t (list (string * V)))
           (query : list (string * V)) : option (list (string * V)) :=
  match List.find (fun memory => _matches_query equal memory query) (short_term self) with
  | Some memory => Some memory
  | None =>
      entry_data <$>
        List.find (fun entry => _matches_query equal (entry_data entry) query)
                  (map snd (long_term self))
  end.

End MemorySystem.

(** ** agent/core/agent_core.py: inbound data *)

Module Inbound.

(** The dict handed to [handle_received_data]: the keys it reads. *)
Record Data := {
  data_type : option string;
  data_task : option Task;
  data_priority : option Z
}.

(** The record kept of every inbound message. *)
Record Memory := {
  memory_type : string;
  memory_sender_id : string;
  memory_data : Data;
  memory_timestamp : Q
}.

(** [task.update(task_analysis)]: the analysis always carries
    [required_capabilities], which replaces the task's own; its other keys
    are none the core reads. *)
Definition update (task : Task) (analysed : list string) : Task :=
  {| task_id := task_id task;
     description := description task;
     required_capabilities := Some analysed;
     required_resources := required_resources task;
     parameters := parameters task |}.

(** The record just stored is the very dict that holds [data], and the
    task inside it is the dict the analysis updates: the stored record
    changes with it, where it now lies, at the end of the short-term list
    or, when the capacity left no room for it, in the long-term store under
    the id it was given. *)
Definition refresh (memory_id : Memory -> string) (memory : MemorySystem.t Memory)
           (before after : Memory) : MemorySystem.t Memory :=
  match MemorySystem.short_term memory with
  | [] =>
      {| MemorySystem.short_term_capacity := MemorySystem.short_term_capacity memory;
         MemorySystem.short_term := [];
         MemorySystem.long_term :=
           map (fun item =>
                  if bool_decide (item.1 = memory_id before)
                  then (item.1,
                        {| MemorySystem.entry_data := after;
                           MemorySystem.entry_timestamp :=
                             MemorySystem.entry_timestamp item.2;
                           MemorySystem.entry_importance :=
                             MemorySystem.entry_importance item.2 |})
                  else item)
               (MemorySystem.long_term memory) |}
  | short =>
      {| MemorySystem.short_term_capacity := MemorySystem.short_term_capacity memory;
         MemorySystem.short_term := removelast short ++ [after];
         MemorySystem.long_term := MemorySystem.long_term memory |}
  end.

Definition with_task (data : Data) (task : Task) : Data :=
  {| data_type := data_type data; data_task := Some task;
     data_priority := data_priority data |}.

(** [handle_received_data(sender_id, data)], with the task manager and its
    lock as [sys].  [analyze] is what [llm.analyze_task] answers for a
    description: the capability list of its analysis, or [None].  A missing
    ['task'] raises [KeyError], which, like every exception, yields
    [False].  The result is that of [add_task] for a task message, and so
    [None] when that call never returns. *)
Definition handle_received_data {A}
           (memory_id : Memory -> string) (clock : nat -> Q) (now : Q)
           (analyze : string -> option (list string))
           (memory : MemorySystem.t Memory) (sys : TaskManager.System A)
           (sender_id : string) (data : Data)
  : option bool * MemorySystem.t Memory * TaskManager.System A * list TaskManager.Event :=
  let record := {| memory_type := "received_data"; memory_sender_id := sender_id;
                   memory_data := data; memory_timestamp := now |} in
  let memory' := (MemorySystem.store_memory memory_id clock memory record 1).2 in
  if bool_decide (data_type data = Some "task"%string)
  then
    match data_task data with
    | None => (Some false, memory', sys, [])
    | Some task =>
        match analyze (default EmptyString (description task)) with
        | Some analysed =>
            let task' := update task analysed in
            let record' := {| memory_type := "received_data"; memory_sender_id := sender_id;
                              memory_data := with_task data task';
                              memory_timestamp := now |} in
            let '(result, sys', events) :=
              TaskManager.call_add_task sys task' (default 0 (data_priority data)) in
            (result, refresh memory_id memory' record record', sys', events)
        | None =>
            let '(result, sys', events) :=
              TaskManager.call_add_task sys task (default 0 (data_priority data)) in
            (result, memory', sys', events)
        end
    end
  else (Some true, memory', sys, []).

End Inbound.

(** * Properties *)

(** ** The hash functions agree with the published test vectors *)

Example sha256_abc :
  Hashlib.hexlify (Hashlib.sha256 (Hashlib.encode "abc"))
  = "ba7816bf8f01cfea414140de5dae2223b00361a396177a9cb410ff61f20015ad"%string.
Proof. vm_compute. reflexivity. Qed.

Example sha256_two_blocks :
  Hashlib.hexlify (Hashlib.sha256
    (Hashlib.encode "abcdbcdecdefdefgefghfghighijhijkijkljklmklmnlmnomnopnopq"))
  = "248d6a61d20638b8e5c026930c3e6039a33ce45964ff2167f6ecedd419db06c1"%string.
Proof. vm_compute. reflexivity. Qed.

Example hmac_rfc4231_case2 :
  Hashlib.hexlify (Hashlib.hmac_sha256 (Hashlib.encode "Jefe")
                     (Hashlib.encode "what do ya want for nothing?"))
  = "5bdcc146bf60754e6a042426089575c75a003f089d2739839dec58b964ec3843"%string.
Proof. vm_compute. reflexivity. Qed.

Example hmac_long_key :
  Hashlib.hexlify (Hashlib.hmac_sha256 (repeat 107 100) (repeat 120 130))
  = "d849e93bb3ac1ff095b92b63718bafe2701ea803a8e68087e1262d1b245e6765"%string.
Proof. vm_compute. reflexivity. Qed.

(** ** Security envelope *)

Section Tokens.
Import Hashlib SecurityManager.

Lemma hex_digit_ascii (n : Z) :
  0 <= n < 16 -> (Z.of_nat (nat_of_ascii (hex_digit n)) <? 128) = true.
Proof.
  intros Hn.
  assert (Hk : (Z.to_nat n < 16)%nat) by lia.
  rewrite <- (Z2Nat.id n) by lia.
  generalize dependent (Z.to_nat n). clear Hn. intros k Hk.
  do 16 (destruct k as [| k]; [vm_compute; reflexivity |]).
  lia.
Qed.

Definition is_byte (b : Z) : Prop := 0 <= b < 256.

Lemma hexlify_ascii (bs : list Z) :
  Forall is_byte bs -> is_ascii (hexlify bs) = true.
Proof.
  unfold is_ascii.
  induction 1 as [| b bs Hb _ IH]; [reflexivity |].
  unfold is_byte in Hb. cbn [hexlify encode forallb].
  rewrite !hex_digit_ascii, IH; [reflexivity | |].
  - apply Z.mod_pos_bound. lia.
  - split; [apply Z.div_pos; lia | apply Z.div_lt_upper_bound; lia].
Qed.

Lemma bytes_of_word_bytes (w : Z) : Forall is_byte (bytes_of_word w).
Proof.
  unfold bytes_of_word, is_byte.
  repeat constructor; apply Z.mod_pos_bound; lia.
Qed.

Lemma sha256_bytes (msg : list Z) : Forall is_byte (sha256 msg).
Proof.
  unfold sha256.
  induction (absorb _ _ _) as [| w ws IH]; cbn [flat_map]; [constructor |].
  apply Forall_app. split; [apply bytes_of_word_bytes | exact IH].
Qed.

Lemma generate_token_ascii {D} `{HasId D} (self : t) (now : string) (d : D) :
  is_ascii (generate_token self now d) = true.
Proof. unfold generate_token, hmac_sha256. apply hexlify_ascii, sha256_bytes. Qed.

(** Verification compares the presented token with the token of the
    reading taken at verification. *)
Lemma verify_token_spec {D} `{HasId D} (self : t) (now : string) (token : string) (d : D) :
  verify_token self now token d
  = if is_ascii token then Some (bool_decide (token = generate_token self now d)) else None.
Proof.
  unfold verify_token, compare_digest.
  rewrite generate_token_ascii, andb_true_r. reflexivity.
Qed.

(** When the clock reads the same at both calls, the token verifies, and
    any other token is not accepted. *)
Lemma verify_token_same_reading {D} `{HasId D} (self : t) (now : string) (d : D) :
  verify_token self now (generate_token self now d) d = Some true
  /\ forall token, token <> generate_token self now d ->
                   verify_token self now token d <> Some true.
Proof.
  split.
  - rewrite verify_token_spec, generate_token_ascii.
    rewrite bool_decide_eq_true_2; reflexivity.
  - intros token Hne. rewrite verify_token_spec.
    destruct (is_ascii token); [| discriminate].
    rewrite bool_decide_eq_false_2; [discriminate | exact Hne].
Qed.

(** Across two readings, the token verifies exactly when both readings
    give the same digest. *)
Lemma verify_token_two_readings {D} `{HasId D} (self : t) (signed checked : string) (d : D) :
  verify_token self checked (generate_token self signed d) d
  = Some (bool_decide (generate_token self signed d = generate_token self checked d)).
Proof. rewrite verify_token_spec, generate_token_ascii. reflexivity. Qed.

End Tokens.

(** A manager keyed with the encoding of thirty-two zero bytes, and the
    data [{'id': 't1'}]. *)
Definition sample_security : SecurityManager.t :=
  {| SecurityManager.encryption_key :=
       Hashlib.encode "AAAAAAAAAAAAAAAAAAAAAAAAAAAAAAAAAAAAAAAAAAA=" |}.

Definition sample_data : Task :=
  {| task_id := Some "t1"%string; description := None; required_capabilities := None;
     required_resources := None; parameters := None |}.

Example generate_token_sample :
  SecurityManager.generate_token sample_security "1762166400.1234567" sample_data
  = "f1bb0af3c5e0d860e14eb958bfd57531d5f51a7e02e9d8736eaf69f318b82cbc"%string.
Proof. vm_compute. reflexivity. Qed.

(** C1 (the code at the failing input): a token signed at the clock reading
    1762166400.1234567 and verified at once, when the clock reads
    1762166400.1234572, is rejected, because [verify_token] signs the data
    again with the new reading. *)
Theorem verify_token_after_clock_advance :
  SecurityManager.verify_token sample_security "1762166400.1234572"
    (SecurityManager.generate_token sample_security "1762166400.1234567" sample_data)
    sample_data
  = Some false.
Proof. vm_compute. reflexivity. Qed.

(** ** Inbound path of the communication layer *)

Definition after_verification (call : CommunicationLayer.Inbound) : bool :=
  match call with
  | CommunicationLayer.Verified _ => false
  | _ => true
  end.

(** C8: [receive_data] checks the signature before anything else; unless
    the check answers true the result is failure and neither the cipher nor
    the inbound-data handler of the agent core is called; and whenever one
    of them is called, a successful check comes earlier in the same call. *)
Theorem receive_data_verifies_first
        (self : CommunicationLayer.t) (now : string)
        (decrypt : list Z -> option (list Z)) (handle : string -> list Z -> bool)
        (sender_id : string) (envelope : CommunicationLayer.Envelope) :
  let outcome := CommunicationLayer.receive_data self now decrypt handle sender_id envelope in
  let verdict token :=
    SecurityManager.verify_token (CommunicationLayer.security self) now token envelope in
  (forall token, CommunicationLayer.signature envelope = Some token ->
     exists rest, outcome.2 = CommunicationLayer.Verified (verdict token) :: rest
                  /\ (verdict token <> Some true ->
                      outcome.1 = false /\ rest = []))
  /\ (CommunicationLayer.signature envelope = None -> outcome = (false, []))
  /\ (forall before call later,
        outcome.2 = before ++ call :: later -> after_verification call = true ->
        In (CommunicationLayer.Verified (Some true)) before).
Proof.
  cbv zeta. unfold CommunicationLayer.receive_data.
  destruct (CommunicationLayer.signature envelope) as [token |] eqn:Hsig.
  2:{ split; [intros ? [=] |]. split; [reflexivity |].
      intros [| ? ?] call later Hlog; discriminate. }
  set (v := SecurityManager.verify_token _ _ _ _).
  assert (Honly :
    forall before call later,
      [CommunicationLayer.Verified v] = before ++ call :: later ->
      after_verification call = true ->
      In (CommunicationLayer.Verified (Some true)) before).
  { intros [| first [| ? ?]] call later Hlog Hcall; try discriminate.
    injection Hlog as <- _. discriminate. }
  split.
  - intros token' [= <-]. fold v.
    destruct v as [[|] |]; repeat case_match; eexists; (split; [reflexivity |]);
      intros Hv; try (split; reflexivity); exfalso; apply Hv; reflexivity.
  - split; [discriminate |].
    destruct v as [[|] |] eqn:Hv; try exact Honly.
Qed.

(** As the security manager defines no [decrypt_data], the path behind a
    successful check raises at once: the call always ends in failure. *)
Lemma receive_data_fails
      (self : CommunicationLayer.t) (now : string)
      (decrypt : list Z -> option (list Z)) (handle : string -> list Z -> bool)
      (sender_id : string) (envelope : CommunicationLayer.Envelope) :
  (CommunicationLayer.receive_data self now decrypt handle sender_id envelope).1 = false.
Proof.
  unfold CommunicationLayer.receive_data.
  replace (SecurityManager.has_attribute "decrypt_data") with false by (vm_compute; reflexivity).
  repeat case_match; reflexivity.
Qed.

(** ** Task manager: queues *)

Section Queues.
Import TaskManager.

Definition queue_at (p : nat) (queues : list (list Task)) : list Task :=
  default [] (queues !! p).

(** The scan returns the head of the lowest-indexed non-empty queue. *)
Lemma select_from_Some (k : nat) (queues : list (list Task)) (p : nat) (task : Task) :
  select_from k queues = Some (p, task) <->
  exists i rest, p = (k + i)%nat /\ queues !! i = Some (task :: rest)
                 /\ forall j, (j < i)%nat -> queues !! j = Some [].
Proof.
  revert k. induction queues as [| q queues IH]; intros k; cbn [select_from].
  - split; [discriminate |]. intros (i & rest & _ & Hi & _). discriminate.
  - destruct q as [| head q].
    + rewrite IH. split.
      * intros (i & rest & -> & Hi & Hlow). exists (S i), rest.
        split; [lia |]. split; [exact Hi |].
        intros [| j] Hj; [reflexivity |]. apply Hlow. lia.
      * intros (i & rest & -> & Hi & Hlow). destruct i as [| i]; [discriminate |].
        exists i, rest. split; [lia |]. split; [exact Hi |].
        intros j Hj. apply (Hlow (S j)). lia.
    + split.
      * intros [= <- <-]. exists O, q. split; [lia |]. split; [reflexivity |]. lia.
      * intros (i & rest & -> & Hi & Hlow). destruct i as [| i].
        -- injection Hi as <- _. f_equal. f_equal. lia.
        -- specialize (Hlow O ltac:(lia)). discriminate.
Qed.

Lemma select_from_None (k : nat) (queues : list (list Task)) :
  select_from k queues = None <-> Forall (fun q => q = []) queues.
Proof.
  revert k. induction queues as [| q queues IH]; intros k; cbn [select_from].
  - split; [constructor | reflexivity].
  - destruct q as [| head q].
    + rewrite IH. split; [intros; constructor; auto | intros Hall; inversion Hall; auto].
    + split; [discriminate | intros Hall; inversion Hall; discriminate].
Qed.

Lemma select_task_head (self : t) (p : nat) (task : Task) :
  select_task self = Some (p, task) <->
  (exists rest, task_queues self !! p = Some (task :: rest))
  /\ forall j, (j < p)%nat -> task_queues self !! j = Some [].
Proof.
  unfold select_task. rewrite select_from_Some. split.
  - intros (i & rest & -> & Hi & Hlow). split; [exists rest; exact Hi | exact Hlow].
  - intros [[rest Hi] Hlow]. exists p, rest. split; [reflexivity | split; assumption].
Qed.

Lemma select_task_pop (self : t) (p : nat) (task : Task) :
  select_task self = Some (p, task) ->
  exists rest, task_queues self !! p = Some (task :: rest)
               /\ pop_head p (task_queues self) = Some (task, <[p := rest]> (task_queues self)).
Proof.
  rewrite select_task_head. intros [[rest Hp] _]. exists rest.
  split; [exact Hp |]. unfold pop_head. rewrite Hp. reflexivity.
Qed.

Lemma pop_head_Some (p : nat) (queues queues' : list (list Task)) (head : Task) :
  pop_head p queues = Some (head, queues') <->
  exists rest, queues !! p = Some (head :: rest) /\ queues' = <[p := rest]> queues.
Proof.
  unfold pop_head. destruct (queues !! p) as [[| h q] |] eqn:Hp.
  - split; [discriminate | intros (rest & [=] & _)].
  - split.
    + intros [= <- <-]. exists q. split; reflexivity.
    + intros (rest & [= <- <-] & ->). reflexivity.
  - split; [discriminate | intros (rest & [=] & _)].
Qed.

Lemma queue_at_insert (p i : nat) (q : list Task) (queues : list (list Task)) :
  (p < length queues)%nat ->
  queue_at i (<[p := q]> queues) = if bool_decide (i = p) then q else queue_at i queues.
Proof.
  intros Hp. unfold queue_at. case_bool_decide as Hi.
  - subst i. rewrite list_lookup_insert_eq; [reflexivity | exact Hp].
  - rewrite list_lookup_insert_ne; [reflexivity | congruence].
Qed.

Lemma concat_insert_length (p : nat) (head : Task) (rest : list Task)
      (queues : list (list Task)) :
  queues !! p = Some (head :: rest) ->
  length (concat queues) = S (length (concat (<[p := rest]> queues))).
Proof.
  revert p. induction queues as [| q queues IH]; intros [| p] Hp; try discriminate.
  - injection Hp as ->. cbn. reflexivity.
  - change (queues !! p = Some (head :: rest)) in Hp.
    change (<[S p := rest]> (q :: queues)) with (q :: <[p := rest]> queues).
    cbn [concat]. rewrite !length_app, (IH p Hp). lia.
Qed.

End Queues.


(** ** Task manager: the shape of one pass and of one migration attempt *)

Definition is_send (event : TaskManager.Event) : bool :=
  match event with
  | TaskManager.Sent _ _ _ => true
  | _ => false
  end.

Section Passes.
Import TaskManager.
Context {A : Type} `{DeviceAdapter A}.

(** What the migration loop can do: send offers, and after the one that
    succeeds pop the head of the queue. *)
Lemma migrate_loop_cases (comm : CommunicationLayer.t) (task : Task) (p : nat)
      (queues : list (list Task)) (devices : list (string * DeviceInfo)) :
  exists sends, forallb is_send sends = true /\
    let outcome := migrate_loop comm task p queues devices in
    (outcome = (Some queues, sends))
    \/ (exists head rest, queues !! p = Some (head :: rest)
                          /\ outcome = (Some (<[p := rest]> queues), sends ++ [Popped p head]))
    \/ (pop_head p queues = None /\ outcome = (None, sends)).
Proof.
  induction devices as [| [device_id device_info] devices IH]; cbn [migrate_loop].
  - exists []. split; [reflexivity |]. left. reflexivity.
  - destruct (eligible device_info task); [| exact IH].
    destruct (CommunicationLayer.send_data comm device_id (task_offer task p) None).
    + exists [Sent device_id (task_offer task p) true]. split; [reflexivity |].
      destruct (pop_head p queues) as [[head queues'] |] eqn:Hpop.
      * apply pop_head_Some in Hpop as (rest & Hp & ->).
        right. left. exists head, rest. split; [exact Hp | reflexivity].
      * right. right. split; reflexivity.
    + destruct IH as (sends & Hsends & IH).
      exists (Sent device_id (task_offer task p) false :: sends).
      split; [exact Hsends |]. cbv zeta in IH |- *.
      destruct IH as [-> | [(head & rest & Hp & ->) | [Hpop ->]]].
      * left. reflexivity.
      * right. left. exists head, rest. split; [exact Hp | reflexivity].
      * right. right. split; [exact Hpop | reflexivity].
Qed.

Lemma try_migrate_cases (self : t) (comm : CommunicationLayer.t) (task : Task) (p : nat) :
  exists sends, forallb is_send sends = true /\
    let outcome := _try_migrate_task self comm task p in
    (outcome = (Some self, MigrationTried task p :: sends))
    \/ (exists head rest,
          task_queues self !! p = Some (head :: rest)
          /\ outcome = (Some (with_queues self (<[p := rest]> (task_queues self))),
                        MigrationTried task p :: sends ++ [Popped p head]))
    \/ (outcome = (None, MigrationTried task p :: sends)).
Proof.
  unfold _try_migrate_task.
  destruct (migrate_loop_cases comm task p (task_queues self)
              (CommunicationLayer.get_available_devices comm)) as (sends & Hsends & Hcases).
  exists sends. split; [exact Hsends |]. cbv zeta in Hcases |- *.
  destruct Hcases as [-> | [(head & rest & Hp & ->) | [_ ->]]].
  - left. destruct self; reflexivity.
  - right. left. exists head, rest. split; [exact Hp | reflexivity].
  - right. right. reflexivity.
Qed.

(** The three ways a pass can go: nothing to do, a dispatch, a migration
    attempt. *)
Inductive PassShape (comm : CommunicationLayer.t) (self : t) (adapter : A)
  : Flow -> t -> A -> list Event -> Prop :=
| pass_idle : PassShape comm self adapter Break self adapter []
| pass_dispatch (p : nat) (task : Task) (rest : list Task) (a1 a2 : A) (ok : bool)
                (flow : Flow) (self' : t) :
    Z.of_nat (size (active_tasks self)) < max_concurrent self ->
    select_task self = Some (p, task) ->
    task_queues self !! p = Some (task :: rest) ->
    can_execute_task adapter task = (true, a1) ->
    execute_task a1 task = (ok, a2) ->
    (let popped := with_queues self (<[p := rest]> (task_queues self)) in
     if ok
     then match task_id task with
          | Some key => flow = Continue
                        /\ self' = with_active popped (<[key := task]> (active_tasks self))
          | None => flow = Break /\ self' = popped
          end
     else flow = Continue /\ self' = popped) ->
    PassShape comm self adapter flow self' a2
              [AskedCanExecute task true; Popped p task; Executed task ok]
| pass_migrate (p : nat) (task : Task) (a1 : A) (result : option t) (events : list Event) :
    select_task self = Some (p, task) ->
    can_execute_task adapter task = (false, a1) ->
    _try_migrate_task self comm task p = (result, events) ->
    PassShape comm self adapter Break (default self result) a1
              (AskedCanExecute task false :: events).

Lemma loop_pass_shape (comm : CommunicationLayer.t) (self : t) (adapter : A) :
  let '(flow, self', adapter', events) := loop_pass comm self adapter in
  PassShape comm self adapter flow self' adapter' events.
Proof.
  unfold loop_pass.
  destruct (Z.ltb_spec (Z.of_nat (size (active_tasks self))) (max_concurrent self)) as [Hfree |];
    [| constructor].
  destruct (select_task self) as [[p task] |] eqn:Hsel; [| constructor].
  destruct (task_truthy task); [| constructor].
  destruct (can_execute_task adapter task) as [[|] a1] eqn:Hcan.
  - destruct (select_task_pop self p task Hsel) as (rest & Hp & ->).
    destruct (execute_task a1 task) as [ok a2] eqn:Hexec.
    destruct ok.
    + destruct (task_id task) as [key |] eqn:Hid;
        (eapply pass_dispatch; eauto; cbv zeta; rewrite Hid; split; reflexivity).
    + eapply pass_dispatch; eauto; cbv zeta; split; reflexivity.
  - destruct (_try_migrate_task self comm task p) as [result events] eqn:Hmig.
    eapply pass_migrate; eauto.
Qed.

End Passes.

(** ** Task manager: from one pass to whole executions *)

Section Executions.
Import TaskManager.
Context {A : Type} `{DeviceAdapter A}.

Lemma pass_continue_shrinks (comm : CommunicationLayer.t) (self self' : t) (a a' : A)
      (events : list Event) :
  PassShape comm self a Continue self' a' events -> (queued self' < queued self)%nat.
Proof.
  inversion 1 as [| p task rest a1 a2 ok flow s' _ _ Hp _ _ Hnext |]; subst.
  unfold queued. rewrite (concat_insert_length p task rest _ Hp).
  cbv zeta in Hnext.
  destruct ok; [destruct (task_id task) |]; destruct Hnext as [_ ->]; cbn; lia.
Qed.

(** The inner loop ends within as many passes as there are queued tasks,
    plus one. *)
Lemma inner_loop_terminates (comm : CommunicationLayer.t) (fuel : nat) (self : t) (a : A) :
  (queued self < fuel)%nat -> is_Some (inner_loop fuel comm self a).
Proof.
  revert self a. induction fuel as [| fuel IH]; intros self a Hfuel; [lia |].
  cbn [inner_loop].
  pose proof (loop_pass_shape comm self a) as Hshape.
  destruct (loop_pass comm self a) as [[[flow self'] a'] events].
  destruct flow; [| eexists; reflexivity].
  apply pass_continue_shrinks in Hshape.
  destruct (IH self' a' ltac:(lia)) as [[[s'' a''] ev'] ->].
  eexists; reflexivity.
Qed.

Lemma scheduler_body_runs (comm : CommunicationLayer.t) (self : t) (a : A) :
  inner_loop (S (queued self)) comm self a = Some (scheduler_body comm self a).
Proof.
  unfold scheduler_body.
  destruct (inner_loop_terminates comm (S (queued self)) self a ltac:(lia)) as [r ->].
  reflexivity.
Qed.

(** More fuel does not change the outcome. *)
Lemma inner_loop_fuel (comm : CommunicationLayer.t) (fuel extra : nat) (self : t) (a : A)
      (r : t * A * list Event) :
  inner_loop fuel comm self a = Some r -> inner_loop (fuel + extra) comm self a = Some r.
Proof.
  revert self a r. induction fuel as [| fuel IH]; intros self a r; [discriminate |].
  cbn [inner_loop Nat.add].
  destruct (loop_pass comm self a) as [[[flow self'] a'] events].
  destruct flow; [| auto].
  destruct (inner_loop fuel comm self' a') as [[[s'' a''] ev'] |] eqn:Hrec; [| discriminate].
  rewrite (IH _ _ _ Hrec). auto.
Qed.

(** A relation between the manager and adapter before, the events, and the
    manager and adapter after, that holds of nothing happening, composes, and
    holds of every pass and of every method, holds of every execution. *)
Section Closure.
Variable R : t -> A -> list Event -> t -> A -> Prop.
Hypothesis R_none : forall s a, R s a [] s a.
Hypothesis R_then : forall s1 a1 e1 s2 a2 e2 s3 a3,
    R s1 a1 e1 s2 a2 -> R s2 a2 e2 s3 a3 -> R s1 a1 (e1 ++ e2) s3 a3.
Hypothesis R_pass : forall comm s a flow s' a' events,
    PassShape comm s a flow s' a' events -> R s a events s' a'.
Hypothesis R_add_task : forall s a task priority,
    R s a (add_task s task priority).2 (add_task s task priority).1.2 a.
Hypothesis R_stop_task : forall s a task_id,
    let '(_, s', a', events) := stop_task s a task_id in R s a events s' a'.
Hypothesis R_running : forall s a flag, R s a [] (with_running s flag) a.

Lemma inner_loop_closed (comm : CommunicationLayer.t) (fuel : nat) (s : t) (a : A)
      (s' : t) (a' : A) (events : list Event) :
  inner_loop fuel comm s a = Some (s', a', events) -> R s a events s' a'.
Proof.
  revert s a s' a' events. induction fuel as [| fuel IH]; intros s a s' a' events; [discriminate |].
  cbn [inner_loop].
  pose proof (loop_pass_shape comm s a) as Hshape.
  destruct (loop_pass comm s a) as [[[flow s1] a1] e1].
  apply R_pass in Hshape.
  destruct flow.
  - destruct (inner_loop fuel comm s1 a1) as [[[s2 a2] e2] |] eqn:Hrec; [| discriminate].
    intros [= <- <- <-]. eapply R_then; [exact Hshape | apply IH; exact Hrec].
  - intros [= <- <- <-]. exact Hshape.
Qed.

Lemma scheduler_body_closed (comm : CommunicationLayer.t) (s : t) (a : A) :
  let '(s', a', events) := scheduler_body comm s a in R s a events s' a'.
Proof.
  pose proof (scheduler_body_runs comm s a) as Hrun.
  destruct (scheduler_body comm s a) as [[s' a'] events].
  eapply inner_loop_closed; exact Hrun.
Qed.

Lemma step_closed (sys : System A) (op : Op) :
  R (manager sys) (adapter sys) (step sys op).2
    (manager (step sys op).1) (adapter (step sys op).1).
Proof.
  destruct op as [| | task priority | task_id | comm]; cbn [step].
  - apply R_running.
  - apply R_running.
  - destruct (lock_held sys); [apply R_none |].
    pose proof (R_add_task (manager sys) (adapter sys) task priority) as Hadd.
    destruct (add_task (manager sys) task priority) as [[result s'] events]. exact Hadd.
  - destruct (lock_held sys); [apply R_none |].
    pose proof (R_stop_task (manager sys) (adapter sys) task_id) as Hstop.
    destruct (stop_task (manager sys) (adapter sys) task_id) as [[[result s'] a'] events].
    exact Hstop.
  - destruct (lock_held sys || negb (running (manager sys))); [apply R_none |].
    pose proof (scheduler_body_closed comm (manager sys) (adapter sys)) as Hbody.
    destruct (scheduler_body comm (manager sys) (adapter sys)) as [[s' a'] events].
    exact Hbody.
Qed.

Lemma run_closed (sys : System A) (ops : list Op) :
  R (manager sys) (adapter sys) (run sys ops).2
    (manager (run sys ops).1) (adapter (run sys ops).1).
Proof.
  revert sys. induction ops as [| op ops IH]; intros sys; cbn [run].
  - apply R_none.
  - pose proof (step_closed sys op) as Hstep.
    destruct (step sys op) as [sys1 e1].
    pose proof (IH sys1) as Hrest.
    destruct (run sys1 ops) as [sys2 e2].
    eapply R_then; [exact Hstep | exact Hrest].
Qed.

End Closure.

End Executions.

(** ** Task manager: what stays fixed, and the bound on the active table *)

Definition bounded (self : TaskManager.t) : Prop :=
  Z.of_nat (size (TaskManager.active_tasks self)) <= TaskManager.max_concurrent self.

(** The queue list has one queue per configured priority level. *)
Definition well_formed (self : TaskManager.t) : Prop :=
  length (TaskManager.task_queues self) = Z.to_nat (TaskManager.priority_levels self).

Definition steady (s s' : TaskManager.t) : Prop :=
  TaskManager.max_concurrent s' = TaskManager.max_concurrent s
  /\ TaskManager.priority_levels s' = TaskManager.priority_levels s
  /\ length (TaskManager.task_queues s') = length (TaskManager.task_queues s)
  /\ (bounded s -> bounded s').

Section Invariants.
Import TaskManager.
Context {A : Type} `{DeviceAdapter A}.

(** The state after a pass: unchanged, or one queue without its head and
    possibly, a slot being free, one more entry in the active table. *)
Lemma pass_state (comm : CommunicationLayer.t) (s s' : t) (a a' : A) (flow : Flow)
      (events : list Event) :
  PassShape comm s a flow s' a' events ->
  s' = s
  \/ exists p head rest,
      task_queues s !! p = Some (head :: rest)
      /\ let popped := with_queues s (<[p := rest]> (task_queues s)) in
         s' = popped
         \/ exists key task,
             Z.of_nat (size (active_tasks s)) < max_concurrent s
             /\ s' = with_active popped (<[key := task]> (active_tasks s)).
Proof.
  inversion 1 as [| p task rest a1 a2 ok flow' s1 Hfree _ Hp _ _ Hnext
                  | p task a1 result mevents _ _ Hmig]; subst.
  - left. reflexivity.
  - right. exists p, task, rest. split; [exact Hp |]. cbv zeta in Hnext |- *.
    destruct ok; [destruct (task_id task) as [key |] |]; destruct Hnext as [_ ->].
    + right. exists key, task. split; [exact Hfree | reflexivity].
    + left. reflexivity.
    + left. reflexivity.
  - destruct (try_migrate_cases s comm task p) as (sends & _ & Hcases).
    cbv zeta in Hcases. rewrite Hmig in Hcases.
    destruct Hcases as [[= -> _] | [(head & rest & Hp & [= -> _]) | [= -> _]]].
    + left. reflexivity.
    + right. exists p, head, rest. split; [exact Hp |]. left. reflexivity.
    + left. reflexivity.
Qed.

Lemma steady_refl (s : t) : steady s s.
Proof. unfold steady. auto. Qed.

Lemma steady_trans (s1 s2 s3 : t) : steady s1 s2 -> steady s2 s3 -> steady s1 s3.
Proof.
  unfold steady. intros (Hm & Hl & Hq & Hb) (Hm' & Hl' & Hq' & Hb').
  repeat split; [congruence | congruence | congruence | auto].
Qed.

Lemma pass_steady (comm : CommunicationLayer.t) (s s' : t) (a a' : A) (flow : Flow)
      (events : list Event) :
  PassShape comm s a flow s' a' events -> steady s s'.
Proof.
  intros Hshape. apply pass_state in Hshape.
  destruct Hshape as [-> | (p & head & rest & Hp & Hs')]; [apply steady_refl |].
  cbv zeta in Hs'. destruct Hs' as [-> | (key & task & Hfree & ->)]; unfold steady, bounded; cbn.
  - rewrite length_insert. auto.
  - rewrite length_insert. repeat split; try reflexivity. intros _.
    rewrite map_size_insert. destruct (active_tasks s !! key); cbn; lia.
Qed.

Lemma add_task_steady (s : t) (task : Task) (priority : Z) :
  steady s (add_task s task priority).1.2.
Proof.
  unfold add_task.
  destruct ((priority <? 0) || (priority >=? priority_levels s)); [apply steady_refl |].
  destruct (task_queues s !! Z.to_nat priority); [| apply steady_refl].
  unfold steady, bounded; cbn. rewrite length_insert. auto.
Qed.

Lemma stop_task_steady (s : t) (a : A) (task_id : string) :
  steady s (stop_task s a task_id).1.1.2.
Proof.
  unfold stop_task.
  destruct (active_tasks s !! task_id) eqn:Hactive; [| apply steady_refl].
  destruct (adapter_stop_task a task_id) as [[|] a']; [| apply steady_refl].
  unfold steady, bounded; cbn. repeat split; try reflexivity.
  rewrite map_size_delete, Hactive. cbn. lia.
Qed.

(** Every execution keeps the configuration and the number of queues, and
    keeps the active table within the bound once it is within it. *)
Lemma run_steady (sys : System A) (ops : list Op) :
  steady (manager sys) (manager (run sys ops).1).
Proof.
  apply (run_closed (fun s _ _ s' _ => steady s s')).
  - intros. apply steady_refl.
  - intros. eapply steady_trans; eassumption.
  - intros. eapply pass_steady; eassumption.
  - intros. apply add_task_steady.
  - intros s a task_id. pose proof (stop_task_steady s a task_id) as Hstop.
    destruct (stop_task s a task_id) as [[[result s'] a'] events]. exact Hstop.
  - intros. unfold steady, bounded. cbn. auto.
Qed.

Lemma init_well_formed (config : Config) : well_formed (init config).
Proof. unfold well_formed, init. cbn. apply length_replicate. Qed.

Lemma run_well_formed (sys : System A) (ops : list Op) :
  well_formed (manager sys) -> well_formed (manager (run sys ops).1).
Proof.
  unfold well_formed. intros Hwf.
  destruct (run_steady sys ops) as (_ & Hlevels & Hlen & _). congruence.
Qed.

End Invariants.

(** ** Sample objects *)

(** A desktop without a camera, at a constant load. *)
Definition sample_desktop : DesktopAdapter.t :=
  {| DesktopAdapter.capabilities :=
       {[ "type"%string := CapText "desktop"; "has_wifi"%string := CapBool true;
          "has_camera"%string := CapBool false ]};
     DesktopAdapter.usage := fun _ =>
       {| DesktopAdapter.cpu_percent := DesktopAdapter.float_of_int 25;
          DesktopAdapter.memory_percent := DesktopAdapter.float_of_int 40;
          DesktopAdapter.disk_percent := DesktopAdapter.float_of_int 50 |};
     DesktopAdapter.reads := O |}.

Definition plain_task (name : string) : Task :=
  {| task_id := Some name; description := None; required_capabilities := Some [];
     required_resources := None; parameters := None |}.

Definition camera_task (name : string) : Task :=
  {| task_id := Some name; description := None;
     required_capabilities := Some ["has_camera"%string];
     required_resources := None; parameters := None |}.

Definition camera_device : DeviceInfo :=
  {| capabilities := Some [("has_camera"%string, CapBool true)];
     protocol := Some "wifi"%string; last_seen := Some (inject_Z 100) |}.

(** A layer with one transport, on which only the peer named [reachable]
    can be reached, and a directory of two camera devices. *)
Definition sample_layer (reachable : string) : CommunicationLayer.t :=
  {| CommunicationLayer.agent_core := AgentCore.repository;
     CommunicationLayer.security := sample_security;
     CommunicationLayer.protocol_handlers :=
       [("wifi"%string,
         {| CommunicationLayer.handler_send_data :=
              fun target _ => bool_decide (target = reachable);
            CommunicationLayer.discover_devices := None |})];
     CommunicationLayer.discovery_interval := inject_Z 30;
     CommunicationLayer.available_devices :=
       [("D1"%string, camera_device); ("D2"%string, camera_device)];
     CommunicationLayer.device_status := ∅ |}.

Definition config_of (limit levels : Z) : TaskManager.Config :=
  {| TaskManager.config_max_concurrent := Some limit;
     TaskManager.config_priority_levels := Some levels |}.

(** ** Task manager: the claims about single operations *)

Section Operations.
Import TaskManager.
Context {A : Type} `{DeviceAdapter A}.

(** The methods as a caller meets them are the steps of an execution. *)
Lemma call_add_task_step (sys : System A) (task : Task) (priority : Z) :
  step sys (AddTask task priority)
  = ((call_add_task sys task priority).1.2, (call_add_task sys task priority).2).
Proof.
  destruct sys as [self a held]. unfold call_add_task, step, add_task. cbn.
  destruct ((priority <? 0) || (priority >=? priority_levels self)), held; cbn;
    try reflexivity.
  destruct (task_queues self !! Z.to_nat priority); reflexivity.
Qed.

Lemma call_stop_task_step (sys : System A) (task_id : string) :
  step sys (StopTask task_id)
  = ((call_stop_task sys task_id).1.2, (call_stop_task sys task_id).2).
Proof.
  destruct sys as [self a held]. unfold call_stop_task, step. cbn.
  destruct held; [reflexivity |].
  destruct (stop_task self a task_id) as [[[result self'] a'] events]. reflexivity.
Qed.

(** While the lock is held for ever a call with a valid priority never
    returns, and a call with an invalid one is answered [False]; neither
    changes anything. *)
Lemma call_add_task_held (sys : System A) (task : Task) (priority : Z) :
  lock_held sys = true ->
  call_add_task sys task priority
  = (if (priority <? 0) || (priority >=? priority_levels (manager sys))
     then Some false else None, sys, []).
Proof.
  intros Hheld. unfold call_add_task. rewrite Hheld.
  destruct ((priority <? 0) || (priority >=? priority_levels (manager sys))); reflexivity.
Qed.

(** While the flag is down the iterations of the scheduler loop do
    nothing. *)
Lemma run_stopped (sys : System A) (comms : list CommunicationLayer.t) :
  running (manager sys) = false -> run sys (map SchedulerIteration comms) = (sys, []).
Proof.
  intros Hdown. induction comms as [| comm comms IH]; [reflexivity |].
  cbn [map run step]. rewrite Hdown, orb_true_r, IH. reflexivity.
Qed.

(** C10: cancelling is all or nothing.  A call of [stop_task] made while
    the lock is free returns, and leaves the lock free.  For an id in the
    active table the result is the answer of the backend; when the backend
    fails the manager is unchanged and the entry remains; the entry is gone
    exactly when the backend succeeds, and then nothing else changes; for
    an id not in the table the result is failure, nothing changes and the
    backend is not asked. *)
Theorem stop_task_atomic (sys : System A) (task_id : string) :
  lock_held sys = false ->
  let '(result, sys', events) := call_stop_task sys task_id in
  let backend_ok := (adapter_stop_task (adapter sys) task_id).1 in
  step sys (StopTask task_id) = (sys', events)
  /\ lock_held sys' = false
  /\ (forall task, active_tasks (manager sys) !! task_id = Some task ->
        result = Some backend_ok
        /\ (backend_ok = false -> manager sys' = manager sys)
        /\ (active_tasks (manager sys') !! task_id = None <-> backend_ok = true)
        /\ (forall other, other <> task_id ->
              active_tasks (manager sys') !! other = active_tasks (manager sys) !! other)
        /\ task_queues (manager sys') = task_queues (manager sys)
        /\ events = [AskedStop task_id backend_ok])
  /\ (active_tasks (manager sys) !! task_id = None ->
      result = Some false /\ sys' = sys /\ events = []).
Proof.
  intros Hfree. pose proof (call_stop_task_step sys task_id) as Hstep.
  destruct sys as [self a held]. cbn in Hfree. subst held.
  unfold call_stop_task, stop_task in *. cbn [lock_held manager adapter] in *.
  destruct (active_tasks self !! task_id) as [found |] eqn:Hactive.
  - destruct (adapter_stop_task a task_id) as [[|] a'] eqn:Hstop;
      cbv beta iota zeta in Hstep |- *; unfold with_active;
      cbn [fst snd active_tasks task_queues manager lock_held] in Hstep |- *.
    + split; [exact Hstep |]. split; [reflexivity |]. split; [| discriminate].
      intros task _. repeat split; try reflexivity; try discriminate.
      * intros _. apply lookup_delete_eq.
      * intros other Hother. apply lookup_delete_ne. congruence.
    + split; [exact Hstep |]. split; [reflexivity |]. split; [| discriminate].
      intros task _. repeat split; try reflexivity; try discriminate.
      rewrite Hactive. discriminate.
  - cbv beta iota zeta in Hstep |- *. split; [exact Hstep |]. split; [reflexivity |].
    split; [discriminate |]. intros _. repeat split; reflexivity.
Qed.

(** C5: on a manager constructed with [priority_levels = N], after any
    operations that leave the lock free, a call of [add_task] returns, and
    it returns [True] exactly when [0 <= priority < N]; on success the task
    is the new last element of queue [priority] and every other queue, the
    number of queues and the active table are as before; on failure the
    result is [False] and nothing has changed. *)
Theorem add_task_valid_priorities (config : Config) (adapter : A) (ops : list Op)
        (task : Task) (priority : Z) :
  let sys := (run (boot config adapter) ops).1 in
  let N := default PRIORITY_LEVELS (config_priority_levels config) in
  lock_held sys = false ->
  let '(result, sys', events) := call_add_task sys task priority in
  step sys (AddTask task priority) = (sys', events)
  /\ (result = Some true <-> 0 <= priority < N)
  /\ (result = Some false <-> ~ 0 <= priority < N)
  /\ (result = Some true ->
      queue_at (Z.to_nat priority) (task_queues (manager sys'))
      = queue_at (Z.to_nat priority) (task_queues (manager sys)) ++ [task]
      /\ (forall p, p <> Z.to_nat priority ->
            queue_at p (task_queues (manager sys'))
            = queue_at p (task_queues (manager sys)))
      /\ length (task_queues (manager sys')) = length (task_queues (manager sys))
      /\ active_tasks (manager sys') = active_tasks (manager sys)
      /\ events = [Appended (Z.to_nat priority) task])
  /\ (result = Some false -> sys' = sys /\ events = []).
Proof.
  cbv zeta.
  set (sys := (run (boot config adapter) ops).1).
  assert (Hwf : well_formed (manager sys))
    by (apply run_well_formed, init_well_formed).
  assert (Hlevels : priority_levels (manager sys)
                    = default PRIORITY_LEVELS (config_priority_levels config))
    by (destruct (run_steady (boot config adapter) ops) as (_ & Hsame & _);
        subst sys; rewrite Hsame; reflexivity).
  intros Hfree. pose proof (call_add_task_step sys task priority) as Hstep.
  unfold well_formed in Hwf. rewrite Hlevels in Hwf.
  unfold call_add_task, add_task in *. rewrite Hlevels, Hfree in *.
  set (N := default PRIORITY_LEVELS (config_priority_levels config)) in *.
  destruct (Z.ltb_spec priority 0) as [Hneg | Hpos]; cbn [orb] in Hstep |- *.
  { split; [exact Hstep |]. split; [split; [discriminate | lia] |].
    split; [split; [lia | reflexivity] |]. split; [discriminate |]. auto. }
  destruct (Z.geb_spec priority N) as [Hge | Hlt].
  { split; [exact Hstep |]. split; [split; [discriminate | lia] |].
    split; [split; [lia | reflexivity] |]. split; [discriminate |]. auto. }
  destruct (lookup_lt_is_Some_2 (task_queues (manager sys)) (Z.to_nat priority)
              ltac:(lia)) as [queue Hqueue].
  rewrite Hqueue in *. cbn in Hstep |- *.
  split; [exact Hstep |]. split; [split; [lia | reflexivity] |].
  split; [split; [discriminate | lia] |]. split; [| discriminate]. intros _.
  pose proof (lookup_lt_Some _ _ _ Hqueue) as Hrange.
  repeat split.
  - rewrite queue_at_insert by exact Hrange.
    rewrite bool_decide_eq_true_2 by reflexivity.
    unfold queue_at. rewrite Hqueue. reflexivity.
  - intros p Hp. rewrite queue_at_insert by exact Hrange.
    rewrite bool_decide_eq_false_2 by exact Hp. reflexivity.
  - apply length_insert.
Qed.

(** The system with the flag of its manager set to [flag]. *)
Definition flagged (sys : System A) (flag : bool) : System A :=
  {| manager := with_running (manager sys) flag; adapter := adapter sys;
     lock_held := lock_held sys |}.

(** C6 (as the code has it): [add_task] does not look at the running flag.
    On a stopped manager whose lock is free, as it is before the first
    [start()] and after a [stop()] that found no active task, a call with a
    valid priority appends the task to its queue and returns [True], as it
    does on a running manager; the task then stays queued while the flag is
    down.  Only on a manager whose [stop()] found an active task, and so
    holds the lock for ever, has the call no effect: it never returns. *)
Theorem add_task_ignores_running (sys : System A) (task : Task) (priority : Z)
        (comms : list CommunicationLayer.t) :
  running (manager sys) = false ->
  well_formed (manager sys) ->
  0 <= priority < priority_levels (manager sys) ->
  let '(result, sys', events) := call_add_task sys task priority in
  step sys (AddTask task priority) = (sys', events)
  /\ (lock_held sys = false ->
      result = Some true
      /\ queue_at (Z.to_nat priority) (task_queues (manager sys'))
         = queue_at (Z.to_nat priority) (task_queues (manager sys)) ++ [task]
      /\ events = [Appended (Z.to_nat priority) task]
      /\ running (manager sys') = false
      /\ run sys' (map SchedulerIteration comms) = (sys', []))
  /\ (lock_held sys = true -> result = None /\ sys' = sys /\ events = [])
  /\ (forall flag,
        let '(result_flag, sys_flag, events_flag) :=
          call_add_task (flagged sys flag) task priority in
        result_flag = result /\ events_flag = events /\ sys_flag = flagged sys' flag).
Proof.
  intros Hdown Hwf Hrange. pose proof (call_add_task_step sys task priority) as Hstep.
  unfold well_formed in Hwf. unfold call_add_task, add_task, flagged in *.
  cbn [manager adapter lock_held priority_levels task_queues with_running].
  destruct (Z.ltb_spec priority 0); [lia |].
  destruct (Z.geb_spec priority (priority_levels (manager sys))); [lia |].
  cbn [orb] in Hstep |- *.
  destruct (lock_held sys) eqn:Hheld.
  - split; [exact Hstep |]. split; [discriminate |]. split; [auto |].
    intros flag. destruct sys as [self a held]. cbn in Hheld. subst held. auto.
  - destruct (lookup_lt_is_Some_2 (task_queues (manager sys)) (Z.to_nat priority)
                ltac:(lia)) as [queue Hqueue].
    rewrite Hqueue in *. cbn in Hstep |- *.
    split; [exact Hstep |]. split; [| split; [discriminate |]].
    + intros _. split; [reflexivity |]. split; [| split; [reflexivity |]].
      * rewrite queue_at_insert by (eapply lookup_lt_Some; exact Hqueue).
        rewrite bool_decide_eq_true_2 by reflexivity.
        unfold queue_at. rewrite Hqueue. reflexivity.
      * split; [exact Hdown |]. apply run_stopped. exact Hdown.
    + intros flag. repeat split.
Qed.

End Operations.

(** C6 (the claim as stated fails): a manager that was started and then
    stopped, with no task active, has its flag down and its lock free; a
    task submitted to it at priority 0 is accepted and changes queue 0. *)
Lemma add_task_while_stopped_enqueues :
  let sys := (TaskManager.run (TaskManager.boot (config_of 5 5) sample_desktop)
                [TaskManager.Start; TaskManager.Stop]).1 in
  let outcome := TaskManager.call_add_task sys (plain_task "t1") 0 in
  TaskManager.running (TaskManager.manager sys) = false
  /\ outcome.1.1 = Some true
  /\ TaskManager.task_queues (TaskManager.manager outcome.1.2)
     <> TaskManager.task_queues (TaskManager.manager sys)
  /\ queue_at 0 (TaskManager.task_queues (TaskManager.manager outcome.1.2))
     = [plain_task "t1"].
Proof. cbv zeta. vm_compute. repeat split. discriminate. Qed.

(** ** Task manager: the bound along executions *)

Section Bound.
Import TaskManager.
Context {A : Type} `{DeviceAdapter A}.

(** A freshly constructed manager is within the bound exactly when the
    configured limit is not negative. *)
Lemma boot_bounded (config : Config) (adapter : A) :
  bounded (manager (boot config adapter))
  <-> 0 <= default MAX_CONCURRENT_TASKS (config_max_concurrent config).
Proof. unfold bounded, boot, init. cbn. rewrite map_size_empty. lia. Qed.

(** C2 (as the code has it): from a manager within the bound, as the
    freshly constructed one is when [max_concurrent >= 0], every sequence of
    start, stop, add_task, stop_task and scheduler-loop operations stays
    within the bound after each of its operations. *)
Theorem active_tasks_bounded (sys : System A) (ops : list Op) :
  bounded (manager sys) ->
  forall k, bounded (manager (run sys (take k ops)).1)
            /\ max_concurrent (manager (run sys (take k ops)).1) = max_concurrent (manager sys).
Proof.
  intros Hstart k.
  destruct (run_steady sys (take k ops)) as (Hlimit & _ & _ & Hbound).
  split; [apply Hbound; exact Hstart | exact Hlimit].
Qed.

End Bound.

(** C2 (the claim as stated fails): with [max_concurrent = -1] the empty
    table of the freshly constructed manager already holds more entries,
    none, than the limit. *)
Lemma negative_limit_exceeded :
  let self := TaskManager.manager
                (TaskManager.run (TaskManager.boot (config_of (-1) 5) sample_desktop) []).1 in
  TaskManager.max_concurrent self = -1
  /\ size (TaskManager.active_tasks self) = O
  /\ ~ bounded self.
Proof.
  cbv zeta. split; [reflexivity |]. split; [reflexivity |].
  unfold bounded. cbn. rewrite map_size_empty. lia.
Qed.

(** With one slot and two local tasks at priorities 0 and 1, one iteration
    of the scheduler loop admits the task of priority 0 only. *)
Definition one_slot_ops : list TaskManager.Op :=
  [ TaskManager.Start;
    TaskManager.AddTask (plain_task "low") 1;
    TaskManager.AddTask (plain_task "high") 0;
    TaskManager.SchedulerIteration (sample_layer "D1") ].

Example one_slot_scenario :
  let sys := (TaskManager.run (TaskManager.boot (config_of 1 2) sample_desktop) one_slot_ops).1 in
  TaskManager.active_tasks (TaskManager.manager sys) = {[ "high"%string := plain_task "high" ]}
  /\ TaskManager.task_queues (TaskManager.manager sys) = [[]; [plain_task "low"]].
Proof. vm_compute. split; reflexivity. Qed.

(** One slot, two submissions and one iteration of the scheduler loop:
    the table starts within the bound and is within it at the end. *)
Lemma active_tasks_bounded_witness :
  bounded (TaskManager.manager (TaskManager.boot (config_of 1 2) sample_desktop))
  /\ bounded (TaskManager.manager
                (TaskManager.run (TaskManager.boot (config_of 1 2) sample_desktop)
                                 (take 4 one_slot_ops)).1).
Proof.
  assert (Hstart : bounded (TaskManager.manager (TaskManager.boot (config_of 1 2) sample_desktop))).
  { apply boot_bounded. cbn. lia. }
  split; [exact Hstart |].
  apply (active_tasks_bounded (TaskManager.boot (config_of 1 2) sample_desktop)
                              one_slot_ops Hstart 4).
Defined.

(** After the scenario above the lock is free: a further task is accepted
    at priority 1. *)
Lemma add_task_valid_priorities_witness :
  let sys := (TaskManager.run (TaskManager.boot (config_of 1 2) sample_desktop)
                one_slot_ops).1 in
  TaskManager.lock_held sys = false
  /\ (TaskManager.call_add_task sys (plain_task "next") 1).1.1 = Some true.
Proof.
  cbv zeta. split; [reflexivity |].
  pose proof (add_task_valid_priorities (config_of 1 2) sample_desktop one_slot_ops
                (plain_task "next") 1 eq_refl) as Hthm.
  cbv zeta in Hthm.
  destruct (TaskManager.call_add_task _ _ _) as [[result sys'] events].
  apply Hthm. cbn. lia.
Defined.

(** After the scenario above the task of priority 0 is active and the lock
    is free: cancelling it succeeds and removes it. *)
Lemma stop_task_atomic_witness :
  let sys := (TaskManager.run (TaskManager.boot (config_of 1 2) sample_desktop)
                one_slot_ops).1 in
  TaskManager.lock_held sys = false
  /\ (TaskManager.call_stop_task sys "high").1.1 = Some true
  /\ TaskManager.active_tasks
       (TaskManager.manager (TaskManager.call_stop_task sys "high").1.2) !! "high"%string
     = None.
Proof.
  cbv zeta. split; [reflexivity |].
  pose proof (stop_task_atomic
                (TaskManager.run (TaskManager.boot (config_of 1 2) sample_desktop)
                   one_slot_ops).1 "high" eq_refl) as Hthm.
  destruct (TaskManager.call_stop_task _ _) as [[result sys'] events].
  destruct Hthm as (_ & _ & Hactive & _).
  destruct (Hactive (plain_task "high") eq_refl) as (Hresult & _ & Hgone & _).
  split; [exact Hresult |]. apply Hgone. reflexivity.
Defined.

(** A manager started and stopped again, with nothing active, accepts a
    task. *)
Lemma add_task_ignores_running_witness :
  let sys := (TaskManager.run (TaskManager.boot (config_of 5 5) sample_desktop)
                [TaskManager.Start; TaskManager.Stop]).1 in
  TaskManager.running (TaskManager.manager sys) = false
  /\ well_formed (TaskManager.manager sys)
  /\ 0 <= 0 < TaskManager.priority_levels (TaskManager.manager sys)
  /\ (TaskManager.call_add_task sys (plain_task "t1") 0).1.1 = Some true.
Proof.
  cbv zeta.
  assert (Hrange : 0 <= 0
                   < TaskManager.priority_levels
                       (TaskManager.manager
                          (TaskManager.run (TaskManager.boot (config_of 5 5) sample_desktop)
                             [TaskManager.Start; TaskManager.Stop]).1))
    by (cbn; lia).
  split; [reflexivity |]. split; [reflexivity |]. split; [exact Hrange |].
  pose proof (add_task_ignores_running
                (TaskManager.run (TaskManager.boot (config_of 5 5) sample_desktop)
                   [TaskManager.Start; TaskManager.Stop]).1
                (plain_task "t1") 0 [] eq_refl eq_refl Hrange) as Hthm.
  destruct (TaskManager.call_add_task _ _ _) as [[result sys'] events].
  destruct Hthm as (_ & Hfree & _). apply Hfree. reflexivity.
Defined.

(** [stop()] on the manager of the scenario above, which has an active
    task, holds the lock for ever: a task submitted afterwards with a valid
    priority is never answered, one with an invalid priority is refused,
    and neither changes the queues. *)
Example add_task_after_stuck_stop :
  let sys := (TaskManager.run (TaskManager.boot (config_of 1 2) sample_desktop)
                (one_slot_ops ++ [TaskManager.Stop])).1 in
  TaskManager.lock_held sys = true
  /\ TaskManager.running (TaskManager.manager sys) = false
  /\ TaskManager.call_add_task sys (plain_task "late") 0 = (None, sys, [])
  /\ TaskManager.call_add_task sys (plain_task "late") 7 = (Some false, sys, []).
Proof. cbv zeta. repeat split. Qed.

(** ** Migration *)

(** The offers a migration attempt makes: down the list of candidates until
    the first send that succeeds. *)
Fixpoint offers (send : string -> bool) (ids : list string) : list (string * bool) :=
  match ids with
  | [] => []
  | device_id :: rest =>
      if send device_id then [(device_id, true)] else (device_id, false) :: offers send rest
  end.

(** The sends recorded in a list of events. *)
Fixpoint sends (events : list TaskManager.Event) : list (string * Message * bool) :=
  match events with
  | [] => []
  | TaskManager.Sent device_id message ok :: rest => (device_id, message, ok) :: sends rest
  | _ :: rest => sends rest
  end.

(** The tasks popped from queue [p] in a list of events. *)
Fixpoint pops (events : list TaskManager.Event) : list (nat * Task) :=
  match events with
  | [] => []
  | TaskManager.Popped p task :: rest => (p, task) :: pops rest
  | _ :: rest => pops rest
  end.

(** The eligible devices of the directory, in directory order. *)
Definition candidates (comm : CommunicationLayer.t) (task : Task) : list string :=
  map fst (List.filter (fun entry => TaskManager.eligible entry.2 task)
                       (CommunicationLayer.get_available_devices comm)).

(** Eligibility as the specification words it: every required capability
    is present in the capability set of the device with a truthy value, as
    [capabilities.get(cap, False)] tests it in the local check. *)
Definition has_truthy (device_info : DeviceInfo) (task : Task) : bool :=
  forallb (fun cap => match dict_get cap (default [] (capabilities device_info)) with
                      | Some value => cap_truthy value
                      | None => false
                      end)
          (default [] (required_capabilities task)).

(** The devices of the directory that are eligible in that sense, in
    directory order. *)
Definition capable (comm : CommunicationLayer.t) (task : Task) : list string :=
  map fst (List.filter (fun entry => has_truthy entry.2 task)
                       (CommunicationLayer.get_available_devices comm)).

(** No device of the directory lists a capability the task requires with a
    falsy value. *)
Definition listed_truthy (comm : CommunicationLayer.t) (task : Task) : bool :=
  forallb (fun entry =>
             forallb (fun cap => match dict_get cap (default [] (capabilities entry.2)) with
                                 | Some value => cap_truthy value
                                 | None => true
                                 end)
                     (default [] (required_capabilities task)))
          (CommunicationLayer.get_available_devices comm).

(** The claim as the specification words it: the offer goes to the first
    eligible device only. *)
Definition first_eligible_only (comm : CommunicationLayer.t) (task : Task)
           (events : list TaskManager.Event) : Prop :=
  map (fun s => s.1.1) (sends events) = firstn 1 (capable comm task).

Section Migration.
Import TaskManager.

Lemma dict_has_keys {V : Type} (k : string) (d : list (string * V)) :
  dict_has k d = true <-> In k (dict_keys d).
Proof.
  unfold dict_has, dict_keys.
  induction d as [| [k' v] d IH]; cbn [dict_get map fst In].
  - split; [discriminate | contradiction].
  - case_bool_decide as Hk.
    + split; [intros _; left; exact Hk | reflexivity].
    + rewrite IH. split; [auto | intros [Heq | Hin]; [contradiction | exact Hin]].
Qed.

(** Eligibility looks at the names of the advertised capabilities only:
    not at their values, and not at the resources the task requires. *)
Lemma eligible_names (device_info : DeviceInfo) (task : Task) :
  eligible device_info task = true
  <-> forall cap, In cap (default [] (required_capabilities task)) ->
                  In cap (dict_keys (default [] (capabilities device_info))).
Proof.
  unfold eligible. rewrite forallb_forall.
  split; intros Hall cap Hcap; apply dict_has_keys, Hall, Hcap.
Qed.

Lemma migrate_loop_spec (comm : CommunicationLayer.t) (task : Task) (p : nat)
      (queues : list (list Task)) (devices : list (string * DeviceInfo)) :
  let message := task_offer task p in
  let send device_id := CommunicationLayer.send_data comm device_id message None in
  let ids := map fst (List.filter (fun entry => eligible entry.2 task) devices) in
  migrate_loop comm task p queues devices
  = (if existsb send ids then snd <$> pop_head p queues else Some queues,
     map (fun o => Sent o.1 message o.2) (offers send ids)
     ++ (if existsb send ids
         then match pop_head p queues with
              | Some (head, _) => [Popped p head]
              | None => []
              end
         else [])).
Proof.
  cbv zeta. induction devices as [| [device_id device_info] devices IH];
    cbn [migrate_loop List.filter map fst snd existsb offers]; [reflexivity |].
  destruct (eligible device_info task); cbn [map fst existsb offers]; [| exact IH].
  destruct (CommunicationLayer.send_data comm device_id (task_offer task p) None);
    cbn [orb map fst snd app].
  - destruct (pop_head p queues) as [[head queues'] |]; reflexivity.
  - rewrite IH. reflexivity.
Qed.

Lemma sends_offers (message : Message) (pairs : list (string * bool)) (tail : list Event) :
  forallb (fun e => negb (is_send e)) tail = true ->
  sends (map (fun o => Sent o.1 message o.2) pairs ++ tail)
  = map (fun o => (o.1, message, o.2)) pairs.
Proof.
  intros Htail. induction pairs as [| [device_id ok] pairs IH]; cbn [map app sends fst snd].
  - induction tail as [| e tail IHt]; [reflexivity |].
    cbn in Htail. apply andb_prop in Htail as [He Htail].
    destruct e; cbn in He; try discriminate; cbn [sends]; auto.
  - rewrite IH. reflexivity.
Qed.

(** What one migration attempt does, in terms of the test the code
    makes: the offers go to the devices that pass it, in directory order,
    until a send succeeds. *)
Lemma try_migrate_task_candidates (self : t) (comm : CommunicationLayer.t)
      (task : Task) (priority : nat) :
  let message := task_offer task priority in
  let send device_id := CommunicationLayer.send_data comm device_id message None in
  let ids := candidates comm task in
  let '(result, events) := _try_migrate_task self comm task priority in
  sends events = map (fun o => (o.1, message, o.2)) (offers send ids)
  /\ (forall device_id device_info,
        In (device_id, device_info)
           (List.filter (fun entry => eligible entry.2 task)
                        (CommunicationLayer.get_available_devices comm))
        <-> In (device_id, device_info) (CommunicationLayer.get_available_devices comm)
            /\ forall cap, In cap (default [] (required_capabilities task)) ->
                           In cap (dict_keys (default [] (capabilities device_info))))
  /\ (existsb send ids = true ->
      forall rest, task_queues self !! priority = Some (task :: rest) ->
        result = Some (with_queues self (<[priority := rest]> (task_queues self)))
        /\ pops events = [(priority, task)])
  /\ (existsb send ids = false -> result = Some self /\ pops events = [])
  /\ (ids = [] -> events = [MigrationTried task priority]).
Proof.
  cbv zeta. unfold _try_migrate_task, candidates.
  pose proof (migrate_loop_spec comm task priority (task_queues self)
                (CommunicationLayer.get_available_devices comm)) as Hspec.
  cbv zeta in Hspec. rewrite Hspec. clear Hspec.
  set (ids := map fst (List.filter _ _)).
  set (send := fun device_id => CommunicationLayer.send_data comm device_id _ None).
  assert (Hpops_offers : forall pairs tail,
             pops (map (fun o => Sent o.1 (task_offer task priority) o.2) pairs ++ tail)
             = pops tail).
  { intros pairs tail. induction pairs as [| o pairs IH]; [reflexivity | exact IH]. }
  split; [| split; [| split; [| split]]].
  - cbn [sends]. apply sends_offers.
    destruct (existsb send ids); [| reflexivity].
    destruct (pop_head priority (task_queues self)) as [[head queues'] |]; reflexivity.
  - intros device_id device_info. rewrite filter_In, <- eligible_names. reflexivity.
  - intros Hsome rest Hqueue. rewrite Hsome.
    unfold pop_head. rewrite Hqueue. cbn [fmap option_fmap option_map snd].
    split; [reflexivity |]. cbn [pops]. rewrite Hpops_offers. reflexivity.
  - intros Hnone. rewrite Hnone. cbn [fmap option_fmap option_map].
    split; [destruct self; reflexivity |]. cbn [pops]. rewrite Hpops_offers. reflexivity.
  - intros Hids. rewrite Hids. reflexivity.
Qed.

(** Where no listed value of a required capability is falsy, the test of
    the code, which looks at the names only, is the test for a truthy
    value. *)
Lemma eligible_has_truthy (device_info : DeviceInfo) (task : Task) :
  forallb (fun cap => match dict_get cap (default [] (capabilities device_info)) with
                      | Some value => cap_truthy value
                      | None => true
                      end)
          (default [] (required_capabilities task)) = true ->
  eligible device_info task = has_truthy device_info task.
Proof.
  unfold eligible, has_truthy, dict_has.
  induction (default [] (required_capabilities task)) as [| cap caps IH]; [reflexivity |].
  cbn [forallb]. intros Hall. apply andb_prop in Hall as [Hcap Hall].
  rewrite (IH Hall).
  destruct (dict_get cap (default [] (capabilities device_info))); cbn [present];
    [rewrite Hcap |]; reflexivity.
Qed.

Lemma candidates_capable (comm : CommunicationLayer.t) (task : Task) :
  listed_truthy comm task = true -> candidates comm task = capable comm task.
Proof.
  unfold listed_truthy, candidates, capable.
  induction (CommunicationLayer.get_available_devices comm) as [| entry devices IH];
    [reflexivity |].
  cbn [forallb List.filter]. intros Hall. apply andb_prop in Hall as [Hentry Hall].
  rewrite (eligible_has_truthy entry.2 task Hentry).
  destruct (has_truthy entry.2 task); cbn [map]; rewrite (IH Hall); reflexivity.
Qed.

Lemma has_truthy_spec (device_info : DeviceInfo) (task : Task) :
  has_truthy device_info task = true
  <-> forall cap, In cap (default [] (required_capabilities task)) ->
                  exists value, dict_get cap (default [] (capabilities device_info)) = Some value
                                /\ cap_truthy value = true.
Proof.
  unfold has_truthy. rewrite forallb_forall.
  split; intros Hall cap Hcap; specialize (Hall cap Hcap).
  - destruct (dict_get cap _) as [value |]; [eauto | discriminate].
  - destruct Hall as (value & -> & Htruthy). exact Htruthy.
Qed.

(** C3 (with the retry the code makes): in a directory that lists no
    required capability with a falsy value, one migration attempt holds a
    device eligible exactly when every required capability is present in
    its capability set with a truthy value, whatever resources the task
    requires.  The task is offered, with the message
    [{type: 'task', task, priority}], to the eligible devices in directory
    order until a send succeeds, and to no device after that one.  When a
    send succeeds the head of queue [priority], which is the task itself
    when the scheduler loop makes the call, is removed; when every send
    fails, and in particular when no device is eligible, nothing is
    removed; and when no device is eligible nothing is sent. *)
Theorem try_migrate_task_offers (self : t) (comm : CommunicationLayer.t)
        (task : Task) (priority : nat) :
  listed_truthy comm task = true ->
  let message := task_offer task priority in
  let send device_id := CommunicationLayer.send_data comm device_id message None in
  let ids := capable comm task in
  let '(result, events) := _try_migrate_task self comm task priority in
  sends events = map (fun o => (o.1, message, o.2)) (offers send ids)
  /\ (forall device_id device_info,
        In (device_id, device_info) (CommunicationLayer.get_available_devices comm) ->
        (eligible device_info task = true
         <-> forall cap, In cap (default [] (required_capabilities task)) ->
               exists value,
                 dict_get cap (default [] (capabilities device_info)) = Some value
                 /\ cap_truthy value = true))
  /\ (existsb send ids = true ->
      forall rest, task_queues self !! priority = Some (task :: rest) ->
        result = Some (with_queues self (<[priority := rest]> (task_queues self)))
        /\ pops events = [(priority, task)])
  /\ (existsb send ids = false -> result = Some self /\ pops events = [])
  /\ (ids = [] -> events = [MigrationTried task priority]).
Proof.
  intros Hlisted. cbv zeta.
  pose proof (try_migrate_task_candidates self comm task priority) as Hcode.
  cbv zeta in Hcode. rewrite (candidates_capable comm task Hlisted) in Hcode.
  destruct (_try_migrate_task self comm task priority) as [result events].
  destruct Hcode as (Hsends & _ & Hsome & Hnone & Hempty).
  split; [exact Hsends |]. split; [| auto].
  intros device_id device_info Hin. rewrite <- has_truthy_spec.
  rewrite eligible_has_truthy; [reflexivity |].
  unfold listed_truthy in Hlisted. rewrite forallb_forall in Hlisted.
  exact (Hlisted (device_id, device_info) Hin).
Qed.

End Migration.

(** C3 (the claim as stated fails): with two eligible devices of which the
    first cannot be reached, the offer is sent to the first and then to the
    second, not to the first only. *)
Lemma migration_offers_second_device :
  let comm := sample_layer "D2" in
  let task := camera_task "t1" in
  let self := (TaskManager.add_task (TaskManager.init (config_of 5 5)) task 0).1.2 in
  let events := (TaskManager._try_migrate_task self comm task 0).2 in
  capable comm task = ["D1"; "D2"]%string
  /\ map (fun s => (s.1.1, s.2)) (sends events) = [("D1", false); ("D2", true)]%string
  /\ ~ first_eligible_only comm task events.
Proof.
  cbv zeta. split; [reflexivity |]. split; [reflexivity |].
  unfold first_eligible_only. vm_compute. discriminate.
Qed.

(** The two camera devices of the sample directory list the camera as
    present: the task is offered to D1 and, that send failing, to D2. *)
Lemma try_migrate_task_offers_witness :
  let comm := sample_layer "D2" in
  let task := camera_task "t1" in
  let self := (TaskManager.add_task (TaskManager.init (config_of 5 5)) task 0).1.2 in
  listed_truthy comm task = true
  /\ sends (TaskManager._try_migrate_task self comm task 0).2
     = map (fun o => (o.1, TaskManager.task_offer task 0, o.2))
           (offers (fun device_id =>
                      CommunicationLayer.send_data comm device_id
                        (TaskManager.task_offer task 0) None)
                   (capable comm task)).
Proof.
  cbv zeta. split; [reflexivity |].
  pose proof (try_migrate_task_offers
                (TaskManager.add_task (TaskManager.init (config_of 5 5))
                   (camera_task "t1") 0).1.2
                (sample_layer "D2") (camera_task "t1") 0 eq_refl) as Hthm.
  cbv zeta in Hthm.
  destruct (TaskManager._try_migrate_task _ _ _ _) as [result events].
  exact (proj1 Hthm).
Defined.

(** The test of the code looks at the names only: a device that lists a
    required capability with the value [False] passes it, against the
    reading of the local check. *)
Example eligible_with_false_capability :
  let device := {| capabilities := Some [("has_camera"%string, CapBool false)];
                   protocol := None; last_seen := None |} in
  TaskManager.eligible device (camera_task "t1") = true
  /\ has_truthy device (camera_task "t1") = false.
Proof. split; reflexivity. Qed.

(** A camera task on a desktop without a camera, with the peer D1 in
    reach: one iteration of the scheduler loop offers the task to D1 and the
    task leaves its queue. *)
Example migration_scenario :
  let ops := [ TaskManager.Start; TaskManager.AddTask (camera_task "t1") 0;
               TaskManager.SchedulerIteration (sample_layer "D1") ] in
  let outcome := TaskManager.run (TaskManager.boot (config_of 5 1) sample_desktop) ops in
  sends outcome.2 = [("D1"%string, TaskManager.task_offer (camera_task "t1") 0, true)]
  /\ TaskManager.task_queues (TaskManager.manager outcome.1) = [[]]
  /\ TaskManager.active_tasks (TaskManager.manager outcome.1) = ∅.
Proof. vm_compute. repeat split; reflexivity. Qed.

(** ** Migration only after a refusal *)

Definition is_migration (event : TaskManager.Event) : bool :=
  match event with
  | TaskManager.MigrationTried _ _ => true
  | _ => false
  end.

(** Every migration attempt in the events comes directly after the local
    backend has answered no for the same task. *)
Definition refused_before_migration (events : list TaskManager.Event) : Prop :=
  forall before task p after,
    events = before ++ TaskManager.MigrationTried task p :: after ->
    exists earlier, before = earlier ++ [TaskManager.AskedCanExecute task false].

Section Refusal.
Import TaskManager.
Context {A : Type} `{DeviceAdapter A}.

Lemma no_migration_inside (events before after : list Event) (task : Task) (p : nat) :
  forallb (fun e => negb (is_migration e)) events = true ->
  events <> before ++ MigrationTried task p :: after.
Proof.
  intros Hnone ->. rewrite forallb_app in Hnone.
  apply andb_prop in Hnone as [_ Hnone]. discriminate.
Qed.

Lemma no_migration_refused (events : list Event) :
  forallb (fun e => negb (is_migration e)) events = true -> refused_before_migration events.
Proof.
  intros Hnone before task p after Heq.
  exfalso. exact (no_migration_inside _ _ _ _ _ Hnone Heq).
Qed.

Lemma refused_app (e1 e2 : list Event) :
  refused_before_migration e1 -> refused_before_migration e2 ->
  refused_before_migration (e1 ++ e2).
Proof.
  intros H1 H2 before task p after Heq.
  apply app_eq_app in Heq as [l [[-> Hl] | [-> Hl]]].
  - destruct l as [| e l].
    + cbn in Hl. destruct (H2 [] task p after (eq_sym Hl)) as [earlier Hearlier].
      destruct earlier; discriminate.
    + injection Hl as <- _.
      apply (H1 before task p l). reflexivity.
  - destruct (H2 l task p after Hl) as [earlier ->].
    exists (e1 ++ earlier). rewrite app_assoc. reflexivity.
Qed.

Lemma sends_no_migration (events : list Event) :
  forallb is_send events = true -> forallb (fun e => negb (is_migration e)) events = true.
Proof.
  induction events as [| e events IH]; [reflexivity |]. cbn.
  intros Hall. apply andb_prop in Hall as [He Hall].
  rewrite IH by exact Hall. destruct e; try discriminate. reflexivity.
Qed.

Lemma try_migrate_events (self : t) (comm : CommunicationLayer.t) (task : Task) (p : nat) :
  exists rest, (_try_migrate_task self comm task p).2 = MigrationTried task p :: rest
               /\ forallb (fun e => negb (is_migration e)) rest = true.
Proof.
  destruct (try_migrate_cases self comm task p) as (sent & Hsent & Hcases).
  apply sends_no_migration in Hsent. cbv zeta in Hcases.
  destruct Hcases as [-> | [(head & rest & _ & ->) | ->]]; cbn [snd].
  - exists sent. split; [reflexivity | exact Hsent].
  - exists (sent ++ [Popped p head]). split; [reflexivity |].
    rewrite forallb_app, Hsent. reflexivity.
  - exists sent. split; [reflexivity | exact Hsent].
Qed.

Lemma pass_refused (comm : CommunicationLayer.t) (s s' : t) (a a' : A) (flow : Flow)
      (events : list Event) :
  PassShape comm s a flow s' a' events -> refused_before_migration events.
Proof.
  inversion 1 as [| | p task a1 result mevents _ _ Hmig]; subst;
    [apply no_migration_refused; reflexivity .. |].
  destruct (try_migrate_events s comm task p) as (rest & Hevents & Hrest).
  rewrite Hmig in Hevents. cbn in Hevents. subst mevents.
  intros before task' p' after Heq.
  destruct before as [| e0 before]; [discriminate |].
  injection Heq as <- Heq.
  destruct before as [| e1 before].
  - injection Heq as <- <- _. exists []. reflexivity.
  - injection Heq as _ Heq. exfalso.
    exact (no_migration_inside _ _ _ _ _ Hrest Heq).
Qed.

(** In every execution a migration attempt on a task directly follows the
    refusal of that task by the local backend. *)
Lemma run_refused (sys : System A) (ops : list Op) :
  refused_before_migration (run sys ops).2.
Proof.
  apply (run_closed (fun _ _ events _ _ => refused_before_migration events)).
  - intros. apply no_migration_refused. reflexivity.
  - intros. apply refused_app; assumption.
  - intros. eapply pass_refused; eassumption.
  - intros s a task priority. apply no_migration_refused.
    unfold add_task. repeat case_match; reflexivity.
  - intros s a task_id. unfold stop_task.
    destruct (active_tasks s !! task_id); [| apply no_migration_refused; reflexivity].
    destruct (adapter_stop_task a task_id) as [[|] a'];
      apply no_migration_refused; reflexivity.
  - intros. apply no_migration_refused. reflexivity.
Qed.

(** The answers in the events are answers of the backend, in a state the
    backend can be in. *)
Section Answers.
Variable reachable : A -> Prop.
Hypothesis reachable_can : forall a task, reachable a -> reachable (can_execute_task a task).2.
Hypothesis reachable_execute : forall a task, reachable a -> reachable (execute_task a task).2.
Hypothesis reachable_stop : forall a task_id, reachable a -> reachable (adapter_stop_task a task_id).2.

Definition answers_true (a : A) (events : list Event) (a' : A) : Prop :=
  reachable a ->
  reachable a'
  /\ forall task answer, In (AskedCanExecute task answer) events ->
       exists a0, reachable a0 /\ (can_execute_task a0 task).1 = answer.

Lemma run_answers (sys : System A) (ops : list Op) :
  answers_true (adapter sys) (run sys ops).2 (adapter (run sys ops).1).
Proof.
  apply (run_closed (fun _ a events _ a' => answers_true a events a')); unfold answers_true.
  - intros s a Ha. split; [exact Ha | intros ? ? []].
  - intros s1 a1 e1 s2 a2 e2 s3 a3 H12 H23 Ha1.
    destruct (H12 Ha1) as [Ha2 Hans1]. destruct (H23 Ha2) as [Ha3 Hans2].
    split; [exact Ha3 |]. intros task answer Hin.
    apply in_app_or in Hin as [Hin | Hin]; eauto.
  - intros comm s a flow s' a' events Hshape Ha.
    inversion Hshape as [| p task rest a1 a2 ok flow' s1 _ _ _ Hcan Hexec _
                         | p task a1 result mevents _ Hcan Hmig]; subst.
    + split; [exact Ha | intros ? ? []].
    + pose proof (reachable_can a task Ha) as Ha1. rewrite Hcan in Ha1.
      pose proof (reachable_execute a1 task Ha1) as Ha2. rewrite Hexec in Ha2.
      split; [exact Ha2 |]. intros task' answer [Heq | [Heq | [Heq | []]]]; try discriminate.
      injection Heq as <- <-. exists a. rewrite Hcan. auto.
    + pose proof (reachable_can a task Ha) as Ha1. rewrite Hcan in Ha1.
      split; [exact Ha1 |]. intros task' answer [Heq | Hin].
      * injection Heq as <- <-. exists a. rewrite Hcan. auto.
      * exfalso. destruct (try_migrate_cases s comm task p) as (sent & Hsent & Hcases).
        cbv zeta in Hcases. rewrite Hmig in Hcases.
        assert (Hnot : forall l, forallb is_send l = true ->
                                 ~ In (AskedCanExecute task' answer) l).
        { intros l Hl Hin'. rewrite forallb_forall in Hl.
          specialize (Hl _ Hin'). discriminate. }
        destruct Hcases as [[= _ ->] | [(head & rest & _ & [= _ ->]) | [= _ ->]]];
          destruct Hin as [Heq | Hin]; try discriminate.
        -- exact (Hnot _ Hsent Hin).
        -- apply in_app_or in Hin as [Hin | [Heq | []]]; [| discriminate].
           exact (Hnot _ Hsent Hin).
        -- exact (Hnot _ Hsent Hin).
  - intros s a task priority Ha. split; [exact Ha |].
    intros task' answer. unfold add_task.
    repeat case_match; cbn; intros Hin; try contradiction.
    destruct Hin as [Heq | []]. discriminate.
  - intros s a task_id. unfold stop_task.
    destruct (active_tasks s !! task_id).
    + pose proof (reachable_stop a task_id) as Hstop.
      destruct (adapter_stop_task a task_id) as [[|] a']; intros Ha;
        (split; [exact (Hstop Ha) |]);
        intros task' answer [Heq | []]; discriminate.
    + intros Ha. split; [exact Ha | intros ? ? []].
  - intros s a flag Ha. split; [exact Ha | intros ? ? []].
Qed.

End Answers.

End Refusal.

(** ** The desktop adapter as the local backend *)

(** Every required capability is in the local capability set, with a
    truthy value. *)
Definition capabilities_cover (caps : gmap string CapValue) (task : Task) : Prop :=
  forall c, In c (default [] (required_capabilities task)) ->
            exists v, caps !! c = Some v /\ cap_truthy v = true.

(** The amount is within what is available: within the float the adapter
    reports for the resource, or, for a resource it does not report, within
    0.  An infinite availability covers every amount, a negative infinite
    one none; a NaN, which is below nothing, covers every amount. *)
Definition covered (amount : Q) (available : option DesktopAdapter.float) : Prop :=
  match available with
  | None | Some (S754_zero _) => (amount <= 0)%Q
  | Some (S754_finite negative m e) => (amount <= DesktopAdapter.float_Q negative m e)%Q
  | Some (S754_infinity negative) => negative = false
  | Some S754_nan => True
  end.

(** Every required quantity is available under the reading [u]: it is
    within the float [100 - usage] that [get_available_resources] computes
    from the reading. *)
Definition resources_suffice (u : DesktopAdapter.Usage) (task : Task) : Prop :=
  forall r amount, In (r, amount) (default [] (required_resources task)) ->
    covered amount (dict_get r (DesktopAdapter.available_of u)).

Section Desktop.
Import TaskManager.

Lemma has_capabilities_cover (caps : gmap string CapValue) (task : Task) :
  DesktopAdapter.has_capabilities caps task = true <-> capabilities_cover caps task.
Proof.
  unfold DesktopAdapter.has_capabilities, capabilities_cover. rewrite forallb_forall.
  split; intros Hall c Hc; specialize (Hall c Hc).
  - destruct (caps !! c) as [v |]; [exists v; auto | discriminate].
  - destruct Hall as (v & -> & Hv). exact Hv.
Qed.

Lemma Qlt_bool_false (x y : Q) : Qlt_bool x y = false <-> (y <= x)%Q.
Proof. unfold Qlt_bool. rewrite negb_false_iff. apply Qle_bool_iff. Qed.

Lemma covered_float_lt (amount : Q) (available : option DesktopAdapter.float) :
  negb (match available with
        | Some x => DesktopAdapter.float_lt x amount
        | None => Qlt_bool 0 amount
        end) = true
  <-> covered amount available.
Proof.
  rewrite negb_true_iff.
  destruct available as [[sign | [|] | | negative m e] |]; cbn [covered DesktopAdapter.float_lt];
    try apply Qlt_bool_false; split; auto; discriminate.
Qed.

Lemma has_resources_suffice (u : DesktopAdapter.Usage) (task : Task) :
  DesktopAdapter.has_resources (DesktopAdapter.available_of u) task = true
  <-> resources_suffice u task.
Proof.
  unfold DesktopAdapter.has_resources, resources_suffice. rewrite forallb_forall.
  split.
  - intros Hall r amount Hin. specialize (Hall (r, amount) Hin). cbn [fst snd] in Hall.
    apply covered_float_lt. exact Hall.
  - intros Hall [r amount] Hin. cbn [fst snd].
    apply covered_float_lt. exact (Hall r amount Hin).
Qed.

(** [can_execute_task] answers yes exactly when the capabilities cover the
    requirement and the resources read at the call suffice. *)
Lemma can_execute_task_spec (self : DesktopAdapter.t) (task : Task) :
  (DesktopAdapter.can_execute_task self task).1 = true
  <-> capabilities_cover (DesktopAdapter.capabilities self) task
      /\ resources_suffice (DesktopAdapter.usage self (DesktopAdapter.reads self)) task.
Proof.
  unfold DesktopAdapter.can_execute_task.
  rewrite <- has_capabilities_cover, <- has_resources_suffice.
  destruct (DesktopAdapter.has_capabilities _ task); cbn.
  - split; [auto | intros [_ Hres]; exact Hres].
  - split; [discriminate | intros [Hcaps _]; discriminate].
Qed.

(** C4: a task whose required capabilities the local desktop backend
    covers and whose required resources it has available at every reading
    is answered yes by [can_execute_task] whenever the scheduler asks, and
    in no execution is the migration step called on it. *)
Theorem local_task_never_migrated (sys : System DesktopAdapter.t) (ops : list Op)
        (task : Task) :
  capabilities_cover (DesktopAdapter.capabilities (adapter sys)) task ->
  (forall n, resources_suffice (DesktopAdapter.usage (adapter sys) n) task) ->
  (forall answer, In (AskedCanExecute task answer) (run sys ops).2 -> answer = true)
  /\ (forall p, ~ In (MigrationTried task p) (run sys ops).2).
Proof.
  intros Hcaps Hres.
  set (reachable := fun a : DesktopAdapter.t =>
         DesktopAdapter.capabilities a = DesktopAdapter.capabilities (adapter sys)
         /\ DesktopAdapter.usage a = DesktopAdapter.usage (adapter sys)).
  assert (Hanswers : forall answer,
             In (AskedCanExecute task answer) (run sys ops).2 -> answer = true).
  { intros answer Hin.
    destruct (run_answers reachable) with (sys := sys) (ops := ops) as [_ Htrue].
    - intros a t [Hc Hu]. unfold reachable. cbn. unfold DesktopAdapter.can_execute_task.
      destruct (DesktopAdapter.has_capabilities _ t); cbn; auto.
    - intros a t Ha. exact Ha.
    - intros a t Ha. exact Ha.
    - split; reflexivity.
    - destruct (Htrue task answer Hin) as (a0 & [Hc Hu] & <-).
      apply can_execute_task_spec. rewrite Hc, Hu. split; [exact Hcaps | apply Hres]. }
  split; [exact Hanswers |].
  intros p Hin. apply in_split in Hin as (before & after & Hevents).
  destruct (run_refused sys ops before task p after Hevents) as [earlier ->].
  assert (Hasked : In (AskedCanExecute task false) (run sys ops).2).
  { rewrite Hevents. apply in_or_app. left. apply in_or_app. right. left. reflexivity. }
  specialize (Hanswers false Hasked). discriminate.
Qed.

End Desktop.

(** A task that needs wifi and half of the processor, both of which the
    sample desktop has. *)
Definition wifi_task : Task :=
  {| task_id := Some "w1"%string; description := None;
     required_capabilities := Some ["has_wifi"%string];
     required_resources := Some [("cpu_percent"%string, inject_Z 50)];
     parameters := None |}.

Definition wifi_ops : list TaskManager.Op :=
  [ TaskManager.Start; TaskManager.AddTask wifi_task 0;
    TaskManager.SchedulerIteration (sample_layer "D1") ].

Example wifi_task_dispatched :
  (TaskManager.run (TaskManager.boot (config_of 1 2) sample_desktop) wifi_ops).2
  = [ TaskManager.Appended 0 wifi_task; TaskManager.AskedCanExecute wifi_task true;
      TaskManager.Popped 0 wifi_task; TaskManager.Executed wifi_task true ].
Proof. vm_compute. reflexivity. Qed.

(** The sample desktop covers [wifi_task], which is therefore dispatched
    locally and never offered to a peer. *)
Lemma local_task_never_migrated_witness :
  capabilities_cover (DesktopAdapter.capabilities sample_desktop) wifi_task
  /\ (forall n, resources_suffice (DesktopAdapter.usage sample_desktop n) wifi_task)
  /\ forall p, ~ In (TaskManager.MigrationTried wifi_task p)
                    (TaskManager.run (TaskManager.boot (config_of 1 2) sample_desktop)
                                     wifi_ops).2.
Proof.
  assert (Hcaps : capabilities_cover (DesktopAdapter.capabilities sample_desktop) wifi_task).
  { apply has_capabilities_cover. vm_compute. reflexivity. }
  assert (Hres : forall n, resources_suffice (DesktopAdapter.usage sample_desktop n) wifi_task).
  { intros n. apply has_resources_suffice. vm_compute. reflexivity. }
  split; [exact Hcaps |]. split; [exact Hres |].
  exact (proj2 (local_task_never_migrated
                  (TaskManager.boot (config_of 1 2) sample_desktop)
                  wifi_ops wifi_task Hcaps Hres)).
Defined.

(** ** Dispatch order *)

(** The tasks appended to queue [p], and those removed from it, in the
    order of the events. *)
Fixpoint appended_at (p : nat) (events : list TaskManager.Event) : list Task :=
  match events with
  | [] => []
  | TaskManager.Appended q task :: rest =>
      if bool_decide (q = p) then task :: appended_at p rest else appended_at p rest
  | _ :: rest => appended_at p rest
  end.

Fixpoint popped_at (p : nat) (events : list TaskManager.Event) : list Task :=
  match events with
  | [] => []
  | TaskManager.Popped q task :: rest =>
      if bool_decide (q = p) then task :: popped_at p rest else popped_at p rest
  | _ :: rest => popped_at p rest
  end.

(** Queue [p] is first in, first out: what was queued followed by what was
    appended is what was removed followed by what is queued. *)
Definition fifo (s : TaskManager.t) (events : list TaskManager.Event) (s' : TaskManager.t)
  : Prop :=
  forall p, queue_at p (TaskManager.task_queues s) ++ appended_at p events
            = popped_at p events ++ queue_at p (TaskManager.task_queues s').

(** The queues as an event leaves them, and as a log of events leaves
    them. *)
Definition replay_event (queues : list (list Task)) (event : TaskManager.Event)
  : list (list Task) :=
  match event with
  | TaskManager.Appended p task => <[p := queue_at p queues ++ [task]]> queues
  | TaskManager.Popped p _ => <[p := tail (queue_at p queues)]> queues
  | _ => queues
  end.

Definition replay (queues : list (list Task)) (events : list TaskManager.Event)
  : list (list Task) :=
  fold_left replay_event events queues.

(** The task is the head of queue [p], and every queue of a lower index,
    that is of a higher priority, is empty. *)
Definition first_in_line (queues : list (list Task)) (p : nat) (task : Task) : Prop :=
  (exists rest, queues !! p = Some (task :: rest))
  /\ forall j, (j < p)%nat -> queues !! j = Some [].

(** What the scheduler may do with the queues as they are, [previous]
    being the event before: it asks the backend about, offers, and removes
    the task that is first in line, and executes the task it has just
    removed. *)
Definition in_order (previous : option TaskManager.Event) (queues : list (list Task))
           (event : TaskManager.Event) : Prop :=
  match event with
  | TaskManager.AskedCanExecute task _ => exists p, first_in_line queues p task
  | TaskManager.MigrationTried task p => first_in_line queues p task
  | TaskManager.Sent _ message _ =>
      first_in_line queues (msg_priority message) (msg_task message)
  | TaskManager.Popped p task => first_in_line queues p task
  | TaskManager.Executed task _ => exists p, previous = Some (TaskManager.Popped p task)
  | _ => True
  end.

Fixpoint ordered (previous : option TaskManager.Event) (queues : list (list Task))
         (events : list TaskManager.Event) : Prop :=
  match events with
  | [] => True
  | event :: rest =>
      in_order previous queues event
      /\ ordered (Some event) (replay_event queues event) rest
  end.

Fixpoint last_of (previous : option TaskManager.Event) (events : list TaskManager.Event)
  : option TaskManager.Event :=
  match events with
  | [] => previous
  | event :: rest => last_of (Some event) rest
  end.

Section Order.
Import TaskManager.
Context {A : Type} `{DeviceAdapter A}.

Lemma replay_app (queues : list (list Task)) (e1 e2 : list Event) :
  replay queues (e1 ++ e2) = replay (replay queues e1) e2.
Proof. apply fold_left_app. Qed.

Lemma ordered_app (previous : option Event) (queues : list (list Task))
      (e1 e2 : list Event) :
  ordered previous queues (e1 ++ e2)
  <-> ordered previous queues e1
      /\ ordered (last_of previous e1) (replay queues e1) e2.
Proof.
  revert previous queues. induction e1 as [| e e1 IH]; intros previous queues;
    cbn [app ordered last_of]; [unfold replay; cbn; tauto |].
  rewrite IH. unfold replay. cbn [fold_left]. tauto.
Qed.

Lemma last_of_Some (previous : option Event) (events : list Event) (event : Event) :
  last_of previous events = Some event ->
  (events = [] /\ previous = Some event) \/ exists before, events = before ++ [event].
Proof.
  revert previous. induction events as [| e events IH]; intros previous; cbn [last_of];
    [auto |].
  intros Hlast. right. destruct (IH _ Hlast) as [[-> [= ->]] | [before ->]].
  - exists []. reflexivity.
  - exists (e :: before). reflexivity.
Qed.

Lemma first_in_line_select (queues : list (list Task)) (p : nat) (task : Task) :
  select_from O queues = Some (p, task) <-> first_in_line queues p task.
Proof.
  unfold first_in_line. rewrite select_from_Some. split.
  - intros (i & rest & -> & Hi & Hlow). split; [exists rest; exact Hi | exact Hlow].
  - intros [[rest Hi] Hlow]. exists p, rest. split; [reflexivity | split; assumption].
Qed.

(** What leaves the manager's queues in the order of the log, and the
    queues the log leaves, for one piece of an execution. *)
Definition in_sequence (s : t) (events : list Event) (s' : t) : Prop :=
  (forall previous, ordered previous (task_queues s) events)
  /\ replay (task_queues s) events = task_queues s'.

Lemma in_sequence_refl (s : t) : in_sequence s [] s.
Proof. split; [intros; exact I | reflexivity]. Qed.

Lemma in_sequence_trans (s1 s2 s3 : t) (e1 e2 : list Event) :
  in_sequence s1 e1 s2 -> in_sequence s2 e2 s3 -> in_sequence s1 (e1 ++ e2) s3.
Proof.
  intros [Ho1 Hr1] [Ho2 Hr2]. split.
  - intros previous. apply ordered_app. split; [apply Ho1 |]. rewrite Hr1. apply Ho2.
  - rewrite replay_app, Hr1. exact Hr2.
Qed.

Lemma offers_in_sequence (queues : list (list Task)) (task : Task) (p : nat)
      (pairs : list (string * bool)) (previous : option Event) :
  first_in_line queues p task ->
  ordered previous queues (map (fun o => Sent o.1 (task_offer task p) o.2) pairs)
  /\ replay queues (map (fun o => Sent o.1 (task_offer task p) o.2) pairs) = queues.
Proof.
  intros Hfirst. revert previous. induction pairs as [| o pairs IH]; intros previous;
    [split; [exact I | reflexivity] |].
  cbn [map ordered]. destruct (IH (Some (Sent o.1 (task_offer task p) o.2))) as [Ho Hr].
  split; [split; [exact Hfirst | exact Ho] | exact Hr].
Qed.

Lemma pass_in_sequence (comm : CommunicationLayer.t) (s s' : t) (a a' : A) (flow : Flow)
      (events : list Event) :
  PassShape comm s a flow s' a' events -> in_sequence s events s'.
Proof.
  inversion 1 as [| p task rest a1 a2 ok flow' s1 _ Hsel Hp _ _ Hnext
                  | p task a1 result mevents Hsel _ Hmig]; subst.
  - apply in_sequence_refl.
  - assert (Hfirst : first_in_line (task_queues s) p task)
      by (apply first_in_line_select; exact Hsel).
    assert (Hpopped : replay_event (task_queues s) (Popped p task)
                      = <[p := rest]> (task_queues s))
      by (cbn; unfold queue_at; rewrite Hp; reflexivity).
    split.
    + intros previous. cbn [ordered in_order replay_event].
      split; [eauto |]. split; [exact Hfirst |]. split; [eauto | exact I].
    + unfold replay. cbn [fold_left].
      change (replay_event (task_queues s) (AskedCanExecute task true))
        with (task_queues s).
      rewrite Hpopped. cbn [replay_event].
      cbv zeta in Hnext.
      destruct ok; [destruct (task_id task) |]; destruct Hnext as [_ ->]; reflexivity.
  - assert (Hfirst : first_in_line (task_queues s) p task)
      by (apply first_in_line_select; exact Hsel).
    destruct (select_task_pop s p task Hsel) as (rest & Hp & Hpop).
    unfold _try_migrate_task in Hmig.
    pose proof (migrate_loop_spec comm task p (task_queues s)
                  (CommunicationLayer.get_available_devices comm)) as Hspec.
    cbv zeta in Hspec. rewrite Hspec, Hpop in Hmig. clear Hspec.
    injection Hmig as <- <-.
    set (pairs := offers _ _).
    assert (Hoffers : forall previous,
               ordered previous (task_queues s)
                       (map (fun o => Sent o.1 (task_offer task p) o.2) pairs)
               /\ replay (task_queues s)
                         (map (fun o => Sent o.1 (task_offer task p) o.2) pairs)
                  = task_queues s)
      by (intros previous; apply offers_in_sequence; exact Hfirst).
    destruct (existsb _ _).
    + split.
      * intros previous. cbn [ordered in_order replay_event].
        split; [eauto |]. split; [exact Hfirst |].
        apply ordered_app. split; [apply Hoffers |].
        rewrite (proj2 (Hoffers None)). cbn [ordered in_order]. auto.
      * pose proof (proj2 (Hoffers None)) as Hsame. unfold replay in Hsame |- *.
        cbn [fold_left replay_event]. rewrite fold_left_app, Hsame. cbn.
        unfold queue_at. rewrite Hp. reflexivity.
    + split.
      * intros previous. cbn [ordered in_order replay_event].
        split; [eauto |]. split; [exact Hfirst |].
        rewrite app_nil_r. apply Hoffers.
      * pose proof (proj2 (Hoffers None)) as Hsame. unfold replay in Hsame |- *.
        cbn [fold_left replay_event]. rewrite app_nil_r, Hsame. destruct s; reflexivity.
Qed.

Lemma run_in_sequence (sys : System A) (ops : list Op) :
  in_sequence (manager sys) (run sys ops).2 (manager (run sys ops).1).
Proof.
  apply (run_closed (fun s _ events s' _ => in_sequence s events s')).
  - intros. apply in_sequence_refl.
  - intros. eapply in_sequence_trans; eassumption.
  - intros. eapply pass_in_sequence; eassumption.
  - intros s a task priority. unfold add_task.
    destruct ((priority <? 0) || (priority >=? priority_levels s));
      [apply in_sequence_refl |].
    destruct (task_queues s !! Z.to_nat priority) as [queue |] eqn:Hqueue;
      [| apply in_sequence_refl].
    split; [intros previous; cbn; auto |].
    cbn. unfold queue_at. rewrite Hqueue. reflexivity.
  - intros s a task_id. unfold stop_task.
    destruct (active_tasks s !! task_id); [| apply in_sequence_refl].
    destruct (adapter_stop_task a task_id) as [[|] a'];
      (split; [intros previous; cbn; auto | reflexivity]).
  - intros. split; [intros; exact I | reflexivity].
Qed.

(** An iteration that has a free slot and a task first in line begins by
    asking the backend about that task. *)
Lemma iteration_asks_first_in_line (comm : CommunicationLayer.t) (sys : System A)
      (p : nat) (task : Task) :
  lock_held sys = false ->
  running (manager sys) = true ->
  Z.of_nat (size (active_tasks (manager sys))) < max_concurrent (manager sys) ->
  first_in_line (task_queues (manager sys)) p task ->
  task_truthy task = true ->
  exists answer rest,
    (step sys (SchedulerIteration comm)).2 = AskedCanExecute task answer :: rest.
Proof.
  intros Hfree Hrunning Hslot Hfirst Htruthy.
  apply first_in_line_select in Hfirst.
  cbn [step]. rewrite Hfree, Hrunning. cbn [orb negb].
  pose proof (scheduler_body_runs comm (manager sys) (adapter sys)) as Hrun.
  destruct (scheduler_body comm (manager sys) (adapter sys)) as [[s' a'] events].
  cbn [snd]. cbn [inner_loop] in Hrun. unfold loop_pass, select_task in Hrun.
  rewrite (proj2 (Z.ltb_lt _ _) Hslot), Hfirst, Htruthy in Hrun.
  destruct (can_execute_task (adapter sys) task) as [[|] a1].
  - destruct (pop_head p (task_queues (manager sys))) as [[head queues] |];
      [| injection Hrun as _ _ <-; eauto].
    destruct (execute_task a1 task) as [[|] a2]; [destruct (task_id task) |];
      try (destruct (inner_loop _ _ _ _) as [[[s'' a''] ev'] |]; [| discriminate]);
      injection Hrun as _ _ <-; eauto.
  - destruct (_try_migrate_task (manager sys) comm task p) as [result mevents].
    injection Hrun as _ _ <-. eauto.
Qed.

Lemma appended_at_app (p : nat) (e1 e2 : list Event) :
  appended_at p (e1 ++ e2) = appended_at p e1 ++ appended_at p e2.
Proof.
  induction e1 as [| e e1 IH]; [reflexivity |].
  destruct e; cbn [app appended_at]; try exact IH.
  case_bool_decide; [cbn; f_equal |]; exact IH.
Qed.

Lemma popped_at_app (p : nat) (e1 e2 : list Event) :
  popped_at p (e1 ++ e2) = popped_at p e1 ++ popped_at p e2.
Proof.
  induction e1 as [| e e1 IH]; [reflexivity |].
  destruct e; cbn [app popped_at]; try exact IH.
  case_bool_decide; [cbn; f_equal |]; exact IH.
Qed.

Lemma sends_quiet (p : nat) (events : list Event) :
  forallb is_send events = true -> appended_at p events = [] /\ popped_at p events = [].
Proof.
  induction events as [| e events IH]; [auto |]. cbn [forallb].
  intros Hall. apply andb_prop in Hall as [He Hall].
  destruct e; try discriminate. cbn. auto.
Qed.

Lemma fifo_refl (s : t) : fifo s [] s.
Proof. intros p. cbn. rewrite app_nil_r. reflexivity. Qed.

Lemma fifo_trans (s1 s2 s3 : t) (e1 e2 : list Event) :
  fifo s1 e1 s2 -> fifo s2 e2 s3 -> fifo s1 (e1 ++ e2) s3.
Proof.
  intros H12 H23 p. rewrite appended_at_app, popped_at_app.
  rewrite app_assoc, H12, <- app_assoc, H23, app_assoc. reflexivity.
Qed.

(** Removing the head of queue [p]. *)
Lemma fifo_pop (s : t) (p : nat) (head : Task) (rest : list Task) (events : list Event) :
  task_queues s !! p = Some (head :: rest) ->
  (forall q, appended_at q events = [])
  -> (forall q, popped_at q events = if bool_decide (p = q) then [head] else []) ->
  forall s', task_queues s' = <[p := rest]> (task_queues s) -> fifo s events s'.
Proof.
  intros Hp Happ Hpop s' Hs' q. rewrite Happ, Hpop, Hs', app_nil_r.
  rewrite queue_at_insert by (eapply lookup_lt_Some; exact Hp).
  case_bool_decide as Hq.
  - subst q. rewrite bool_decide_eq_true_2 by reflexivity.
    unfold queue_at. rewrite Hp. reflexivity.
  - rewrite bool_decide_eq_false_2 by congruence. reflexivity.
Qed.

Lemma fifo_quiet (s s' : t) (events : list Event) :
  (forall q, appended_at q events = []) -> (forall q, popped_at q events = []) ->
  task_queues s' = task_queues s -> fifo s events s'.
Proof.
  intros Happ Hpop Hs' q. rewrite Happ, Hpop, Hs', app_nil_r. reflexivity.
Qed.

Lemma pass_fifo (comm : CommunicationLayer.t) (s s' : t) (a a' : A) (flow : Flow)
      (events : list Event) :
  PassShape comm s a flow s' a' events -> fifo s events s'.
Proof.
  inversion 1 as [| p task rest a1 a2 ok flow' s1 _ _ Hp _ _ Hnext
                  | p task a1 result mevents _ _ Hmig]; subst.
  - apply fifo_refl.
  - apply (fifo_pop s p task rest); [exact Hp | reflexivity | |].
    + intros q. cbn. case_bool_decide; reflexivity.
    + cbv zeta in Hnext.
      destruct ok; [destruct (task_id task) |]; destruct Hnext as [_ ->]; reflexivity.
  - destruct (try_migrate_cases s comm task p) as (sent & Hsent & Hcases).
    cbv zeta in Hcases. rewrite Hmig in Hcases.
    destruct Hcases as [[= -> ->] | [(head & rest & Hp & [= -> ->]) | [= -> ->]]].
    + apply fifo_quiet; [| | reflexivity]; intros q; cbn;
        apply (sends_quiet q sent Hsent).
    + apply (fifo_pop s p head rest); [exact Hp | | | reflexivity].
      * intros q. cbn. rewrite appended_at_app.
        rewrite (proj1 (sends_quiet q sent Hsent)). reflexivity.
      * intros q. cbn. rewrite popped_at_app.
        rewrite (proj2 (sends_quiet q sent Hsent)). cbn.
        case_bool_decide; reflexivity.
    + apply fifo_quiet; [| | reflexivity]; intros q; cbn;
        apply (sends_quiet q sent Hsent).
Qed.

Lemma add_task_fifo (s : t) (task : Task) (priority : Z) :
  fifo s (add_task s task priority).2 (add_task s task priority).1.2.
Proof.
  unfold add_task.
  destruct ((priority <? 0) || (priority >=? priority_levels s)); [apply fifo_refl |].
  destruct (task_queues s !! Z.to_nat priority) as [queue |] eqn:Hqueue; [| apply fifo_refl].
  intros q. cbn.
  rewrite queue_at_insert by (eapply lookup_lt_Some; exact Hqueue).
  case_bool_decide as Hq; [subst q; rewrite bool_decide_eq_true_2 by reflexivity
                          | rewrite bool_decide_eq_false_2 by congruence].
  - unfold queue_at. rewrite Hqueue. reflexivity.
  - rewrite app_nil_r. reflexivity.
Qed.

Lemma run_fifo (sys : System A) (ops : list Op) :
  fifo (manager sys) (run sys ops).2 (manager (run sys ops).1).
Proof.
  apply (run_closed (fun s _ events s' _ => fifo s events s')).
  - intros. apply fifo_refl.
  - intros. eapply fifo_trans; eassumption.
  - intros. eapply pass_fifo; eassumption.
  - intros. apply add_task_fifo.
  - intros s a task_id. unfold stop_task.
    destruct (active_tasks s !! task_id); [| apply fifo_refl].
    destruct (adapter_stop_task a task_id) as [[|] a'];
      (apply fifo_quiet; [reflexivity | reflexivity | reflexivity]).
  - intros. apply fifo_quiet; reflexivity.
Qed.

(** C9: dispatch order, along every execution, the queues at an event
    being those the events before it have left.  Across queues: an
    iteration that has a free slot and a task waiting begins with the head
    of the lowest-indexed non-empty queue, and whenever the scheduler asks
    the backend about a task, offers it for migration or removes it from
    its queue, that task is at that moment the head of the lowest-indexed
    non-empty queue; a task is executed only straight after it has been
    removed.  Within a queue: the tasks leave queue [p] in the order in
    which they entered it. *)
Theorem dispatch_order (comm : CommunicationLayer.t) (sys : System A) (ops : list Op) :
  let start := task_queues (manager sys) in
  let log := (run sys ops).2 in
  (forall p task,
      lock_held sys = false -> running (manager sys) = true ->
      Z.of_nat (size (active_tasks (manager sys))) < max_concurrent (manager sys) ->
      first_in_line start p task -> task_truthy task = true ->
      exists answer rest,
        (step sys (SchedulerIteration comm)).2 = AskedCanExecute task answer :: rest)
  /\ (forall before task answer after,
        log = before ++ AskedCanExecute task answer :: after ->
        exists p, first_in_line (replay start before) p task)
  /\ (forall before task p after,
        log = before ++ MigrationTried task p :: after ->
        first_in_line (replay start before) p task)
  /\ (forall before task p after,
        log = before ++ Popped p task :: after ->
        first_in_line (replay start before) p task)
  /\ (forall before task ok after,
        log = before ++ Executed task ok :: after ->
        exists earlier p, before = earlier ++ [Popped p task])
  /\ replay start log = task_queues (manager (run sys ops).1)
  /\ (forall p,
        queue_at p start ++ appended_at p log
        = popped_at p log ++ queue_at p (task_queues (manager (run sys ops).1))).
Proof.
  cbv zeta. destruct (run_in_sequence sys ops) as [Hordered Hreplay].
  assert (Hat : forall before event after,
             (run sys ops).2 = before ++ event :: after ->
             in_order (last_of None before) (replay (task_queues (manager sys)) before)
                      event).
  { intros before event after Hlog. specialize (Hordered None). rewrite Hlog in Hordered.
    apply ordered_app in Hordered as [_ [Hevent _]]. exact Hevent. }
  split; [intros p task; apply iteration_asks_first_in_line |].
  split; [intros before task answer after Hlog; exact (Hat _ _ _ Hlog) |].
  split; [intros before task p after Hlog; exact (Hat _ _ _ Hlog) |].
  split; [intros before task p after Hlog; exact (Hat _ _ _ Hlog) |].
  split; [| split; [exact Hreplay | exact (run_fifo sys ops)]].
  intros before task ok after Hlog. destruct (Hat _ _ _ Hlog) as [p Hprevious].
  apply last_of_Some in Hprevious as [[_ [=]] | [earlier ->]]. eauto.
Qed.

End Order.

Example same_priority_in_order :
  let ops := [ TaskManager.Start; TaskManager.AddTask (plain_task "A") 0;
               TaskManager.AddTask (plain_task "B") 0;
               TaskManager.SchedulerIteration (sample_layer "D1") ] in
  popped_at 0 (TaskManager.run (TaskManager.boot (config_of 2 1) sample_desktop) ops).2
  = [plain_task "A"; plain_task "B"].
Proof. vm_compute. reflexivity. Qed.

(** ** Device directory: the discovery cycle *)

(** The device is among those some handler returns in this cycle. *)
Definition observed (self : CommunicationLayer.t) (device_id : string) : Prop :=
  exists entry devices,
    In entry (CommunicationLayer.protocol_handlers self)
    /\ CommunicationLayer.discover_devices entry.2 = Some devices
    /\ In device_id (dict_keys devices).

Section Discovery.
Import CommunicationLayer.

Lemma dict_set_keys {V : Type} (k k' : string) (v : V) (d : list (string * V)) :
  In k' (dict_keys (dict_set k v d)) -> k' = k \/ In k' (dict_keys d).
Proof.
  unfold dict_keys. induction d as [| [k0 v0] d IH]; cbn [dict_set map fst In].
  - intros [<- | []]. left. reflexivity.
  - case_bool_decide as Hk; cbn [map fst In].
    + intros [<- | Hin]; auto.
    + intros [<- | Hin]; [auto |]. destruct (IH Hin); auto.
Qed.

Lemma observe_status_other (st : gmap string Status) (device_id other : string) :
  other <> device_id -> observe_status st device_id !! other = st !! other.
Proof.
  intros Hother. unfold observe_status.
  destruct (st !! device_id) as [[| |] |]; try reflexivity;
    apply lookup_insert_ne; congruence.
Qed.

(** What a scan has touched lies within a set of device ids. *)
Definition within (seen : string -> Prop) (st0 : gmap string Status) (sc : Scan) : Prop :=
  (forall k, In k (dict_keys (discovered sc)) -> seen k)
  /\ (forall k, ~ seen k -> statuses sc !! k = st0 !! k)
  /\ (forall k, In k (map fst (notified sc)) -> seen k).

Lemma process_devices_within (seen : string -> Prop) (st0 : gmap string Status)
      (core : AgentCore.t) (name : string) (clock : nat -> Q)
      (devices : list (string * DeviceInfo)) (sc : Scan) :
  (forall k, In k (dict_keys devices) -> seen k) ->
  within seen st0 sc -> within seen st0 (process_devices core name clock devices sc).
Proof.
  revert sc. induction devices as [| [device_id device_info] devices IH]; intros sc Hseen Hsc;
    cbn [process_devices]; [exact Hsc |].
  assert (Hid : seen device_id) by (apply Hseen; left; reflexivity).
  destruct Hsc as (Hdisc & Hst & Hnotes).
  assert (Hdisc' : forall stamped k,
             In k (dict_keys (dict_set device_id stamped (discovered sc))) -> seen k).
  { intros stamped k Hin. apply dict_set_keys in Hin as [-> | Hin]; auto. }
  assert (Hst' : forall k, ~ seen k ->
             observe_status (statuses sc) device_id !! k = st0 !! k).
  { intros k Hk. rewrite observe_status_other; [auto |]. intros ->. contradiction. }
  destruct (AgentCore.has_method core "handle_device_status_change").
  - apply IH; [intros k Hin; apply Hseen; right; exact Hin |].
    split; [| split]; cbn; [apply Hdisc' | exact Hst' |].
    intros k Hin. rewrite map_app in Hin. apply in_app_or in Hin as [Hin | [<- | []]]; auto.
  - split; [| split]; cbn; [apply Hdisc' | exact Hst' | exact Hnotes].
Qed.

Lemma scan_within (self : t) (clock : nat -> Q) (handlers : list (string * Handler))
      (sc : Scan) :
  (forall entry, In entry handlers -> In entry (protocol_handlers self)) ->
  within (observed self) (device_status self) sc ->
  within (observed self) (device_status self)
         (fold_left (scan_protocol (agent_core self) clock) handlers sc).
Proof.
  revert sc. induction handlers as [| entry handlers IH]; intros sc Hsub Hsc; [exact Hsc |].
  cbn [fold_left]. apply IH; [intros e He; apply Hsub; right; exact He |].
  unfold scan_protocol.
  destruct (discover_devices entry.2) as [devices |] eqn:Hdiscover; [| exact Hsc].
  apply process_devices_within; [| exact Hsc].
  intros k Hk. exists entry, devices. split; [apply Hsub; left; reflexivity |]. auto.
Qed.

Lemma sweep_within (seen : string -> Prop) (core : AgentCore.t) (interval current_time : Q)
      (devices : list (string * DeviceInfo)) (st : gmap string Status)
      (notes : list (string * Status)) :
  (forall k, In k (dict_keys devices) -> seen k) ->
  let '(st', notes') := sweep core interval current_time devices st notes in
  (forall k, ~ seen k -> st' !! k = st !! k)
  /\ (forall k, In k (map fst notes') -> In k (map fst notes) \/ seen k).
Proof.
  revert st notes. induction devices as [| [device_id device_info] devices IH];
    intros st notes Hseen; cbn [sweep]; [auto |].
  assert (Hid : seen device_id) by (apply Hseen; left; reflexivity).
  assert (Hrest : forall k, In k (dict_keys devices) -> seen k)
    by (intros k Hk; apply Hseen; right; exact Hk).
  destruct (last_seen device_info) as [seen_at |]; [| auto].
  destruct (Qlt_bool (interval * 2) (current_time - seen_at)).
  - destruct (AgentCore.has_method core "handle_device_status_change").
    + specialize (IH (<[device_id := disconnected]> st)
                     (notes ++ [(device_id, disconnected)]) Hrest).
      destruct (sweep core interval current_time devices _ _) as [st' notes'].
      destruct IH as [Hst Hnotes]. split.
      * intros k Hk. rewrite Hst by exact Hk. apply lookup_insert_ne. intros ->. contradiction.
      * intros k Hin. apply Hnotes in Hin as [Hin | Hin]; [| auto].
        rewrite map_app in Hin. apply in_app_or in Hin as [Hin | [<- | []]]; auto.
    + split; [| auto]. intros k Hk. apply lookup_insert_ne. intros ->. contradiction.
  - apply IH. exact Hrest.
Qed.

(** C7 (what the code does): a device that no handler returns in a
    discovery cycle is not in the directory after the cycle, its status is
    what it was before, and no status change is reported for it.  The sweep
    for stale devices runs over the directory that has just been replaced
    by the devices returned in this cycle, so a device that is no longer
    observed is dropped, and is not marked disconnected, however long it has
    been silent. *)
Theorem unobserved_device_forgotten (self : t) (clock : nat -> Q) (device_id : string) :
  ~ observed self device_id ->
  let '(self', notes) := discovery_cycle self clock in
  ~ In device_id (dict_keys (available_devices self'))
  /\ device_status self' !! device_id = device_status self !! device_id
  /\ ~ In device_id (map fst notes).
Proof.
  intros Hunseen. unfold discovery_cycle.
  set (start := {| discovered := []; statuses := device_status self;
                   notified := []; clock_reads := O |}).
  assert (Hscan : within (observed self) (device_status self)
                         (fold_left (scan_protocol (agent_core self) clock)
                                    (protocol_handlers self) start)).
  { apply scan_within; [auto |]. split; [| split]; cbn; [intros k [] | auto | intros k []]. }
  set (sc := fold_left _ _ start) in *.
  destruct Hscan as (Hdisc & Hst & Hnotes).
  pose proof (sweep_within (observed self) (agent_core self) (discovery_interval self)
                (clock (clock_reads sc)) (discovered sc) (statuses sc) (notified sc) Hdisc)
    as Hsweep.
  destruct (sweep _ _ _ _ _ _) as [st' notes']. cbn.
  destruct Hsweep as [Hst' Hnotes'].
  split; [| split].
  - intros Hin. apply Hunseen, Hdisc, Hin.
  - rewrite Hst' by exact Hunseen. apply Hst. exact Hunseen.
  - intros Hin. apply Hnotes' in Hin as [Hin | Hin]; [| contradiction].
    apply Hunseen, Hnotes, Hin.
Qed.

End Discovery.

(** A directory that knows the device D1, last seen at time 0, with a
    discovery interval of 30 and one handler that finds no device. *)
Definition stale_layer : CommunicationLayer.t :=
  {| CommunicationLayer.agent_core := AgentCore.repository;
     CommunicationLayer.security := sample_security;
     CommunicationLayer.protocol_handlers :=
       [("bluetooth"%string,
         {| CommunicationLayer.handler_send_data := fun _ _ => false;
            CommunicationLayer.discover_devices := Some [] |})];
     CommunicationLayer.discovery_interval := inject_Z 30;
     CommunicationLayer.available_devices :=
       [("D1"%string, {| capabilities := None; protocol := Some "bluetooth"%string;
                         last_seen := Some (inject_Z 0) |})];
     CommunicationLayer.device_status := {[ "D1"%string := CommunicationLayer.new ]} |}.

(** C7 (the code at the failing input): a cycle at time 100, more than
    twice the interval after D1 was last seen, in which D1 is not found,
    removes D1 from the directory and leaves its status at new. *)
Lemma unobserved_device_forgotten_witness :
  ~ observed stale_layer "D1"
  /\ let '(self', notes) := CommunicationLayer.discovery_cycle stale_layer
                              (fun _ => inject_Z 100) in
     ~ In "D1"%string (dict_keys (CommunicationLayer.available_devices self'))
     /\ CommunicationLayer.device_status self' !! "D1"%string
        = CommunicationLayer.device_status stale_layer !! "D1"%string
     /\ ~ In "D1"%string (map fst notes).
Proof.
  assert (Hunseen : ~ observed stale_layer "D1").
  { intros (entry & devices & [<- | []] & [= <-] & []). }
  split; [exact Hunseen |].
  exact (unobserved_device_forgotten stale_layer (fun _ => inject_Z 100) "D1" Hunseen).
Defined.

Example stale_device_not_marked :
  let self' := (CommunicationLayer.discovery_cycle stale_layer (fun _ => inject_Z 100)).1 in
  CommunicationLayer.available_devices self' = []
  /\ CommunicationLayer.device_status self' !! "D1"%string = Some CommunicationLayer.new.
Proof. vm_compute. split; reflexivity. Qed.

(** * Further properties of the code *)

(** ** Tokens and password hashes *)

Definition is_hex_digit (c : ascii) : bool :=
  let n := Z.of_nat (nat_of_ascii c) in
  ((48 <=? n) && (n <=? 57)) || ((97 <=? n) && (n <=? 102)).

Fixpoint all_chars (test : ascii -> bool) (s : string) : bool :=
  match s with
  | EmptyString => true
  | String c rest => test c && all_chars test rest
  end.

Section Digests.
Import Hashlib SecurityManager.

Lemma hex_digit_is_hex (n : Z) : 0 <= n < 16 -> is_hex_digit (hex_digit n) = true.
Proof.
  intros Hn.
  assert (Hk : (Z.to_nat n < 16)%nat) by lia.
  rewrite <- (Z2Nat.id n) by lia.
  generalize dependent (Z.to_nat n). clear Hn. intros k Hk.
  do 16 (destruct k as [| k]; [vm_compute; reflexivity |]).
  lia.
Qed.

Lemma hexlify_shape (bs : list Z) :
  Forall is_byte bs ->
  String.length (hexlify bs) = (2 * length bs)%nat
  /\ all_chars is_hex_digit (hexlify bs) = true.
Proof.
  induction 1 as [| b bs Hb _ [IHlen IHhex]]; [split; reflexivity |].
  unfold is_byte in Hb. cbn [hexlify String.length all_chars length].
  rewrite IHlen, IHhex, !hex_digit_is_hex.
  - split; [lia | reflexivity].
  - apply Z.mod_pos_bound. lia.
  - split; [apply Z.div_pos; lia | apply Z.div_lt_upper_bound; lia].
Qed.

Lemma round_regs (st : Working) (k : Z) : length (regs (round st k)) = 8%nat.
Proof. reflexivity. Qed.

Lemma rounds_regs (ks : list Z) (st : Working) :
  length (regs st) = 8%nat -> length (regs (fold_left round ks st)) = 8%nat.
Proof.
  revert st. induction ks as [| k ks IH]; intros st Hst; [exact Hst |].
  cbn [fold_left]. apply IH, round_regs.
Qed.

Lemma zip_plus32_length (xs ys : list Z) :
  length xs = length ys -> length (zip_plus32 xs ys) = length xs.
Proof.
  revert ys. induction xs as [| x xs IH]; intros [| y ys] Hlen; try discriminate;
    [reflexivity |].
  cbn. f_equal. apply IH. injection Hlen as Hlen. exact Hlen.
Qed.

Lemma compress_length (h block : list Z) :
  length h = 8%nat -> length (compress h block) = 8%nat.
Proof.
  intros Hh. unfold compress. rewrite zip_plus32_length; [exact Hh |].
  rewrite rounds_regs; [exact Hh | exact Hh].
Qed.

Lemma absorb_length (fuel : nat) (h ws : list Z) :
  length h = 8%nat -> length (absorb fuel h ws) = 8%nat.
Proof.
  revert h ws. induction fuel as [| fuel IH]; intros h ws Hh; [exact Hh |].
  cbn [absorb]. destruct ws; [exact Hh |]. apply IH, compress_length, Hh.
Qed.

Lemma sha256_length (msg : list Z) : length (sha256 msg) = 32%nat.
Proof.
  unfold sha256.
  pose proof (absorb_length (length (words_of_bytes (pad msg))) initial_hash
                (words_of_bytes (pad msg)) eq_refl) as Hlen.
  destruct (absorb _ _ _) as [| w0 [| w1 [| w2 [| w3 [| w4 [| w5 [| w6 [| w7 [| ? ?]]]]]]]]];
    try discriminate.
  reflexivity.
Qed.

(** X1: [verify_token] accepts a token exactly when it equals the token
    [generate_token] yields for the clock reading taken at verification; it
    raises (the [TypeError] of [compare_digest]) exactly when the presented
    token has a non-ASCII character, and answers [False] otherwise. *)
Theorem verify_token_accepts_only_current {D} `{HasId D}
        (self : t) (now token : string) (d : D) :
  (verify_token self now token d = Some true <-> token = generate_token self now d)
  /\ (verify_token self now token d = None <-> is_ascii token = false)
  /\ (verify_token self now token d = Some false
      <-> is_ascii token = true /\ token <> generate_token self now d).
Proof.
  rewrite verify_token_spec.
  pose proof (generate_token_ascii self now d) as Hgen.
  destruct (is_ascii token) eqn:Hascii; [case_bool_decide as Heq |];
    intuition (subst; try discriminate; congruence).
Qed.

(** X2: a token is sixty-four lower-case hexadecimal digits, whatever the
    key, the data and the clock reading. *)
Theorem generate_token_shape {D} `{HasId D} (self : t) (now : string) (d : D) :
  String.length (generate_token self now d) = 64%nat
  /\ all_chars is_hex_digit (generate_token self now d) = true.
Proof.
  unfold generate_token.
  set (digest := hmac_sha256 _ _).
  assert (Hbytes : Forall is_byte digest) by apply sha256_bytes.
  assert (Hlen : length digest = 32%nat) by apply sha256_length.
  destruct (hexlify_shape digest Hbytes) as [Hshape Hhex].
  rewrite Hlen in Hshape. split; [exact Hshape | exact Hhex].
Qed.

(** X3: a password verifies against its own hash; a stored hash is
    accepted for a password only if it is the hash of that password; and a
    stored hash with a non-ASCII character makes the comparison raise. *)
Theorem verify_password_round_trip (password hashed : string) :
  verify_password password (hash_password password) = Some true
  /\ (verify_password password hashed = Some true <-> hashed = hash_password password)
  /\ (verify_password password hashed = None <-> is_ascii hashed = false).
Proof.
  assert (Hascii : is_ascii (hash_password password) = true)
    by (apply hexlify_ascii, sha256_bytes).
  unfold verify_password, compare_digest. rewrite Hascii. cbn [andb].
  split; [rewrite bool_decide_eq_true_2; reflexivity |].
  destruct (is_ascii hashed) eqn:Hhashed.
  - split; [| split; discriminate].
    case_bool_decide as Heq; split; try discriminate; try congruence; auto.
  - split; [| tauto].
    split; [discriminate |]. intros ->. congruence.
Qed.

End Digests.

(** X4: [receive_data] delivers nothing.  The security manager has no
    method [decrypt_data], so the call behind a successful signature check
    raises and is caught: for every envelope the result is [False], and
    neither the cipher nor the handler of the agent core is called. *)
Theorem receive_data_never_delivers
        (self : CommunicationLayer.t) (now : string)
        (decrypt : list Z -> option (list Z)) (handle : string -> list Z -> bool)
        (sender_id : string) (envelope : CommunicationLayer.Envelope) :
  let outcome := CommunicationLayer.receive_data self now decrypt handle sender_id envelope in
  outcome.1 = false
  /\ forallb (fun call => negb (after_verification call)) outcome.2 = true.
Proof.
  cbv zeta. unfold CommunicationLayer.receive_data.
  replace (SecurityManager.has_attribute "decrypt_data") with false by (vm_compute; reflexivity).
  repeat case_match; split; reflexivity.
Qed.

(** ** Task manager: termination, stopping, and what an iteration leaves *)

(** The empty dict as a task. *)
Definition empty_task : Task :=
  {| task_id := None; description := None; required_capabilities := None;
     required_resources := None; parameters := None |}.





Section Iterations.
Import TaskManager.
Context {A : Type} `{DeviceAdapter A}.

(** X5: the inner loop of the scheduler always ends: as many passes as
    there are queued tasks, plus one, suffice, and allowing more passes
    gives the same manager, adapter and events. *)
Theorem scheduler_loop_terminates (comm : CommunicationLayer.t) (self : t) (adapter : A)
        (extra : nat) :
  inner_loop (S (queued self) + extra) comm self adapter
  = Some (scheduler_body comm self adapter)
  /\ (queued (scheduler_body comm self adapter).1.1 <= queued self)%nat.
Proof.
  split; [apply inner_loop_fuel, scheduler_body_runs |].
  assert (Hpass : forall comm s a flow s' a' events,
             PassShape comm s a flow s' a' events -> (queued s' <= queued s)%nat).
  { intros comm0 s a flow s' a' events Hshape. apply pass_state in Hshape.
    destruct Hshape as [-> | (p & head & rest & Hp & Hs')]; [lia |].
    unfold queued. rewrite (concat_insert_length p head rest _ Hp). cbv zeta in Hs'.
    destruct Hs' as [-> | (key & task & _ & ->)]; cbn; lia. }
  pose proof (scheduler_body_closed (fun s _ _ s' _ => (queued s' <= queued s)%nat)
                ltac:(cbv beta; intros; lia) Hpass comm self adapter) as Hclosed.
  destruct (scheduler_body comm self adapter) as [[s' a'] events]. exact Hclosed.
Qed.

(** X6: [stop()] lowers the flag and then returns [True] exactly when no
    task is active.  With an active task it never returns: it calls
    [stop_task] while holding the lock that [stop_task] takes.  In both
    cases the queues and the active table are as before, and the backend is
    not asked to stop anything. *)
Theorem stop_blocks_with_active_tasks (self : t) (adapter : A) :
  let '(result, self', adapter', events) := stop self adapter in
  (result = Some true <-> active_tasks self = ∅)
  /\ (result = None <-> active_tasks self <> ∅)
  /\ self' = with_running self false
  /\ adapter' = adapter
  /\ events = []
  /\ step {| manager := self; adapter := adapter; lock_held := false |} Stop
     = ({| manager := self'; adapter := adapter';
           lock_held := negb (bool_decide (active_tasks self = ∅)) |}, []).
Proof.
  unfold stop.
  destruct (map_to_list (active_tasks self)) as [| [key task] rest] eqn:Hlist.
  - apply map_to_list_empty_iff in Hlist. cbn. rewrite Hlist.
    repeat split; try discriminate; try reflexivity; auto.
    intros Hne. contradiction.
  - assert (Hne : active_tasks self <> ∅).
    { intros Hempty. apply map_to_list_empty_iff in Hempty. congruence. }
    cbn. rewrite bool_decide_eq_false_2 by exact Hne.
    repeat split; try discriminate; try reflexivity; auto; try contradiction.
Qed.

(** X7: once the lock is held for ever, as it is after [stop()] on a
    manager with an active task, no later operation adds, removes or
    dispatches anything: the queues, the active table and the backend stay
    as they are and nothing happens. *)
Theorem held_lock_freezes (sys : System A) (ops : list Op) :
  lock_held sys = true ->
  (run sys ops).2 = []
  /\ task_queues (manager (run sys ops).1) = task_queues (manager sys)
  /\ active_tasks (manager (run sys ops).1) = active_tasks (manager sys)
  /\ adapter (run sys ops).1 = adapter sys
  /\ lock_held (run sys ops).1 = true.
Proof.
  revert sys. induction ops as [| op ops IH]; intros sys Hheld; cbn [run]; [auto |].
  assert (Hstep : (step sys op).2 = []
                  /\ task_queues (manager (step sys op).1) = task_queues (manager sys)
                  /\ active_tasks (manager (step sys op).1) = active_tasks (manager sys)
                  /\ adapter (step sys op).1 = adapter sys
                  /\ lock_held (step sys op).1 = true).
  { destruct op; cbn [step]; rewrite ?Hheld; cbn; auto. }
  destruct (step sys op) as [sys1 e1]. cbn [fst snd] in Hstep.
  destruct Hstep as (-> & Hq & Ha & Had & Hl).
  specialize (IH sys1 Hl).
  destruct (run sys1 ops) as [sys2 e2]. cbn [fst snd] in IH |- *.
  destruct IH as (-> & Hq' & Ha' & Had' & Hl').
  repeat split; congruence.
Qed.

(** X8: a task is in the active table only because the backend accepted
    and started it: every entry after an execution was there before, or is
    a task, filed under its own id, whose [execute_task] returned [True]
    during the execution. *)
Theorem active_only_after_execute (sys : System A) (ops : list Op)
        (key : string) (task : Task) :
  active_tasks (manager (run sys ops).1) !! key = Some task ->
  active_tasks (manager sys) !! key = Some task
  \/ (task_id task = Some key /\ In (Executed task true) (run sys ops).2).
Proof.
  revert key task.
  apply (run_closed (fun s _ events s' _ =>
           forall key task, active_tasks s' !! key = Some task ->
             active_tasks s !! key = Some task
             \/ (task_id task = Some key /\ In (Executed task true) events))).
  - auto.
  - intros s1 a1 e1 s2 a2 e2 s3 a3 H12 H23 key task H3.
    destruct (H23 key task H3) as [H2 | [Hid Hin]].
    + destruct (H12 key task H2) as [H1 | [Hid Hin]]; [auto |].
      right. split; [exact Hid | apply in_or_app; auto].
    + right. split; [exact Hid | apply in_or_app; auto].
  - intros comm s a flow s' a' events Hshape key task Hafter.
    inversion Hshape as [| p head rest a1 a2 ok flow' s1 _ _ _ _ _ Hnext
                         | p head a1 result mevents _ _ Hmig]; subst.
    + auto.
    + cbv zeta in Hnext.
      destruct ok; [destruct (task_id head) as [k |] eqn:Hid |];
        destruct Hnext as [_ ->]; cbn in Hafter; auto.
      destruct (decide (k = key)) as [-> | Hk].
      * rewrite lookup_insert_eq in Hafter. injection Hafter as <-.
        right. split; [exact Hid | right; right; left; reflexivity].
      * rewrite lookup_insert_ne in Hafter by exact Hk. auto.
    + destruct (try_migrate_cases s comm head p) as (sent & _ & Hcases).
      cbv zeta in Hcases. rewrite Hmig in Hcases.
      destruct Hcases as [[= -> _] | [(h & rest & _ & [= -> _]) | [= -> _]]];
        cbn in Hafter; auto.
  - intros s a task priority key task' Hafter. left. revert Hafter.
    unfold add_task. repeat case_match; cbn; auto.
  - intros s a task_id. unfold stop_task.
    destruct (active_tasks s !! task_id) eqn:Hactive; [| auto].
    destruct (adapter_stop_task a task_id) as [[|] a']; [| auto].
    intros key task' Hafter. cbn in Hafter.
    apply lookup_delete_Some in Hafter as [_ Hafter]. auto.
  - intros s a flag key task Hafter. auto.
Qed.





(** X11: after a cancel that succeeded, a second cancel of the same id
    fails, changes nothing, and does not reach the backend. *)
Theorem stop_task_twice (self : t) (adapter : A) (task_id : string) :
  (stop_task self adapter task_id).1.1.1 = true ->
  stop_task (stop_task self adapter task_id).1.1.2 (stop_task self adapter task_id).1.2 task_id
  = (false, (stop_task self adapter task_id).1.1.2, (stop_task self adapter task_id).1.2, []).
Proof.
  destruct (stop_task self adapter task_id) as [[[r s1] a1] ev] eqn:Hfirst. cbn [fst snd].
  intros ->. unfold stop_task in Hfirst.
  destruct (active_tasks self !! task_id); [| discriminate].
  destruct (adapter_stop_task adapter task_id) as [[|] a']; [| discriminate].
  injection Hfirst as <- <- <-. unfold stop_task, with_active. cbn [active_tasks].
  rewrite lookup_delete_eq. reflexivity.
Qed.

(** X12: whatever is done to a manager, its configuration stays as it was
    constructed and it keeps exactly one queue per configured priority
    level (none when the configured number is not positive). *)
Theorem configuration_is_fixed (config : Config) (adapter : A) (ops : list Op) :
  let self := manager (run (boot config adapter) ops).1 in
  max_concurrent self = default MAX_CONCURRENT_TASKS (config_max_concurrent config)
  /\ priority_levels self = default PRIORITY_LEVELS (config_priority_levels config)
  /\ length (task_queues self)
     = Z.to_nat (default PRIORITY_LEVELS (config_priority_levels config)).
Proof.
  cbv zeta.
  destruct (run_steady (boot config adapter) ops) as (Hmax & Hlevels & Hlen & _).
  rewrite Hmax, Hlevels, Hlen. cbn. repeat split. apply length_replicate.
Qed.

End Iterations.

(** ** The desktop backend *)

Section DesktopBackend.
Import TaskManager.

(** X13: the desktop adapter accepts a task exactly when every required
    capability has a truthy value in its capability set and every required
    quantity is within what is available, which is the float [100 - usage]
    computed, with its rounding, from the reading taken at the call.  The
    call never changes the capability set, and it reads the operating
    system once when the capabilities are covered and not at all when they
    are not. *)
Theorem desktop_can_execute (self : DesktopAdapter.t) (task : Task) :
  let '(answer, self') := DesktopAdapter.can_execute_task self task in
  (answer = true
   <-> capabilities_cover (DesktopAdapter.capabilities self) task
       /\ resources_suffice (DesktopAdapter.usage self (DesktopAdapter.reads self)) task)
  /\ DesktopAdapter.capabilities self' = DesktopAdapter.capabilities self
  /\ DesktopAdapter.usage self' = DesktopAdapter.usage self
  /\ (capabilities_cover (DesktopAdapter.capabilities self) task ->
      DesktopAdapter.reads self' = S (DesktopAdapter.reads self))
  /\ (~ capabilities_cover (DesktopAdapter.capabilities self) task ->
      DesktopAdapter.reads self' = DesktopAdapter.reads self).
Proof.
  pose proof (can_execute_task_spec self task) as Hspec.
  unfold DesktopAdapter.can_execute_task in *.
  pose proof (has_capabilities_cover (DesktopAdapter.capabilities self) task) as Hcover.
  destruct (DesktopAdapter.has_capabilities _ task); cbn in *.
  - assert (Hyes : capabilities_cover (DesktopAdapter.capabilities self) task)
      by (apply Hcover; reflexivity).
    split; [exact Hspec |]. repeat split; intros; solve [reflexivity | contradiction].
  - assert (Hno : ~ capabilities_cover (DesktopAdapter.capabilities self) task)
      by (intros Hyes; apply Hcover in Hyes; discriminate).
    split; [exact Hspec |]. repeat split; intros; solve [reflexivity | contradiction].
Qed.

(** A task that requires one resource and nothing else. *)
Definition resource_task (resource : string) (amount : Q) : Task :=
  {| task_id := None; description := None; required_capabilities := None;
     required_resources := Some [(resource, amount)]; parameters := None |}.

(** X14: a required quantity is compared with the float [100 - usage],
    rounded as the subtraction of two floats is, for [cpu_percent],
    [memory_percent] and [disk_percent], and with zero for any other
    resource name: a task that requires a positive amount of a resource the
    adapter does not report is refused. *)
Theorem desktop_resource_bounds (self : DesktopAdapter.t) (resource : string) (amount : Q) :
  let u := DesktopAdapter.usage self (DesktopAdapter.reads self) in
  let available :=
    if bool_decide (resource = "cpu_percent"%string)
    then Some (DesktopAdapter.int_sub_float 100 (DesktopAdapter.cpu_percent u))
    else if bool_decide (resource = "memory_percent"%string)
         then Some (DesktopAdapter.int_sub_float 100 (DesktopAdapter.memory_percent u))
         else if bool_decide (resource = "disk_percent"%string)
              then Some (DesktopAdapter.int_sub_float 100 (DesktopAdapter.disk_percent u))
              else None in
  ((DesktopAdapter.can_execute_task self (resource_task resource amount)).1 = true
   <-> covered amount available)
  /\ (available = None ->
      ((DesktopAdapter.can_execute_task self (resource_task resource amount)).1 = true
       <-> (amount <= 0)%Q)).
Proof.
  cbv zeta.
  assert (Hcovered :
            (DesktopAdapter.can_execute_task self (resource_task resource amount)).1 = true
            <-> covered amount
                  (dict_get resource
                     (DesktopAdapter.available_of
                        (DesktopAdapter.usage self (DesktopAdapter.reads self))))).
  { rewrite can_execute_task_spec.
    unfold capabilities_cover, resources_suffice, resource_task.
    cbn [required_capabilities required_resources default]. split.
    - intros [_ Hres]. exact (Hres resource amount (or_introl eq_refl)).
    - intros Hle. split; [intros c [] |]. intros r q [[= <- <-] | []]. exact Hle. }
  assert (Hget : dict_get resource
                   (DesktopAdapter.available_of
                      (DesktopAdapter.usage self (DesktopAdapter.reads self)))
                 = if bool_decide (resource = "cpu_percent"%string)
                   then Some (DesktopAdapter.int_sub_float 100
                                (DesktopAdapter.cpu_percent
                                   (DesktopAdapter.usage self (DesktopAdapter.reads self))))
                   else if bool_decide (resource = "memory_percent"%string)
                        then Some (DesktopAdapter.int_sub_float 100
                                     (DesktopAdapter.memory_percent
                                        (DesktopAdapter.usage self
                                           (DesktopAdapter.reads self))))
                        else if bool_decide (resource = "disk_percent"%string)
                             then Some (DesktopAdapter.int_sub_float 100
                                          (DesktopAdapter.disk_percent
                                             (DesktopAdapter.usage self
                                                (DesktopAdapter.reads self))))
                             else None).
  { unfold DesktopAdapter.available_of. cbn [dict_get].
    repeat case_bool_decide; subst; congruence. }
  rewrite <- Hget. split; [exact Hcovered |].
  intros Hnone. rewrite Hcovered, Hnone. reflexivity.
Qed.

(** The float [0.1] and the number the float [99.9] stands for. *)
Definition one_tenth : DesktopAdapter.float := S754_finite false 7205759403792794 (-56).
Definition nearly_all : Q := DesktopAdapter.float_Q false 7029837543348634 (-46).

(** With 0.1 per cent of the processor in use, the difference [100 - 0.1]
    rounds up to the float 99.9: a task that requires 99.9 per cent is
    accepted, although the exact difference is below what it requires. *)
Example rounded_difference_accepted :
  let busy := {| DesktopAdapter.capabilities := ∅;
                 DesktopAdapter.usage := fun _ =>
                   {| DesktopAdapter.cpu_percent := one_tenth;
                      DesktopAdapter.memory_percent := DesktopAdapter.float_of_int 0;
                      DesktopAdapter.disk_percent := DesktopAdapter.float_of_int 0 |};
                 DesktopAdapter.reads := O |} in
  (DesktopAdapter.can_execute_task busy (resource_task "cpu_percent" nearly_all)).1 = true
  /\ (100 - DesktopAdapter.float_Q false 7205759403792794 (-56) < nearly_all)%Q.
Proof. split; vm_compute; reflexivity. Qed.

Lemma select_from_replicate (k n : nat) : select_from k (replicate n []) = None.
Proof. revert k. induction n as [| n IH]; intros k; [reflexivity | apply IH]. Qed.

(** X15: on a freshly constructed manager with at least one slot and one
    priority level, over the desktop backend: a task with an id that the
    backend covers, submitted at priority 0, is active after one iteration
    of the scheduler loop, and the queues are empty again; cancelling it
    then succeeds and empties the active table. *)
Theorem submitted_task_runs_and_stops (config : Config) (desktop : DesktopAdapter.t)
        (comm : CommunicationLayer.t) (task : Task) (key : string) :
  0 < default MAX_CONCURRENT_TASKS (config_max_concurrent config) ->
  0 < default PRIORITY_LEVELS (config_priority_levels config) ->
  task_id task = Some key ->
  capabilities_cover (DesktopAdapter.capabilities desktop) task ->
  resources_suffice (DesktopAdapter.usage desktop (DesktopAdapter.reads desktop)) task ->
  let running := run (boot config desktop)
                     [Start; AddTask task 0; SchedulerIteration comm] in
  let stopped := run running.1 [StopTask key] in
  running.2 = [Appended 0 task; AskedCanExecute task true; Popped 0 task; Executed task true]
  /\ active_tasks (manager running.1) = {[ key := task ]}
  /\ Forall (fun q => q = []) (task_queues (manager running.1))
  /\ stopped.2 = [AskedStop key true]
  /\ active_tasks (manager stopped.1) = ∅.
Proof.
  intros Hslots Hlevels Hid Hcaps Hres. cbv zeta.
  assert (Hcan : DesktopAdapter.can_execute_task desktop task
                 = (true, {| DesktopAdapter.capabilities := DesktopAdapter.capabilities desktop;
                             DesktopAdapter.usage := DesktopAdapter.usage desktop;
                             DesktopAdapter.reads := S (DesktopAdapter.reads desktop) |})).
  { unfold DesktopAdapter.can_execute_task.
    rewrite (proj2 (has_capabilities_cover _ _) Hcaps). cbn.
    rewrite (proj2 (has_resources_suffice _ _) Hres). reflexivity. }
  assert (Htruthy : task_truthy task = true) by (unfold task_truthy; rewrite Hid; reflexivity).
  unfold boot, init.
  destruct (Z.to_nat (default PRIORITY_LEVELS (config_priority_levels config)))
    as [| levels] eqn:Hn; [lia |].
  cbn [replicate].
  set (limit := default MAX_CONCURRENT_TASKS (config_max_concurrent config)) in *.
  set (N := default PRIORITY_LEVELS (config_priority_levels config)) in *.
  set (s2 := {| max_concurrent := limit; priority_levels := N;
                task_queues := [task] :: replicate levels [];
                active_tasks := ∅; running := true |}).
  set (a1 := {| DesktopAdapter.capabilities := DesktopAdapter.capabilities desktop;
                DesktopAdapter.usage := DesktopAdapter.usage desktop;
                DesktopAdapter.reads := S (DesktopAdapter.reads desktop) |}) in *.
  set (s3 := {| max_concurrent := limit; priority_levels := N;
                task_queues := [] :: replicate levels [];
                active_tasks := {[ key := task ]}; running := true |}).
  assert (Hadd : add_task {| max_concurrent := limit; priority_levels := N;
                             task_queues := [] :: replicate levels [];
                             active_tasks := ∅; running := true |} task 0
                 = (true, s2, [Appended 0 task])).
  { unfold add_task. cbn [priority_levels task_queues].
    destruct (Z.ltb_spec 0 0); [lia |]. destruct (Z.geb_spec 0 N); [lia |]. reflexivity. }
  assert (Hpass1 : loop_pass comm s2 desktop
                   = (Continue, s3, a1,
                      [AskedCanExecute task true; Popped 0 task; Executed task true])).
  { unfold loop_pass. cbn [active_tasks max_concurrent s2].
    rewrite map_size_empty.
    destruct (Z.ltb_spec (Z.of_nat 0) limit); [| lia].
    unfold select_task. cbn [task_queues select_from s2]. rewrite Htruthy.
    change (can_execute_task desktop task) with (DesktopAdapter.can_execute_task desktop task).
    rewrite Hcan. cbn [pop_head]. unfold pop_head. cbn. rewrite Hid.
    rewrite insert_empty. reflexivity. }
  assert (Hpass2 : loop_pass comm s3 a1 = (Break, s3, a1, [])).
  { unfold loop_pass. destruct (_ <? _); [| reflexivity].
    unfold select_task. cbn [task_queues select_from s3].
    rewrite select_from_replicate. reflexivity. }
  assert (Hbody : scheduler_body comm s2 desktop
                  = (s3, a1, [AskedCanExecute task true; Popped 0 task; Executed task true])).
  { unfold scheduler_body, queued. cbn [task_queues s2 concat app length inner_loop].
    rewrite Hpass1. destruct (length _); cbn [inner_loop]; rewrite ?Hpass2; reflexivity. }
  assert (Hrun : run {| manager := {| max_concurrent := limit; priority_levels := N;
                                      task_queues := [] :: replicate levels [];
                                      active_tasks := ∅; running := false |};
                        adapter := desktop; lock_held := false |}
                     [Start; AddTask task 0; SchedulerIteration comm]
                 = ({| manager := s3; adapter := a1; lock_held := false |},
                    [Appended 0 task; AskedCanExecute task true; Popped 0 task;
                     Executed task true])).
  { unfold run, step, with_running.
    cbn [manager adapter lock_held max_concurrent priority_levels task_queues
         active_tasks running].
    rewrite Hadd. cbn [manager adapter lock_held running negb orb s2].
    fold s2. rewrite Hbody. reflexivity. }
  rewrite Hrun. cbn [fst snd manager].
  assert (Hstop : stop_task s3 a1 key = (true, with_active s3 ∅, a1, [AskedStop key true])).
  { unfold stop_task. cbn [active_tasks s3]. rewrite lookup_singleton_eq.
    change (adapter_stop_task a1 key) with (DesktopAdapter.stop_task a1 key).
    unfold DesktopAdapter.stop_task. rewrite delete_singleton_eq. reflexivity. }
  cbn [run step lock_held manager adapter]. rewrite Hstop.
  split; [reflexivity |]. split; [reflexivity |]. split; [| split; reflexivity].
  constructor; [reflexivity |].
  clear. induction levels as [| levels IH]; constructor; auto.
Qed.


End DesktopBackend.

(** The manager of the one-slot scenario, with its task active. *)
Definition busy_system : TaskManager.System DesktopAdapter.t :=
  (TaskManager.run (TaskManager.boot (config_of 1 2) sample_desktop) one_slot_ops).1.

(** Stopping the busy manager leaves the lock held, and a later submission
    and iteration do nothing. *)
Lemma held_lock_freezes_witness :
  let stuck := (TaskManager.step busy_system TaskManager.Stop).1 in
  let later := [ TaskManager.AddTask (plain_task "late") 0;
                 TaskManager.SchedulerIteration (sample_layer "D1");
                 TaskManager.StopTask "high" ] in
  TaskManager.lock_held stuck = true
  /\ (TaskManager.run stuck later).2 = []
  /\ TaskManager.active_tasks (TaskManager.manager (TaskManager.run stuck later).1)
     = TaskManager.active_tasks (TaskManager.manager stuck).
Proof.
  cbv zeta.
  assert (Hheld : TaskManager.lock_held (TaskManager.step busy_system TaskManager.Stop).1 = true)
    by (vm_compute; reflexivity).
  split; [exact Hheld |].
  pose proof (held_lock_freezes (TaskManager.step busy_system TaskManager.Stop).1
                [ TaskManager.AddTask (plain_task "late") 0;
                  TaskManager.SchedulerIteration (sample_layer "D1");
                  TaskManager.StopTask "high" ] Hheld) as (Hev & _ & Hactive & _).
  split; [exact Hev | exact Hactive].
Defined.

(** The active entry of the one-slot scenario was executed in it. *)
Lemma active_only_after_execute_witness :
  TaskManager.active_tasks busy_system.(TaskManager.manager) !! "high"%string
  = Some (plain_task "high")
  /\ (TaskManager.active_tasks
        (TaskManager.manager (TaskManager.boot (config_of 1 2) sample_desktop))
      !! "high"%string = Some (plain_task "high")
      \/ (task_id (plain_task "high") = Some "high"%string
          /\ In (TaskManager.Executed (plain_task "high") true)
                (TaskManager.run (TaskManager.boot (config_of 1 2) sample_desktop)
                                 one_slot_ops).2)).
Proof.
  assert (Hactive : TaskManager.active_tasks
                      (TaskManager.manager
                         (TaskManager.run (TaskManager.boot (config_of 1 2) sample_desktop)
                                          one_slot_ops).1)
                    !! "high"%string = Some (plain_task "high"))
    by (vm_compute; reflexivity).
  split; [exact Hactive |].
  exact (active_only_after_execute (TaskManager.boot (config_of 1 2) sample_desktop)
           one_slot_ops "high" (plain_task "high") Hactive).
Defined.

(** Cancelling the active task of the busy manager twice. *)
Lemma stop_task_twice_witness :
  let first := TaskManager.stop_task (TaskManager.manager busy_system)
                                     (TaskManager.adapter busy_system) "high" in
  first.1.1.1 = true
  /\ TaskManager.stop_task first.1.1.2 first.1.2 "high" = (false, first.1.1.2, first.1.2, []).
Proof.
  cbv zeta.
  assert (Hfirst : (TaskManager.stop_task (TaskManager.manager busy_system)
                      (TaskManager.adapter busy_system) "high").1.1.1 = true)
    by (vm_compute; reflexivity).
  split; [exact Hfirst |].
  exact (stop_task_twice (TaskManager.manager busy_system)
                         (TaskManager.adapter busy_system) "high" Hfirst).
Defined.

(** The wifi task on the sample desktop, with one slot and two levels. *)
Lemma submitted_task_runs_and_stops_witness :
  let running := TaskManager.run (TaskManager.boot (config_of 1 2) sample_desktop) wifi_ops in
  TaskManager.active_tasks (TaskManager.manager running.1) = {[ "w1"%string := wifi_task ]}
  /\ TaskManager.active_tasks
       (TaskManager.manager (TaskManager.run running.1 [TaskManager.StopTask "w1"]).1) = ∅.
Proof.
  assert (Hcaps : capabilities_cover (DesktopAdapter.capabilities sample_desktop) wifi_task).
  { apply has_capabilities_cover. vm_compute. reflexivity. }
  assert (Hres : resources_suffice
                   (DesktopAdapter.usage sample_desktop (DesktopAdapter.reads sample_desktop))
                   wifi_task).
  { apply has_resources_suffice. vm_compute. reflexivity. }
  pose proof (submitted_task_runs_and_stops (config_of 1 2) sample_desktop (sample_layer "D1")
                wifi_task "w1" ltac:(cbn; lia) ltac:(cbn; lia) eq_refl Hcaps Hres)
    as (_ & Hactive & _ & _ & Hstopped).
  split; [exact Hactive | exact Hstopped].
Defined.

(** ** Communication layer: routing and life cycle *)

Section Routing.
Import CommunicationLayer.

Lemma send_attempts_result (handlers : list (string * Handler)) (target_id : string)
      (data : Message) :
  existsb (fun h => handler_send_data h.2 target_id data) handlers
  = existsb snd (send_attempts handlers target_id data).
Proof.
  induction handlers as [| [name handler] handlers IH]; [reflexivity |].
  cbn [existsb send_attempts snd].
  destruct (handler_send_data handler target_id data); [reflexivity | exact IH].
Qed.

Lemma send_attempts_shape (handlers : list (string * Handler)) (target_id : string)
      (data : Message) :
  exists failed final rest,
    handlers = failed ++ final ++ rest
    /\ (forall h, In h failed -> handler_send_data h.2 target_id data = false)
    /\ send_attempts handlers target_id data
       = map (fun h => (h.1, false)) failed ++ map (fun h => (h.1, true)) final
    /\ ((final = [] /\ rest = [])
        \/ exists h, final = [h] /\ handler_send_data h.2 target_id data = true).
Proof.
  induction handlers as [| [name handler] handlers IH].
  - exists [], [], []. repeat split; auto. intros h [].
  - cbn [send_attempts].
    destruct (handler_send_data handler target_id data) eqn:Hsend.
    + exists [], [(name, handler)], handlers. repeat split; auto; [intros h [] |].
      right. exists (name, handler). auto.
    + destruct IH as (failed & final & rest & -> & Hfailed & -> & Hfinal).
      exists ((name, handler) :: failed), final, rest. repeat split; auto.
      intros h [<- | Hin]; [exact Hsend | apply Hfailed, Hin].
Qed.

(** X16: routing of [send_data] and [broadcast_data].  Without a protocol
    [send_data] asks the handlers in registration order and stops at the
    first that reports success, so it succeeds exactly when some handler
    does; [broadcast_data] asks every handler whatever the others answer
    and succeeds when at least one does.  With a protocol named only that
    handler is asked: there is no fallback to another transport, and an
    unknown name fails without any handler being asked. *)
Theorem send_and_broadcast_routing (self : t) (target_id : string) (data : Message)
        (reports : string -> bool) (name : string) :
  (send_data self target_id data None = true
   <-> exists h, In h (protocol_handlers self) /\ handler_send_data h.2 target_id data = true)
  /\ (exists failed final rest,
        protocol_handlers self = failed ++ final ++ rest
        /\ (forall h, In h failed -> handler_send_data h.2 target_id data = false)
        /\ send_attempts (protocol_handlers self) target_id data
           = map (fun h => (h.1, false)) failed ++ map (fun h => (h.1, true)) final
        /\ ((final = [] /\ rest = [])
            \/ exists h, final = [h] /\ handler_send_data h.2 target_id data = true)
        /\ send_data self target_id data None
           = existsb snd (send_attempts (protocol_handlers self) target_id data))
  /\ ((broadcast_data self reports None).2 = dict_keys (protocol_handlers self)
      /\ ((broadcast_data self reports None).1 = true
          <-> exists n, In n (dict_keys (protocol_handlers self)) /\ reports n = true))
  /\ (name <> EmptyString ->
      match dict_get name (protocol_handlers self) with
      | Some handler =>
          send_data self target_id data (Some name) = handler_send_data handler target_id data
          /\ broadcast_data self reports (Some name) = (reports name, [name])
      | None =>
          send_data self target_id data (Some name) = false
          /\ broadcast_data self reports (Some name) = (false, [])
      end).
Proof.
  split; [| split; [| split]].
  - cbn [send_data]. rewrite existsb_exists. reflexivity.
  - destruct (send_attempts_shape (protocol_handlers self) target_id data)
      as (failed & final & rest & Hsplit & Hfailed & Hattempts & Hfinal).
    exists failed, final, rest. repeat split; auto.
    cbn [send_data]. apply send_attempts_result.
  - cbn [broadcast_data fst snd]. split; [reflexivity |].
    rewrite existsb_exists. reflexivity.
  - intros Hname. unfold send_data, broadcast_data, dict_has.
    rewrite bool_decide_eq_false_2 by exact Hname.
    destruct (dict_get name (protocol_handlers self)); split; reflexivity.
Qed.

Lemma start_handlers_shape (starts : string -> bool) (names : list string) :
  exists started final rest,
    names = started ++ final ++ rest
    /\ forallb starts started = true
    /\ (start_handlers starts names).2
       = map (fun n => HandlerStarted n true) started
         ++ map (fun n => HandlerStarted n false) final
    /\ (((start_handlers starts names).1 = true /\ final = [] /\ rest = [])
        \/ ((start_handlers starts names).1 = false
            /\ exists n, final = [n] /\ starts n = false)).
Proof.
  induction names as [| n names IH]; cbn [start_handlers].
  - exists [], [], []. repeat split; auto.
  - destruct (starts n) eqn:Hn.
    + destruct IH as (started & final & rest & Hsplit & Hall & Hcalls & Hend).
      destruct (start_handlers starts names) as [ok calls]. cbn [fst snd] in *.
      exists (n :: started), final, rest. subst names calls.
      cbn [forallb map app]. rewrite Hn, Hall. repeat split; auto.
    + exists [], [n], names. repeat split; auto. right. split; [reflexivity | eauto].
Qed.

Lemma stop_handlers_shape (stops : string -> bool) (names : list string) :
  exists stopped final rest,
    names = stopped ++ final ++ rest
    /\ forallb stops stopped = true
    /\ (stop_handlers stops names).2
       = map (fun n => HandlerStopped n true) stopped
         ++ map (fun n => HandlerStopped n false) final
    /\ (((stop_handlers stops names).1 = true /\ final = [] /\ rest = [])
        \/ ((stop_handlers stops names).1 = false
            /\ exists n, final = [n] /\ stops n = false)).
Proof.
  induction names as [| n names IH]; cbn [stop_handlers].
  - exists [], [], []. repeat split; auto.
  - destruct (stops n) eqn:Hn.
    + destruct IH as (stopped & final & rest & Hsplit & Hall & Hcalls & Hend).
      destruct (stop_handlers stops names) as [ok calls]. cbn [fst snd] in *.
      exists (n :: stopped), final, rest. subst names calls.
      cbn [forallb map app]. rewrite Hn, Hall. repeat split; auto.
    + exists [], [n], names. repeat split; auto. right. split; [reflexivity | eauto].
Qed.

Definition is_handler_stop (call : Lifecycle) : bool :=
  match call with
  | HandlerStopped _ _ => true
  | _ => false
  end.

(** X17: [start()] succeeds exactly when every handler starts, and then
    raises the flag, starts the discovery loop and announces the agent.
    When a handler fails to start, the handlers before it have been started
    and are left running, no handler being stopped; the handlers after it
    are not started, the discovery loop is not started, and the flag is as
    it was. *)
Theorem start_stops_at_first_failure (self : t) (starts : string -> bool) (running : bool) :
  let names := dict_keys (protocol_handlers self) in
  let '(ok, running', calls) := start self starts running in
  (ok = true <-> forallb starts names = true)
  /\ forallb (fun call => negb (is_handler_stop call)) calls = true
  /\ (ok = true ->
      running' = true
      /\ calls = map (fun n => HandlerStarted n true) names
                 ++ [DiscoveryThreadStarted; PresenceAnnounced])
  /\ (ok = false ->
      running' = running
      /\ exists started failing rest,
           names = started ++ failing :: rest
           /\ starts failing = false
           /\ forallb starts started = true
           /\ calls = map (fun n => HandlerStarted n true) started
                      ++ [HandlerStarted failing false]).
Proof.
  cbv zeta. unfold start.
  destruct (start_handlers_shape starts (dict_keys (protocol_handlers self)))
    as (started & final & rest & Hsplit & Hall & Hcalls & Hend).
  destruct (start_handlers starts (dict_keys (protocol_handlers self))) as [ok calls].
  cbn [fst snd] in *. subst calls.
  assert (Hquiet : forall l (f : string -> Lifecycle),
             (forall n, is_handler_stop (f n) = false) ->
             forallb (fun call => negb (is_handler_stop call)) (map f l) = true).
  { intros l f Hf. induction l as [| n l IHl]; [reflexivity |]. cbn. rewrite Hf, IHl.
    reflexivity. }
  destruct Hend as [(-> & -> & ->) | (-> & n & -> & Hn)].
  - rewrite !app_nil_r in *. rewrite Hsplit.
    split; [split; auto |]. split; [| split; [auto | discriminate]].
    rewrite forallb_app, Hquiet by reflexivity. reflexivity.
  - rewrite Hsplit. cbn [map app] in *.
    split; [split; [discriminate |] |].
    { rewrite forallb_app. cbn. rewrite Hn, andb_false_r. discriminate. }
    split; [rewrite forallb_app, Hquiet by reflexivity; reflexivity |].
    split; [discriminate |]. intros _. split; [reflexivity |].
    exists started, n, rest. auto.
Qed.

(** X18: [stop()] asks the handlers to stop, in order, up to the first
    that fails, and never lowers the flag of the discovery loop: after a
    [start()] that succeeded and a [stop()], whatever it returns, the
    discovery loop is still set to run. *)
Theorem stop_keeps_discovery_running (self : t) (starts stops : string -> bool)
        (running : bool) :
  let names := dict_keys (protocol_handlers self) in
  (let '(ok, running', calls) := stop self stops running in
   running' = running
   /\ (ok = true <-> forallb stops names = true)
   /\ exists stopped final rest,
        names = stopped ++ final ++ rest
        /\ forallb stops stopped = true
        /\ calls = map (fun n => HandlerStopped n true) stopped
                   ++ map (fun n => HandlerStopped n false) final
        /\ (ok = false -> exists n, final = [n] /\ stops n = false))
  /\ ((start self starts running).1.1 = true ->
      (stop self stops (start self starts running).1.2).1.2 = true).
Proof.
  cbv zeta. split.
  - unfold stop.
    destruct (stop_handlers_shape stops (dict_keys (protocol_handlers self)))
      as (stopped & final & rest & Hsplit & Hall & Hcalls & Hend).
    destruct (stop_handlers stops (dict_keys (protocol_handlers self))) as [ok calls].
    cbn [fst snd] in *. split; [reflexivity |]. split.
    + destruct Hend as [(-> & -> & ->) | (-> & n & -> & Hn)].
      * rewrite !app_nil_r in Hsplit. rewrite Hsplit. split; auto.
      * rewrite Hsplit, forallb_app. cbn. rewrite Hn, andb_false_r. split; discriminate.
    + exists stopped, final, rest. repeat split; auto.
      intros ->. destruct Hend as [(Hok & _) | (_ & Hn)]; [discriminate | exact Hn].
  - unfold start, stop.
    destruct (start_handlers starts _) as [[|] calls]; cbn; [| discriminate].
    intros _. destruct (stop_handlers stops _). reflexivity.
Qed.

End Routing.

(** ** Device directory: what a discovery cycle records *)

(** The status an observed device gets, from the status it had. *)
Definition transition (before : option CommunicationLayer.Status) : CommunicationLayer.Status :=
  match before with
  | None => CommunicationLayer.new
  | Some CommunicationLayer.disconnected => CommunicationLayer.reconnected
  | Some status => status
  end.

(** The ids the handlers return in a cycle, in the order they are met. *)
Definition observed_ids (handlers : list (string * CommunicationLayer.Handler)) : list string :=
  flat_map (fun entry => match CommunicationLayer.discover_devices entry.2 with
                         | Some devices => dict_keys devices
                         | None => []
                         end) handlers.

(** The clock does not advance by more than twice the interval while the
    cycle runs. *)
Definition cycle_within (self : CommunicationLayer.t) (clock : nat -> Q) : Prop :=
  forall n m, (clock m - clock n <= CommunicationLayer.discovery_interval self * 2)%Q.

Section Directory.
Import CommunicationLayer.

Lemma observed_ids_spec (self : t) (device_id : string) :
  observed self device_id <-> In device_id (observed_ids (protocol_handlers self)).
Proof.
  unfold observed, observed_ids. rewrite in_flat_map. split.
  - intros (entry & devices & Hentry & Hdiscover & Hin). exists entry.
    rewrite Hdiscover. auto.
  - intros (entry & Hentry & Hin).
    destruct (discover_devices entry.2) as [devices |] eqn:Hdiscover; [| destruct Hin].
    exists entry, devices. auto.
Qed.

Lemma dict_set_In {V : Type} (k : string) (v : V) (d : list (string * V)) (item : string * V) :
  In item (dict_set k v d) -> item = (k, v) \/ In item d.
Proof.
  induction d as [| [k0 v0] d IH]; cbn [dict_set In].
  - intros [<- | []]. auto.
  - case_bool_decide; cbn [In]; intros [<- | Hin]; auto.
    destruct (IH Hin); auto.
Qed.

Lemma dict_set_has {V : Type} (k k' : string) (v : V) (d : list (string * V)) :
  k' = k \/ In k' (dict_keys d) -> In k' (dict_keys (dict_set k v d)).
Proof.
  unfold dict_keys. induction d as [| [k0 v0] d IH]; cbn [dict_set map fst In].
  - intros [-> | []]. auto.
  - case_bool_decide as Hk; cbn [map fst In].
    + intros [-> | [<- | Hin]]; auto.
    + intros [-> | [<- | Hin]]; auto.
Qed.

Lemma dict_set_length {V : Type} (k : string) (v : V) (d : list (string * V)) :
  (length (dict_set k v d) <= S (length d))%nat.
Proof.
  induction d as [| [k0 v0] d IH]; cbn [dict_set length]; [lia |].
  case_bool_decide; cbn [length]; lia.
Qed.

Lemma observe_status_same (st : gmap string Status) (device_id : string) :
  observe_status st device_id !! device_id = Some (transition (st !! device_id)).
Proof.
  unfold observe_status, transition.
  destruct (st !! device_id) as [[| |] |] eqn:Hst; rewrite ?lookup_insert_eq; auto.
Qed.

Lemma transition_twice (before : option Status) :
  transition (Some (transition before)) = transition before.
Proof. destruct before as [[| |] |]; reflexivity. Qed.

Lemma transition_not_disconnected (before : option Status) :
  transition before <> disconnected.
Proof. destruct before as [[| |] |]; discriminate. Qed.

(** *** Every record is stamped in the cycle that lists it *)

Definition stamped_by (self : t) (clock : nat -> Q) (item : string * DeviceInfo) : Prop :=
  exists entry devices reported n,
    In entry (protocol_handlers self)
    /\ discover_devices entry.2 = Some devices
    /\ In (item.1, reported) devices
    /\ capabilities item.2 = capabilities reported
    /\ protocol item.2 = Some entry.1
    /\ last_seen item.2 = Some (clock n).

Lemma process_devices_stamped (self : t) (clock : nat -> Q) (entry : string * Handler)
      (full devices : list (string * DeviceInfo)) (sc : Scan) :
  In entry (protocol_handlers self) -> discover_devices entry.2 = Some full ->
  (forall item, In item devices -> In item full) ->
  (forall item, In item (discovered sc) -> stamped_by self clock item) ->
  forall item, In item (discovered (process_devices (agent_core self) entry.1 clock devices sc))
               -> stamped_by self clock item.
Proof.
  intros Hentry Hfull. revert sc.
  induction devices as [| [device_id device_info] devices IH]; intros sc Hsub Hsc;
    cbn [process_devices]; [exact Hsc |].
  assert (Hnew : forall item,
             In item (dict_set device_id
                        {| capabilities := capabilities device_info;
                           protocol := Some entry.1;
                           last_seen := Some (clock (clock_reads sc)) |} (discovered sc)) ->
             stamped_by self clock item).
  { intros item Hin. apply dict_set_In in Hin as [-> | Hin]; [| auto].
    exists entry, full, device_info, (clock_reads sc). cbn.
    repeat split; auto. apply Hsub. left. reflexivity. }
  destruct (AgentCore.has_method (agent_core self) "handle_device_status_change").
  - apply IH; [intros item Hin; apply Hsub; right; exact Hin | exact Hnew].
  - exact Hnew.
Qed.

Lemma scan_stamped (self : t) (clock : nat -> Q) (handlers : list (string * Handler))
      (sc : Scan) :
  (forall entry, In entry handlers -> In entry (protocol_handlers self)) ->
  (forall item, In item (discovered sc) -> stamped_by self clock item) ->
  forall item,
    In item (discovered (fold_left (scan_protocol (agent_core self) clock) handlers sc)) ->
    stamped_by self clock item.
Proof.
  revert sc. induction handlers as [| entry handlers IH]; intros sc Hsub Hsc; [exact Hsc |].
  cbn [fold_left]. apply IH; [intros e He; apply Hsub; right; exact He |].
  unfold scan_protocol.
  destruct (discover_devices entry.2) as [devices |] eqn:Hdiscover; [| exact Hsc].
  apply (process_devices_stamped self clock entry devices devices); auto.
  apply Hsub. left. reflexivity.
Qed.

(** X19: after a discovery cycle every record of the directory is one a
    handler returned in this cycle, with the capabilities the handler gave,
    the name of that handler as its protocol, and a reading of the clock
    taken in this cycle as its last-seen time. *)
Theorem directory_records_are_fresh (self : t) (clock : nat -> Q)
        (device_id : string) (device_info : DeviceInfo) :
  In (device_id, device_info) (available_devices (discovery_cycle self clock).1) ->
  exists entry devices reported n,
    In entry (protocol_handlers self)
    /\ discover_devices entry.2 = Some devices
    /\ In (device_id, reported) devices
    /\ capabilities device_info = capabilities reported
    /\ protocol device_info = Some entry.1
    /\ last_seen device_info = Some (clock n).
Proof.
  unfold discovery_cycle.
  destruct (sweep _ _ _ _ _ _) as [st notes]. cbn [fst available_devices].
  intros Hin. eapply (scan_stamped self clock) in Hin; [exact Hin | auto |].
  intros item [].
Qed.

(** *** The sweep after a cycle of ordinary length *)

Lemma sweep_idle (core : AgentCore.t) (interval : Q) (clock : nat -> Q) (current : nat)
      (devices : list (string * DeviceInfo)) (st : gmap string Status)
      (notes : list (string * Status)) :
  (forall n m, (clock m - clock n <= interval * 2)%Q) ->
  (forall item, In item devices -> exists n, last_seen item.2 = Some (clock n)) ->
  sweep core interval (clock current) devices st notes = (st, notes).
Proof.
  intros Hclock. induction devices as [| [device_id device_info] devices IH]; intros Hseen;
    cbn [sweep]; [reflexivity |].
  destruct (Hseen (device_id, device_info) (or_introl eq_refl)) as [n Hn].
  cbn in Hn. rewrite Hn.
  assert (Hfresh : Qlt_bool (interval * 2) (clock current - clock n) = false).
  { unfold Qlt_bool. rewrite (proj2 (Qle_bool_iff _ _) (Hclock n current)). reflexivity. }
  rewrite Hfresh. apply IH. intros item Hin. apply Hseen. right. exact Hin.
Qed.

Definition no_new_disconnection (st0 : gmap string Status) (sc : Scan) : Prop :=
  (forall k, statuses sc !! k = Some disconnected -> st0 !! k = Some disconnected)
  /\ (forall note, In note (notified sc) -> note.2 <> disconnected).

Lemma process_devices_no_disconnection (st0 : gmap string Status) (core : AgentCore.t)
      (name : string) (clock : nat -> Q) (devices : list (string * DeviceInfo)) (sc : Scan) :
  no_new_disconnection st0 sc ->
  no_new_disconnection st0 (process_devices core name clock devices sc).
Proof.
  revert sc. induction devices as [| [device_id device_info] devices IH]; intros sc Hsc;
    cbn [process_devices]; [exact Hsc |].
  destruct Hsc as [Hst Hnotes].
  assert (Hst' : forall k, observe_status (statuses sc) device_id !! k = Some disconnected ->
                           st0 !! k = Some disconnected).
  { intros k Hk. destruct (decide (k = device_id)) as [-> | Hne].
    - rewrite observe_status_same in Hk. injection Hk as Hk.
      exfalso. exact (transition_not_disconnected _ Hk).
    - rewrite observe_status_other in Hk by exact Hne. auto. }
  destruct (AgentCore.has_method core "handle_device_status_change").
  - apply IH. split; cbn; [exact Hst' |].
    intros note Hin. apply in_app_or in Hin as [Hin | [<- | []]]; [auto |].
    cbn. rewrite observe_status_same. cbn. apply transition_not_disconnected.
  - split; cbn; [exact Hst' | exact Hnotes].
Qed.

(** X20: in a cycle during which the clock does not advance by more than
    twice the discovery interval, the sweep for stale devices finds none:
    no device becomes disconnected and no disconnection is reported.  The
    devices the sweep examines were all stamped during the same cycle. *)
Theorem cycle_marks_no_device_disconnected (self : t) (clock : nat -> Q) :
  cycle_within self clock ->
  let '(self', notes) := discovery_cycle self clock in
  (forall device_id, device_status self' !! device_id = Some disconnected ->
                     device_status self !! device_id = Some disconnected)
  /\ (forall note, In note notes -> note.2 <> disconnected).
Proof.
  intros Hclock. unfold discovery_cycle.
  set (start := {| discovered := []; statuses := device_status self;
                   notified := []; clock_reads := O |}).
  set (sc := fold_left (scan_protocol (agent_core self) clock) (protocol_handlers self) start).
  assert (Hstamped : forall item, In item (discovered sc) ->
                                  exists n, last_seen item.2 = Some (clock n)).
  { intros item Hin. apply (scan_stamped self clock) in Hin; [| auto | intros ? []].
    destruct Hin as (entry & devices & reported & n & _ & _ & _ & _ & _ & Hn). eauto. }
  rewrite (sweep_idle (agent_core self) (discovery_interval self) clock (clock_reads sc)
             (discovered sc) (statuses sc) (notified sc) Hclock Hstamped).
  cbn [device_status].
  assert (Hscan : no_new_disconnection (device_status self) sc).
  { subst sc. generalize (protocol_handlers self) as handlers.
    assert (Hstart : no_new_disconnection (device_status self) start)
      by (split; [auto | intros note []]).
    revert Hstart. generalize start as sc0. intros sc0 Hsc0 handlers. revert sc0 Hsc0.
    induction handlers as [| entry handlers IH]; intros sc0 Hsc0; [exact Hsc0 |].
    cbn [fold_left]. apply IH. unfold scan_protocol.
    destruct (discover_devices entry.2); [| exact Hsc0].
    apply process_devices_no_disconnection, Hsc0. }
  exact Hscan.
Qed.

(** *** With the repository's agent core *)

Definition first_of_a_handler (self : t) (device_id : string) : Prop :=
  exists entry device_info rest,
    In entry (protocol_handlers self)
    /\ discover_devices entry.2 = Some ((device_id, device_info) :: rest).

(** X21: with an agent core that has no [handle_device_status_change], as
    the repository's [AgentCore] has none, the callback raises on the first
    device of each handler: only the first device each handler returns
    enters the directory, so the directory never holds more devices than
    there are handlers, and no status change is reported. *)
Theorem only_first_device_registered (self : t) (clock : nat -> Q) :
  AgentCore.has_method (agent_core self) "handle_device_status_change" = false ->
  let '(self', notes) := discovery_cycle self clock in
  (forall device_id, In device_id (dict_keys (available_devices self')) ->
                     first_of_a_handler self device_id)
  /\ (length (available_devices self') <= length (protocol_handlers self))%nat
  /\ notes = [].
Proof.
  intros Hcore. unfold discovery_cycle.
  set (start := {| discovered := []; statuses := device_status self;
                   notified := []; clock_reads := O |}).
  assert (Hscan : forall handlers sc,
             (forall entry, In entry handlers -> In entry (protocol_handlers self)) ->
             let sc' := fold_left (scan_protocol (agent_core self) clock) handlers sc in
             (forall k, In k (dict_keys (discovered sc')) ->
                        In k (dict_keys (discovered sc)) \/ first_of_a_handler self k)
             /\ (length (discovered sc') <= length (discovered sc) + length handlers)%nat
             /\ notified sc' = notified sc).
  { induction handlers as [| entry handlers IH]; intros sc Hsub; cbn [fold_left].
    - repeat split; auto. cbn. lia.
    - specialize (IH (scan_protocol (agent_core self) clock sc entry)
                     ltac:(intros e He; apply Hsub; right; exact He)).
      cbv zeta in IH |- *. destruct IH as (Hkeys & Hlen & Hnotes).
      assert (Hone : (forall k, In k (dict_keys
                                        (discovered (scan_protocol (agent_core self) clock
                                                                   sc entry))) ->
                                In k (dict_keys (discovered sc)) \/ first_of_a_handler self k)
                     /\ (length (discovered (scan_protocol (agent_core self) clock sc entry))
                         <= S (length (discovered sc)))%nat
                     /\ notified (scan_protocol (agent_core self) clock sc entry)
                        = notified sc).
      { unfold scan_protocol.
        destruct (discover_devices entry.2) as [[| [device_id device_info] rest] |]
          eqn:Hdiscover; cbn [process_devices]; try (repeat split; auto; lia).
        rewrite Hcore. cbn [discovered notified]. repeat split.
        - intros k Hk. apply dict_set_keys in Hk as [-> | Hk]; [| auto].
          right. exists entry, device_info, rest. split; [apply Hsub; left; reflexivity | auto].
        - apply dict_set_length. }
      destruct Hone as (Hkeys1 & Hlen1 & Hnotes1).
      repeat split.
      + intros k Hk. destruct (Hkeys k Hk) as [Hk1 | Hfirst]; auto.
      + cbn [length]. lia.
      + congruence. }
  specialize (Hscan (protocol_handlers self) start ltac:(auto)).
  cbv zeta in Hscan. destruct Hscan as (Hkeys & Hlen & Hnotes).
  set (sc := fold_left _ _ start) in *.
  assert (Hsweep : forall devices st notes0,
             (sweep (agent_core self) (discovery_interval self) (clock (clock_reads sc))
                    devices st notes0).2 = notes0).
  { induction devices as [| [device_id device_info] devices IH]; intros st notes0;
      cbn [sweep]; [reflexivity |].
    destruct (last_seen device_info); [| reflexivity].
    destruct (Qlt_bool _ _); [rewrite Hcore; reflexivity | apply IH]. }
  specialize (Hsweep (discovered sc) (statuses sc) (notified sc)).
  destruct (sweep _ _ _ _ _ _) as [st notes]. cbn [snd] in Hsweep.
  cbn [available_devices]. repeat split.
  - intros k Hk. destruct (Hkeys k Hk) as [[] | Hfirst]. exact Hfirst.
  - cbn in Hlen. exact Hlen.
  - rewrite Hsweep, Hnotes. reflexivity.
Qed.

End Directory.

(** *** With an agent core that takes the callback *)

(** The status changes reported while the devices [ids] are processed
    from the status table [st]. *)
Fixpoint reports_of (st : gmap string CommunicationLayer.Status) (ids : list string)
  : list (string * CommunicationLayer.Status) :=
  match ids with
  | [] => []
  | device_id :: rest =>
      (device_id, transition (st !! device_id))
        :: reports_of (CommunicationLayer.observe_status st device_id) rest
  end.

Section Callback.
Import CommunicationLayer.

Lemma fold_observe_status_settled (ids : list string) (st : gmap string Status) (k : string)
      (before : option Status) :
  st !! k = Some (transition before) ->
  fold_left observe_status ids st !! k = Some (transition before).
Proof.
  revert st. induction ids as [| device_id ids IH]; intros st Hst; cbn [fold_left];
    [exact Hst |].
  apply IH. destruct (decide (k = device_id)) as [-> | Hne].
  - rewrite observe_status_same, Hst, transition_twice. reflexivity.
  - rewrite observe_status_other by exact Hne. exact Hst.
Qed.

Lemma fold_observe_status (ids : list string) (st : gmap string Status) (k : string) :
  In k ids -> fold_left observe_status ids st !! k = Some (transition (st !! k)).
Proof.
  revert st. induction ids as [| device_id ids IH]; intros st; cbn [fold_left In]; [tauto |].
  destruct (decide (k = device_id)) as [-> | Hne].
  - intros _. apply fold_observe_status_settled, observe_status_same.
  - intros [Heq | Hin]; [exfalso; apply Hne; symmetry; exact Heq |].
    rewrite IH by exact Hin. rewrite observe_status_other by exact Hne. reflexivity.
Qed.

Lemma reports_of_app (ids more : list string) (st : gmap string Status) :
  reports_of st (ids ++ more)
  = reports_of st ids ++ reports_of (fold_left observe_status ids st) more.
Proof.
  revert st. induction ids as [| device_id ids IH]; intros st; cbn; [reflexivity |].
  rewrite IH. reflexivity.
Qed.

Lemma reports_of_In (ids : list string) (st : gmap string Status) (k : string) :
  In k ids -> In (k, transition (st !! k)) (reports_of st ids).
Proof.
  revert st. induction ids as [| device_id ids IH]; intros st; cbn [In reports_of]; [tauto |].
  destruct (decide (device_id = k)) as [-> | Hne]; [left; reflexivity |].
  intros [Heq | Hin]; [contradiction |]. right.
  rewrite <- (observe_status_other st device_id k) by (intros ->; apply Hne; reflexivity).
  apply IH, Hin.
Qed.

Lemma process_devices_all (core : AgentCore.t) (name : string) (clock : nat -> Q)
      (devices : list (string * DeviceInfo)) (sc : Scan) :
  AgentCore.has_method core "handle_device_status_change" = true ->
  let sc' := process_devices core name clock devices sc in
  statuses sc' = fold_left observe_status (dict_keys devices) (statuses sc)
  /\ notified sc' = notified sc ++ reports_of (statuses sc) (dict_keys devices)
  /\ (forall k, In k (dict_keys (discovered sc)) \/ In k (dict_keys devices) ->
                In k (dict_keys (discovered sc'))).
Proof.
  intros Hcore. revert sc.
  induction devices as [| [device_id device_info] devices IH]; intros sc;
    cbn [process_devices].
  - cbn. rewrite app_nil_r. repeat split. intros k [Hk | []]. exact Hk.
  - rewrite Hcore. cbv zeta in IH |- *.
    match goal with |- context [process_devices core name clock devices ?s] =>
      set (next := s) end.
    destruct (IH next) as (Hst & Hnotes & Hkeys).
    rewrite Hst, Hnotes. subst next. cbn [statuses notified discovered] in *.
    repeat split.
    + rewrite observe_status_same. cbn. rewrite <- app_assoc. reflexivity.
    + intros k Hk. apply Hkeys.
      destruct Hk as [Hk | [<- | Hk]]; [left | left | right; exact Hk];
        apply dict_set_has; auto.
Qed.

Lemma scan_all (core : AgentCore.t) (clock : nat -> Q)
      (handlers : list (string * Handler)) (sc : Scan) :
  AgentCore.has_method core "handle_device_status_change" = true ->
  let sc' := fold_left (scan_protocol core clock) handlers sc in
  statuses sc' = fold_left observe_status (observed_ids handlers) (statuses sc)
  /\ notified sc' = notified sc ++ reports_of (statuses sc) (observed_ids handlers)
  /\ (forall k, In k (dict_keys (discovered sc)) \/ In k (observed_ids handlers) ->
                In k (dict_keys (discovered sc'))).
Proof.
  intros Hcore. revert sc. induction handlers as [| entry handlers IH]; intros sc.
  - cbn. rewrite app_nil_r. repeat split. intros k [Hk | []]. exact Hk.
  - cbn [fold_left observed_ids flat_map]. cbv zeta in IH |- *.
    destruct (IH (scan_protocol core clock sc entry)) as (Hst & Hnotes & Hkeys).
    rewrite Hst, Hnotes. fold (observed_ids handlers). unfold scan_protocol in *.
    destruct (discover_devices entry.2) as [devices |]; [| cbn [app]; auto].
    destruct (process_devices_all core entry.1 clock devices sc Hcore)
      as (Hst1 & Hnotes1 & Hkeys1).
    rewrite Hst1, Hnotes1, fold_left_app, reports_of_app, <- app_assoc.
    repeat split. intros k Hk. apply Hkeys.
    rewrite in_app_iff in Hk. destruct Hk as [Hk | [Hk | Hk]]; auto.
Qed.

Lemma cycle_observed (self : t) (clock : nat -> Q) (device_id : string) :
  AgentCore.has_method (agent_core self) "handle_device_status_change" = true ->
  cycle_within self clock ->
  In device_id (observed_ids (protocol_handlers self)) ->
  let '(self', notes) := discovery_cycle self clock in
  device_status self' !! device_id = Some (transition (device_status self !! device_id))
  /\ In device_id (dict_keys (available_devices self'))
  /\ In (device_id, transition (device_status self !! device_id)) notes.
Proof.
  intros Hcore Hclock Hin. unfold discovery_cycle.
  set (start := {| discovered := []; statuses := device_status self;
                   notified := []; clock_reads := O |}).
  destruct (scan_all (agent_core self) clock (protocol_handlers self) start Hcore)
    as (Hst & Hnotes & Hkeys).
  set (sc := fold_left _ _ start) in *.
  assert (Hstamped : forall item, In item (discovered sc) ->
                                  exists n, last_seen item.2 = Some (clock n)).
  { intros item Hitem. apply (scan_stamped self clock) in Hitem; [| auto | intros ? []].
    destruct Hitem as (entry & devices & reported & n & _ & _ & _ & _ & _ & Hn). eauto. }
  rewrite (sweep_idle (agent_core self) (discovery_interval self) clock (clock_reads sc)
             (discovered sc) (statuses sc) (notified sc) Hclock Hstamped).
  cbn [device_status available_devices].
  rewrite Hst, Hnotes, fold_observe_status by exact Hin.
  cbn [statuses notified start app]. repeat split.
  - apply Hkeys. right. exact Hin.
  - apply reports_of_In, Hin.
Qed.

(** X22: with an agent core that takes the callback, and a cycle no longer
    than twice the interval, every device a handler returns is in the
    directory afterwards, and its status is: new if it had none,
    reconnected if it was disconnected, and otherwise the status it had
    (a device found again stays new or reconnected).  That status is
    reported to the core. *)
Theorem observed_device_status (self : t) (clock : nat -> Q) (device_id : string) :
  AgentCore.has_method (agent_core self) "handle_device_status_change" = true ->
  cycle_within self clock ->
  observed self device_id ->
  let '(self', notes) := discovery_cycle self clock in
  is_device_available self' device_id = true
  /\ device_status self' !! device_id
     = Some (match device_status self !! device_id with
             | None => new
             | Some disconnected => reconnected
             | Some status => status
             end)
  /\ In (device_id, default new (device_status self' !! device_id)) notes.
Proof.
  intros Hcore Hclock Hobserved. apply observed_ids_spec in Hobserved.
  pose proof (cycle_observed self clock device_id Hcore Hclock Hobserved) as Hcycle.
  destruct (discovery_cycle self clock) as [self' notes].
  destruct Hcycle as (Hst & Hkeys & Hnotes). repeat split.
  - unfold is_device_available. apply dict_has_keys, Hkeys.
  - exact Hst.
  - rewrite Hst. exact Hnotes.
Qed.

(** X23: [handle_device_disconnection] for a device of the directory marks
    it disconnected and reports that, but leaves it in the directory, so
    the device is still offered as available; the next discovery cycle
    that finds it reports it as reconnected. *)
Theorem disconnected_device_reconnects (self : t) (clock : nat -> Q) (device_id : string) :
  AgentCore.has_method (agent_core self) "handle_device_status_change" = true ->
  is_device_available self device_id = true ->
  cycle_within self clock ->
  observed self device_id ->
  let '(returned, self1, notes1) := handle_device_disconnection self device_id in
  returned = true
  /\ notes1 = [(device_id, disconnected)]
  /\ get_available_devices self1 = get_available_devices self
  /\ device_status self1 !! device_id = Some disconnected
  /\ let '(self2, notes2) := discovery_cycle self1 clock in
     device_status self2 !! device_id = Some reconnected
     /\ In (device_id, reconnected) notes2.
Proof.
  intros Hcore Havailable Hclock Hobserved. apply observed_ids_spec in Hobserved.
  unfold handle_device_disconnection, is_device_available in *.
  rewrite Havailable, Hcore.
  set (self1 := with_status self _).
  assert (Hst1 : device_status self1 !! device_id = Some disconnected)
    by apply lookup_insert_eq.
  repeat split; [exact Hst1 |].
  pose proof (cycle_observed self1 clock device_id Hcore Hclock Hobserved) as Hcycle.
  destruct (discovery_cycle self1 clock) as [self2 notes2].
  rewrite Hst1 in Hcycle. destruct Hcycle as (Hst & _ & Hnotes). auto.
Qed.

End Callback.

(** An orchestrator that takes the status callback. *)
Definition orchestrator : AgentCore.t :=
  {| AgentCore.methods := [ "handle_received_data"; "handle_device_status_change" ]%string |}.

Definition listed_device : DeviceInfo :=
  {| capabilities := None; protocol := None; last_seen := None |}.

(** A layer with two transports: wifi finds D1 and D2, bluetooth finds D3.
    D1 is in the directory and was marked disconnected. *)
Definition two_transport_layer (core : AgentCore.t) : CommunicationLayer.t :=
  {| CommunicationLayer.agent_core := core;
     CommunicationLayer.security := sample_security;
     CommunicationLayer.protocol_handlers :=
       [("wifi"%string,
         {| CommunicationLayer.handler_send_data := fun _ _ => true;
            CommunicationLayer.discover_devices :=
              Some [("D1"%string, listed_device); ("D2"%string, listed_device)] |});
        ("bluetooth"%string,
         {| CommunicationLayer.handler_send_data := fun _ _ => false;
            CommunicationLayer.discover_devices := Some [("D3"%string, listed_device)] |})];
     CommunicationLayer.discovery_interval := inject_Z 30;
     CommunicationLayer.available_devices := [("D1"%string, camera_device)];
     CommunicationLayer.device_status :=
       {[ "D1"%string := CommunicationLayer.disconnected ]} |}.

Lemma steady_clock_within (core : AgentCore.t) :
  cycle_within (two_transport_layer core) (fun _ => inject_Z 100).
Proof. intros n m. cbn. unfold Qle. cbn. lia. Qed.

Lemma two_transport_observed (core : AgentCore.t) :
  observed (two_transport_layer core) "D1".
Proof.
  eexists _, _. split; [left; reflexivity |]. split; [reflexivity |]. left. reflexivity.
Qed.

Lemma cycle_marks_no_device_disconnected_witness :
  cycle_within (two_transport_layer orchestrator) (fun _ => inject_Z 100)
  /\ let '(self', notes) :=
       CommunicationLayer.discovery_cycle (two_transport_layer orchestrator)
         (fun _ => inject_Z 100) in
     (forall device_id,
         CommunicationLayer.device_status self' !! device_id
         = Some CommunicationLayer.disconnected ->
         CommunicationLayer.device_status (two_transport_layer orchestrator) !! device_id
         = Some CommunicationLayer.disconnected)
     /\ (forall note, In note notes -> note.2 <> CommunicationLayer.disconnected).
Proof.
  split; [apply steady_clock_within |].
  exact (cycle_marks_no_device_disconnected (two_transport_layer orchestrator)
           (fun _ => inject_Z 100) (steady_clock_within orchestrator)).
Defined.

Lemma only_first_device_registered_witness :
  AgentCore.has_method AgentCore.repository "handle_device_status_change" = false
  /\ let '(self', notes) :=
       CommunicationLayer.discovery_cycle (two_transport_layer AgentCore.repository)
         (fun _ => inject_Z 100) in
     (forall device_id,
         In device_id (dict_keys (CommunicationLayer.available_devices self')) ->
         first_of_a_handler (two_transport_layer AgentCore.repository) device_id)
     /\ (length (CommunicationLayer.available_devices self')
         <= length (CommunicationLayer.protocol_handlers
                      (two_transport_layer AgentCore.repository)))%nat
     /\ notes = [].
Proof.
  split; [reflexivity |].
  exact (only_first_device_registered (two_transport_layer AgentCore.repository)
           (fun _ => inject_Z 100) eq_refl).
Defined.

(** With the repository's core the cycle registers D1 and D3 and skips
    D2. *)
Example second_device_skipped :
  dict_keys (CommunicationLayer.available_devices
               (CommunicationLayer.discovery_cycle (two_transport_layer AgentCore.repository)
                  (fun _ => inject_Z 100)).1)
  = [ "D1"; "D3" ]%string.
Proof. vm_compute. reflexivity. Qed.

Lemma observed_device_status_witness :
  AgentCore.has_method orchestrator "handle_device_status_change" = true
  /\ cycle_within (two_transport_layer orchestrator) (fun _ => inject_Z 100)
  /\ observed (two_transport_layer orchestrator) "D1"
  /\ let '(self', notes) :=
       CommunicationLayer.discovery_cycle (two_transport_layer orchestrator)
         (fun _ => inject_Z 100) in
     CommunicationLayer.is_device_available self' "D1" = true
     /\ CommunicationLayer.device_status self' !! "D1"%string
        = Some (match CommunicationLayer.device_status (two_transport_layer orchestrator)
                      !! "D1"%string with
                | None => CommunicationLayer.new
                | Some CommunicationLayer.disconnected => CommunicationLayer.reconnected
                | Some status => status
                end)
     /\ In ("D1"%string,
            default CommunicationLayer.new (CommunicationLayer.device_status self' !! "D1"%string))
           notes.
Proof.
  split; [reflexivity |]. split; [apply steady_clock_within |].
  split; [apply two_transport_observed |].
  exact (observed_device_status (two_transport_layer orchestrator) (fun _ => inject_Z 100)
           "D1" eq_refl (steady_clock_within orchestrator)
           (two_transport_observed orchestrator)).
Defined.

Lemma disconnected_device_reconnects_witness :
  AgentCore.has_method orchestrator "handle_device_status_change" = true
  /\ CommunicationLayer.is_device_available (two_transport_layer orchestrator) "D1" = true
  /\ cycle_within (two_transport_layer orchestrator) (fun _ => inject_Z 100)
  /\ observed (two_transport_layer orchestrator) "D1"
  /\ let '(returned, self1, notes1) :=
       CommunicationLayer.handle_device_disconnection (two_transport_layer orchestrator) "D1" in
     returned = true
     /\ notes1 = [("D1"%string, CommunicationLayer.disconnected)]
     /\ CommunicationLayer.get_available_devices self1
        = CommunicationLayer.get_available_devices (two_transport_layer orchestrator)
     /\ CommunicationLayer.device_status self1 !! "D1"%string
        = Some CommunicationLayer.disconnected
     /\ let '(self2, notes2) :=
          CommunicationLayer.discovery_cycle self1 (fun _ => inject_Z 100) in
        CommunicationLayer.device_status self2 !! "D1"%string
        = Some CommunicationLayer.reconnected
        /\ In ("D1"%string, CommunicationLayer.reconnected) notes2.
Proof.
  split; [reflexivity |]. split; [reflexivity |]. split; [apply steady_clock_within |].
  split; [apply two_transport_observed |].
  exact (disconnected_device_reconnects (two_transport_layer orchestrator)
           (fun _ => inject_Z 100) "D1" eq_refl eq_refl (steady_clock_within orchestrator)
           (two_transport_observed orchestrator)).
Defined.

(** ** Memory: what [store_memory] keeps and [retrieve_memory] finds *)

(** How many memories the loop of [store_memory] moves out of the
    short-term list [all]. *)
Definition excess {Mem} (capacity : Z) (all : list Mem) : nat :=
  Z.to_nat (Z.of_nat (length all) - capacity).

(** Filing the memories [evicted] one after the other, oldest first. *)
Fixpoint store_all {Mem} (memory_id : Mem -> string) (importance : Z) (clock : nat -> Q)
         (n : nat) (evicted : list Mem) (long : list (string * MemorySystem.Entry Mem))
  : list (string * MemorySystem.Entry Mem) :=
  match evicted with
  | [] => long
  | memory :: rest =>
      store_all memory_id importance clock (S n) rest
                (MemorySystem._store_long_term memory_id long memory importance (clock n))
  end.

(** The long-term store holds, under the id [k], a memory with that id
    and the importance [importance]. *)
Definition filed {Mem} (memory_id : Mem -> string) (importance : Z)
           (long : list (string * MemorySystem.Entry Mem)) (k : string) : Prop :=
  exists entry, dict_get k long = Some entry
                /\ memory_id (MemorySystem.entry_data entry) = k
                /\ MemorySystem.entry_importance entry = importance.

Lemma dict_get_set {V : Type} (k k' : string) (v : V) (d : list (string * V)) :
  dict_get k (dict_set k' v d) = if bool_decide (k' = k) then Some v else dict_get k d.
Proof.
  induction d as [| [k0 v0] d IH]; cbn [dict_set dict_get]; [reflexivity |].
  destruct (decide (k0 = k')) as [-> | H0].
  - rewrite (bool_decide_eq_true_2 (k' = k')) by reflexivity. cbn [dict_get].
    case_bool_decide; reflexivity.
  - rewrite (bool_decide_eq_false_2 (k0 = k')) by exact H0. cbn [dict_get].
    rewrite IH. repeat case_bool_decide; try reflexivity; congruence.
Qed.

Lemma dict_set_In_same {V : Type} (k : string) (v : V) (d : list (string * V)) :
  In (k, v) (dict_set k v d).
Proof.
  induction d as [| [k0 v0] d IH]; cbn [dict_set]; [left; reflexivity |].
  case_bool_decide; [left; reflexivity | right; exact IH].
Qed.

Lemma find_some_of {X : Type} (test : X -> bool) (l : list X) (x : X) :
  In x l -> test x = true -> exists found, List.find test l = Some found /\ test found = true.
Proof.
  intros Hin Htest. destruct (List.find test l) as [found |] eqn:Hfind.
  - exists found. split; [reflexivity |]. apply (find_some _ _ Hfind).
  - rewrite (find_none _ _ Hfind x Hin) in Htest. discriminate.
Qed.

Lemma find_head_filter {X : Type} (test : X -> bool) (l : list X) :
  List.find test l = head (List.filter test l).
Proof.
  induction l as [| x l IH]; cbn [List.find List.filter]; [reflexivity |].
  destruct (test x); [reflexivity | exact IH].
Qed.

Section Memories.
Import MemorySystem.
Context {Mem : Type} (memory_id : Mem -> string).

Lemma excess_cons (capacity : Z) (oldest : Mem) (rest : list Mem) :
  capacity < Z.of_nat (length (oldest :: rest)) ->
  excess capacity (oldest :: rest) = S (excess capacity rest).
Proof. unfold excess. cbn [length]. lia. Qed.

Lemma excess_none (capacity : Z) (all : list Mem) :
  Z.of_nat (length all) <= capacity -> excess capacity all = O.
Proof. unfold excess. lia. Qed.

Lemma trim_spec (capacity importance : Z) (clock : nat -> Q) (short : list Mem) :
  forall n long,
    trim memory_id capacity importance clock n short long
    = (0 <=? capacity, drop (excess capacity short) short,
       store_all memory_id importance clock n (take (excess capacity short) short) long).
Proof.
  induction short as [| oldest rest IH]; intros n long; cbn [trim].
  - rewrite Z.gtb_ltb, drop_nil, take_nil. cbn [store_all].
    destruct (Z.ltb_spec capacity 0), (Z.leb_spec 0 capacity); try lia; reflexivity.
  - rewrite Z.gtb_ltb. destruct (Z.ltb_spec capacity (Z.of_nat (length (oldest :: rest))))
      as [Hover | Hfits].
    + rewrite (excess_cons capacity oldest rest Hover). cbn [drop take store_all]. apply IH.
    + rewrite (excess_none capacity (oldest :: rest) Hfits). cbn [drop take store_all].
      destruct (Z.leb_spec 0 capacity); [reflexivity | cbn [length] in Hfits; lia].
Qed.

Lemma store_memory_spec (clock : nat -> Q) (self : t Mem) (memory : Mem) (importance : Z) :
  let all := short_term self ++ [memory] in
  let moved := excess (short_term_capacity self) all in
  store_memory memory_id clock self memory importance
  = (0 <=? short_term_capacity self,
     {| short_term_capacity := short_term_capacity self;
        short_term := drop moved all;
        long_term := store_all memory_id importance clock O (take moved all)
                               (long_term self) |}).
Proof. cbv zeta. unfold store_memory. rewrite trim_spec. reflexivity. Qed.

Lemma store_all_last (importance : Z) (clock : nat -> Q) (evicted : list Mem) (memory : Mem) :
  forall n long,
    store_all memory_id importance clock n (evicted ++ [memory]) long
    = _store_long_term memory_id (store_all memory_id importance clock n evicted long)
                       memory importance (clock (n + length evicted)%nat).
Proof.
  induction evicted as [| m evicted IH]; intros n long; cbn [app store_all length].
  - rewrite Nat.add_0_r. reflexivity.
  - rewrite IH, Nat.add_succ_r. reflexivity.
Qed.

Lemma store_long_term_filed (importance : Z) (now : Q) (memory : Mem)
      (long : list (string * Entry Mem)) (k : string) :
  k = memory_id memory \/ filed memory_id importance long k ->
  filed memory_id importance (_store_long_term memory_id long memory importance now) k.
Proof.
  unfold filed, _store_long_term. intros Hk. rewrite dict_get_set.
  case_bool_decide as Hsame.
  - eexists. split; [reflexivity |]. cbn. auto.
  - destruct Hk as [-> | Hk]; [contradiction | exact Hk].
Qed.

Lemma store_all_filed (importance : Z) (clock : nat -> Q) (evicted : list Mem) (k : string) :
  forall n long,
    (exists m, In m evicted /\ k = memory_id m) \/ filed memory_id importance long k ->
    filed memory_id importance (store_all memory_id importance clock n evicted long) k.
Proof.
  induction evicted as [| memory evicted IH]; intros n long Hk; cbn [store_all].
  - destruct Hk as [(m & [] & _) | Hk]. exact Hk.
  - apply IH. destruct Hk as [(m & [<- | Hin] & ->) | Hk].
    + right. apply store_long_term_filed. left. reflexivity.
    + left. eauto.
    + right. apply store_long_term_filed. right. exact Hk.
Qed.

Lemma store_all_keys (importance : Z) (clock : nat -> Q) (evicted : list Mem) (k : string) :
  forall n long,
    In k (dict_keys long) ->
    In k (dict_keys (store_all memory_id importance clock n evicted long)).
Proof.
  induction evicted as [| memory evicted IH]; intros n long Hk; cbn [store_all];
    [exact Hk |].
  apply IH. unfold _store_long_term. apply dict_set_has. right. exact Hk.
Qed.

(** X24: [store_memory] answers [True] exactly when the capacity is not
    negative.  Afterwards the short-term list is the tail of the old list
    with the new memory appended: the oldest memories beyond the capacity
    have left it, so with a capacity of at least zero it never holds more
    than the capacity, and with a negative capacity it is empty. *)
Theorem store_memory_keeps_latest (clock : nat -> Q) (self : t Mem) (memory : Mem)
        (importance : Z) :
  let all := short_term self ++ [memory] in
  let '(ok, self') := store_memory memory_id clock self memory importance in
  ok = (0 <=? short_term_capacity self)
  /\ short_term self' = drop (excess (short_term_capacity self) all) all
  /\ Z.of_nat (length (short_term self'))
     = Z.max 0 (Z.min (short_term_capacity self) (Z.of_nat (length all)))
  /\ short_term_capacity self' = short_term_capacity self.
Proof.
  cbv zeta. rewrite store_memory_spec. cbn [short_term short_term_capacity].
  repeat split. rewrite length_drop. unfold excess. lia.
Qed.

(** X25: [store_memory] keeps every memory it held and the new one: each
    is afterwards in the short-term list or filed in the long-term store
    under its id, and no long-term key disappears.  An evicted memory is
    filed with the importance given in the call that evicts it. *)
Theorem store_memory_loses_nothing (clock : nat -> Q) (self : t Mem) (memory : Mem)
        (importance : Z) :
  let '(ok, self') := store_memory memory_id clock self memory importance in
  (forall m, In m (short_term self ++ [memory]) ->
             In m (short_term self')
             \/ filed memory_id importance (long_term self') (memory_id m))
  /\ (forall k, In k (dict_keys (long_term self)) -> In k (dict_keys (long_term self'))).
Proof.
  rewrite store_memory_spec. cbn [short_term long_term]. split.
  - intros m Hin.
    rewrite <- (take_drop (excess (short_term_capacity self) (short_term self ++ [memory]))
                  (short_term self ++ [memory])) in Hin.
    apply in_app_or in Hin as [Hin | Hin]; [right | left; exact Hin].
    apply store_all_filed. left. eauto.
  - intros k Hk. apply store_all_keys, Hk.
Qed.

(** Where the memory just stored lies after the call: last in the
    short-term list or, with no room there, in the long-term store under
    its id. *)
Lemma store_memory_new (clock : nat -> Q) (self : t Mem) (memory : Mem) (importance : Z) :
  let self' := (store_memory memory_id clock self memory importance).2 in
  (exists older, short_term self' = older ++ [memory])
  \/ (short_term self' = []
      /\ exists stamp,
           In (memory_id memory,
               {| entry_data := memory; entry_timestamp := stamp;
                  entry_importance := importance |}) (long_term self')).
Proof.
  cbv zeta. rewrite store_memory_spec. cbn [snd short_term long_term].
  set (all := short_term self ++ [memory]).
  set (moved := excess (short_term_capacity self) all).
  destruct (le_lt_dec (length all) moved) as [Hall | Hsome].
  - right. rewrite (take_ge all moved), (drop_ge all moved) by exact Hall.
    split; [reflexivity |]. subst all. rewrite store_all_last. unfold _store_long_term.
    eexists. apply dict_set_In_same.
  - left. subst all. rewrite length_app in Hsome. cbn [length] in Hsome.
    rewrite drop_app_le by lia. eauto.
Qed.

End Memories.

Section Retrieval.
Import MemorySystem.
Context {V : Type} (equal : V -> V -> bool).

(** Everything the memory holds, in the order [retrieve_memory] looks at
    it. *)
Definition recalled (self : t (list (string * V))) : list (list (string * V)) :=
  short_term self ++ map (fun item => entry_data item.2) (long_term self).

(** X26: [retrieve_memory] returns the first memory that matches the query,
    looking through the short-term list from its oldest entry and then
    through the long-term entries in the order their keys were first
    filed; it returns [None] exactly when nothing held matches. *)
Theorem retrieve_memory_first_match (self : t (list (string * V)))
        (query : list (string * V)) :
  retrieve_memory equal self query
  = head (List.filter (fun memory => _matches_query equal memory query) (recalled self))
  /\ (retrieve_memory equal self query = None <->
      forall memory, In memory (recalled self) -> _matches_query equal memory query = false).
Proof.
  assert (Hfirst : retrieve_memory equal self query
                   = head (List.filter (fun memory => _matches_query equal memory query)
                                       (recalled self))).
  { unfold retrieve_memory, recalled. rewrite List.filter_app, find_head_filter.
    destruct (List.filter _ (short_term self)) as [| memory rest]; [| reflexivity].
    cbn [head app]. induction (long_term self) as [| [k entry] long IH]; [reflexivity |].
    cbn [map List.find List.filter snd]. destruct (_matches_query equal (entry_data entry) query);
      [reflexivity | exact IH]. }
  split; [exact Hfirst |]. rewrite Hfirst, <- find_head_filter. split.
  - intros Hnone memory Hin. exact (find_none _ _ Hnone memory Hin).
  - intros Hnone. destruct (List.find _ (recalled self)) as [memory |] eqn:Hfind;
      [| reflexivity].
    destruct (find_some _ _ Hfind) as [Hin Hmatch]. rewrite (Hnone memory Hin) in Hmatch.
    discriminate.
Qed.

(** X27: a query that the memory just stored matches is answered after the
    call, with a memory that matches it, whatever the capacity: with no
    room in the short-term list the memory is found in the long-term
    store. *)
Theorem stored_memory_is_retrievable (memory_id : list (string * V) -> string)
        (clock : nat -> Q) (self : t (list (string * V)))
        (memory query : list (string * V)) (importance : Z) :
  _matches_query equal memory query = true ->
  exists found,
    retrieve_memory equal (store_memory memory_id clock self memory importance).2 query
    = Some found
    /\ _matches_query equal found query = true.
Proof.
  intros Hmatch.
  destruct (retrieve_memory_first_match
              (store_memory memory_id clock self memory importance).2 query) as [-> _].
  rewrite <- find_head_filter. apply (find_some_of _ _ memory); [| exact Hmatch].
  rewrite store_memory_spec. unfold recalled. cbn [snd short_term long_term].
  set (all := short_term self ++ [memory]).
  set (moved := excess (short_term_capacity self) all).
  apply in_or_app. destruct (le_lt_dec (length all) moved) as [Hall | Hsome].
  - right. rewrite (take_ge all moved) by exact Hall. subst all.
    rewrite store_all_last. unfold _store_long_term.
    apply in_map_iff. eexists (memory_id memory, _).
    split; [| apply dict_set_In_same]. reflexivity.
  - left. subst all. rewrite length_app in Hsome. cbn [length] in Hsome.
    rewrite drop_app_le by lia. apply in_or_app. right. left. reflexivity.
Qed.

End Retrieval.

(** A memory without room in its short-term list, and a memory dict with
    one key. *)
Definition typed_memory (kind : Z) : list (string * Z) := [("type"%string, kind)].

Lemma stored_memory_is_retrievable_witness :
  MemorySystem._matches_query Z.eqb (typed_memory 1) (typed_memory 1) = true
  /\ exists found,
       MemorySystem.retrieve_memory Z.eqb
         (MemorySystem.store_memory (fun _ => "1"%string) (fun _ => inject_Z 0)
            (MemorySystem.init (Some 0)) (typed_memory 1) 1).2 (typed_memory 1)
       = Some found
       /\ MemorySystem._matches_query Z.eqb found (typed_memory 1) = true.
Proof.
  split; [reflexivity |].
  exact (stored_memory_is_retrievable Z.eqb (fun _ => "1"%string) (fun _ => inject_Z 0)
           (MemorySystem.init (Some 0)) (typed_memory 1) (typed_memory 1) 1 eq_refl).
Defined.

(** With a capacity of zero the memory goes straight to the long-term
    store, and with a negative capacity the call also answers [False]. *)
Example store_memory_without_room :
  let stored capacity :=
    MemorySystem.store_memory (fun _ => "1"%string) (fun _ => inject_Z 0)
      (MemorySystem.init (Some capacity)) (typed_memory 1) 1 in
  (stored 0).1 = true
  /\ MemorySystem.short_term (stored 0).2 = []
  /\ dict_keys (MemorySystem.long_term (stored 0).2) = [ "1"%string ]
  /\ (stored (-1)).1 = false
  /\ dict_keys (MemorySystem.long_term (stored (-1)).2) = [ "1"%string ].
Proof. vm_compute. repeat split. Qed.

(** ** Inbound data: what [handle_received_data] queues and records *)

(** The data dict as the call leaves it: the analysis is merged into the
    task it carries. *)
Definition data_after (analyze : string -> option (list string)) (data : Inbound.Data)
  : Inbound.Data :=
  if bool_decide (Inbound.data_type data = Some "task"%string)
  then match Inbound.data_task data with
       | Some task =>
           match analyze (default EmptyString (description task)) with
           | Some analysed => Inbound.with_task data (Inbound.update task analysed)
           | None => data
           end
       | None => data
       end
  else data.

Section InboundData.
Import Inbound.
Context {A : Type}.

Lemma call_add_task_free (sys : TaskManager.System A) (task : Task) (priority : Z) :
  well_formed (TaskManager.manager sys) ->
  TaskManager.lock_held sys = false ->
  let '(result, sys', events) := TaskManager.call_add_task sys task priority in
  (result = Some true
   <-> 0 <= priority < TaskManager.priority_levels (TaskManager.manager sys))
  /\ (result = Some false
      <-> ~ 0 <= priority < TaskManager.priority_levels (TaskManager.manager sys))
  /\ (result = Some true ->
      queue_at (Z.to_nat priority) (TaskManager.task_queues (TaskManager.manager sys'))
      = queue_at (Z.to_nat priority) (TaskManager.task_queues (TaskManager.manager sys))
        ++ [task]
      /\ events = [TaskManager.Appended (Z.to_nat priority) task])
  /\ (result = Some false -> sys' = sys /\ events = []).
Proof.
  unfold well_formed, TaskManager.call_add_task, TaskManager.add_task. intros Hwf Hfree.
  rewrite Hfree.
  destruct (Z.ltb_spec priority 0) as [Hneg | Hpos]; cbn [orb].
  { split; [split; [discriminate | lia] |]. split; [split; [lia | reflexivity] |].
    split; [discriminate |]. auto. }
  destruct (Z.geb_spec priority (TaskManager.priority_levels (TaskManager.manager sys)))
    as [Hge | Hlt].
  { split; [split; [discriminate | lia] |]. split; [split; [lia | reflexivity] |].
    split; [discriminate |]. auto. }
  destruct (lookup_lt_is_Some_2 (TaskManager.task_queues (TaskManager.manager sys))
              (Z.to_nat priority) ltac:(lia)) as [queue Hqueue].
  rewrite Hqueue. cbn.
  split; [split; [lia | reflexivity] |]. split; [split; [discriminate | lia] |].
  split; [| discriminate]. intros _. split; [| reflexivity].
  rewrite queue_at_insert by (eapply lookup_lt_Some; exact Hqueue).
  rewrite bool_decide_eq_true_2 by reflexivity.
  unfold queue_at. rewrite Hqueue. reflexivity.
Qed.

(** X28: a task message that arrives while the lock of the task manager is
    free is queued as the analysis left it: the task that reaches the queue
    is the received task with its required capabilities replaced by those
    of the analysis (the sender's own are dropped), at the priority of the
    message or, without one, at priority 0.  The call returns, with [True]
    exactly when that priority is one of the manager's levels, and
    otherwise leaves the manager as it was. *)
Theorem received_task_is_queued
        (memory_id : Memory -> string) (clock : nat -> Q) (now : Q)
        (analyze : string -> option (list string))
        (memory : MemorySystem.t Memory) (sys : TaskManager.System A)
        (sender_id : string) (data : Data) (task : Task) (analysed : list string) :
  well_formed (TaskManager.manager sys) ->
  TaskManager.lock_held sys = false ->
  data_type data = Some "task"%string ->
  data_task data = Some task ->
  analyze (default EmptyString (description task)) = Some analysed ->
  let priority := default 0 (data_priority data) in
  let queued_task :=
    {| task_id := task_id task; description := description task;
       required_capabilities := Some analysed;
       required_resources := required_resources task;
       parameters := parameters task |} in
  let '(result, memory', sys', events) :=
    handle_received_data memory_id clock now analyze memory sys sender_id data in
  (result = Some true
   <-> 0 <= priority < TaskManager.priority_levels (TaskManager.manager sys))
  /\ (result = Some false
      <-> ~ 0 <= priority < TaskManager.priority_levels (TaskManager.manager sys))
  /\ (result = Some true ->
      queue_at (Z.to_nat priority) (TaskManager.task_queues (TaskManager.manager sys'))
      = queue_at (Z.to_nat priority) (TaskManager.task_queues (TaskManager.manager sys))
        ++ [queued_task]
      /\ events = [TaskManager.Appended (Z.to_nat priority) queued_task])
  /\ (result = Some false -> sys' = sys /\ events = []).
Proof.
  intros Hwf Hfree Htype Htask Hanalysis. cbv zeta. unfold handle_received_data.
  rewrite Htype, Htask, Hanalysis.
  rewrite bool_decide_eq_true_2 by reflexivity.
  pose proof (call_add_task_free sys (update task analysed)
                (default 0 (data_priority data)) Hwf Hfree) as Hadd.
  destruct (TaskManager.call_add_task sys (update task analysed)
              (default 0 (data_priority data))) as [[result sys'] events].
  exact Hadd.
Qed.

Lemma refresh_short (memory_id : Memory -> string) (memory : MemorySystem.t Memory)
      (older : list Memory) (before after : Memory) :
  MemorySystem.short_term memory = older ++ [before] ->
  MemorySystem.short_term (refresh memory_id memory before after) = older ++ [after].
Proof.
  unfold refresh. intros ->. destruct older as [| first older]; [reflexivity |].
  cbn [app MemorySystem.short_term].
  change (first :: older ++ [before]) with ((first :: older) ++ [before]).
  rewrite removelast_last. reflexivity.
Qed.

Lemma refresh_long (memory_id : Memory -> string) (memory : MemorySystem.t Memory)
      (before after : Memory) (stamp : Q) (importance : Z) :
  MemorySystem.short_term memory = [] ->
  In (memory_id before,
      {| MemorySystem.entry_data := before; MemorySystem.entry_timestamp := stamp;
         MemorySystem.entry_importance := importance |}) (MemorySystem.long_term memory) ->
  MemorySystem.short_term (refresh memory_id memory before after) = []
  /\ In (memory_id before,
         {| MemorySystem.entry_data := after; MemorySystem.entry_timestamp := stamp;
            MemorySystem.entry_importance := importance |})
        (MemorySystem.long_term (refresh memory_id memory before after)).
Proof.
  unfold refresh. intros -> Hin. split; [reflexivity |].
  cbn [MemorySystem.long_term]. apply in_map_iff. eexists. split; [| exact Hin].
  cbn. rewrite bool_decide_eq_true_2 by reflexivity. reflexivity.
Qed.

(** The record [record] is the newest of the memory: last in the
    short-term list or, with no room there, in the long-term store under
    the key [key] with importance 1. *)
Definition newest (memory : MemorySystem.t Memory) (key : string) (record : Memory) : Prop :=
  (exists older, MemorySystem.short_term memory = older ++ [record])
  \/ (MemorySystem.short_term memory = []
      /\ exists stamp,
           In (key, {| MemorySystem.entry_data := record;
                       MemorySystem.entry_timestamp := stamp;
                       MemorySystem.entry_importance := 1 |})
              (MemorySystem.long_term memory)).

(** X29: every message is recorded, whatever its type and whether or not
    the call succeeds or returns, and the record shares the message: for a
    task message it shows the task with the analysis merged in, not the
    task as received, and a record that went to the long-term store keeps
    the key computed from the message as received.  A message that is not a
    task message is answered with [True] and a task message without a task
    with [False]; neither reaches the task manager or its lock. *)
Theorem inbound_message_recorded
        (memory_id : Memory -> string) (clock : nat -> Q) (now : Q)
        (analyze : string -> option (list string))
        (memory : MemorySystem.t Memory) (sys : TaskManager.System A)
        (sender_id : string) (data : Data) :
  let received := {| memory_type := "received_data"; memory_sender_id := sender_id;
                     memory_data := data; memory_timestamp := now |} in
  let record := {| memory_type := "received_data"; memory_sender_id := sender_id;
                   memory_data := data_after analyze data; memory_timestamp := now |} in
  let '(result, memory', sys', events) :=
    handle_received_data memory_id clock now analyze memory sys sender_id data in
  newest memory' (memory_id received) record
  /\ (data_type data <> Some "task"%string ->
      result = Some true /\ sys' = sys /\ events = [])
  /\ (data_type data = Some "task"%string -> data_task data = None ->
      result = Some false /\ sys' = sys /\ events = []).
Proof.
  cbv zeta. unfold handle_received_data, data_after.
  set (received := {| memory_type := "received_data"; memory_sender_id := sender_id;
                      memory_data := data; memory_timestamp := now |}).
  pose proof (store_memory_new memory_id clock memory received 1) as Hnew.
  cbv zeta in Hnew. fold (newest (MemorySystem.store_memory memory_id clock memory received 1).2
                                 (memory_id received) received) in Hnew.
  case_bool_decide as Htype.
  - destruct (data_task data) as [task |] eqn:Htask.
    + destruct (analyze (default EmptyString (description task))) as [analysed |].
      * destruct (TaskManager.call_add_task sys (update task analysed)
                    (default 0 (data_priority data))) as [[result sys'] events].
        split; [| split; [contradiction | discriminate]].
        destruct Hnew as [[older Hshort] | [Hshort [stamp Hlong]]].
        -- left. exists older. apply refresh_short, Hshort.
        -- right. destruct (refresh_long memory_id _ received
                              {| memory_type := "received_data";
                                 memory_sender_id := sender_id;
                                 memory_data := with_task data (update task analysed);
                                 memory_timestamp := now |} stamp 1 Hshort Hlong)
             as [Hempty Hin].
           split; [exact Hempty | exists stamp; exact Hin].
      * destruct (TaskManager.call_add_task sys task (default 0 (data_priority data)))
          as [[result sys'] events].
        split; [exact Hnew | split; [contradiction | discriminate]].
    + split; [exact Hnew |]. split; [contradiction | auto].
  - split; [exact Hnew |]. split; [auto | contradiction].
Qed.

End InboundData.

(** A task message without a priority, whose sender asks for a camera. *)
Definition task_message : Inbound.Data :=
  {| Inbound.data_type := Some "task"%string;
     Inbound.data_task := Some (camera_task "T1");
     Inbound.data_priority := None |}.

Lemma received_task_is_queued_witness :
  let sys := TaskManager.boot (config_of 1 3) sample_desktop in
  well_formed (TaskManager.manager sys)
  /\ TaskManager.lock_held sys = false
  /\ Inbound.data_type task_message = Some "task"%string
  /\ Inbound.data_task task_message = Some (camera_task "T1")
  /\ (fun _ : string => Some [ "compute"%string ])
       (default EmptyString (description (camera_task "T1")))
     = Some [ "compute"%string ]
  /\ (Inbound.handle_received_data (fun _ => "1"%string) (fun _ => inject_Z 0) (inject_Z 0)
        (fun _ => Some [ "compute"%string ]) (MemorySystem.init None) sys "peer"
        task_message).1.1.1
     = Some true.
Proof.
  cbv zeta. split; [reflexivity |]. split; [reflexivity |]. split; [reflexivity |].
  split; [reflexivity |]. split; [reflexivity |].
  pose proof (received_task_is_queued (fun _ => "1"%string) (fun _ => inject_Z 0)
                (inject_Z 0) (fun _ => Some [ "compute"%string ]) (MemorySystem.init None)
                (TaskManager.boot (config_of 1 3) sample_desktop) "peer" task_message
                (camera_task "T1") [ "compute"%string ] eq_refl eq_refl eq_refl eq_refl
                eq_refl) as Hthm.
  cbv zeta in Hthm.
  destruct (Inbound.handle_received_data _ _ _ _ _ _ _ _) as [[[result memory'] sys'] events].
  apply Hthm. cbn. lia.
Defined.

Lemma directory_records_are_fresh_witness :
  let found := {| capabilities := None; protocol := Some "wifi"%string;
                  last_seen := Some (inject_Z 100) |} in
  In ("D2"%string, found)
     (CommunicationLayer.available_devices
        (CommunicationLayer.discovery_cycle (two_transport_layer orchestrator)
           (fun _ => inject_Z 100)).1)
  /\ exists entry devices reported n,
       In entry (CommunicationLayer.protocol_handlers (two_transport_layer orchestrator))
       /\ CommunicationLayer.discover_devices entry.2 = Some devices
       /\ In ("D2"%string, reported) devices
       /\ capabilities found = capabilities reported
       /\ protocol found = Some entry.1
       /\ last_seen found = Some ((fun _ : nat => inject_Z 100) n).
Proof.
  cbv zeta.
  assert (Hin : In ("D2"%string,
                    {| capabilities := None; protocol := Some "wifi"%string;
                       last_seen := Some (inject_Z 100) |})
                   (CommunicationLayer.available_devices
                      (CommunicationLayer.discovery_cycle (two_transport_layer orchestrator)
                         (fun _ => inject_Z 100)).1))
    by (vm_compute; right; left; reflexivity).
  split; [exact Hin |].
  exact (directory_records_are_fresh (two_transport_layer orchestrator)
           (fun _ => inject_Z 100) "D2" _ Hin).
Defined.
